(** * pycrawl: the crawl-orchestration engine of [pycrawl/crawler.py]

    A shallow embedding of class [Crawler]: the target sequencer
    ([urlGenerator]), the tiered retry queue ([skipUrl], [checkSkips]), the
    error dispatch of [crawl], the idle/backoff handler
    ([noSubmissionHandler], [idle]), the run loop ([run]) and the message
    queue publisher ([_send]).

    The instance [self] is a record threaded through a state-and-exception
    monad.  Everything outside the engine (the HTTP fetch and the subclass
    hooks run by the [try] block of [crawl], the cancellation event, the
    wall clock of the periodic check, the message broker) is an interface
    the engine calls. *)

From stdpp Require Import base numbers list strings.


(** ** Data model *)

(** A crawl target: an integer cursor value or an URL string. *)
Inductive Target :=
  | Id (n : Z)
  | Url (u : string).

#[global] Instance Target_eq_dec : EqDecision Target.
Proof. solve_decision. Defined.

(** The exception classes [crawl] tells apart.  Dispatch is on the exact
    class ([type(e)]), so [SSLError] and [ReadTimeout] are kinds of their
    own; [Other] is any class without an entry in [errorHandlers]. *)
Inductive ErrorKind :=
  | BadOrMalformedResponse
  | WebsiteOffline
  | ResponseNotOk (status : Z)
  | InvalidResponseType
  | ConnectionError
  | NoSubmission
  | InvalidSubmission
  | SSLError
  | ReadTimeout
  | Other (class : string).

(** What the [try] block of [crawl] (download, parse, postProcess, send) did:
    it ran to its end, leaving [self.sleepfor] at some number of seconds, or
    raised. *)
Inductive Outcome :=
  | Done (pause : Z)
  | Failed (e : ErrorKind).

Inductive Level := Info | Warning | Error.

(** The places of the source that write a log record. *)
Inductive LogLine :=
  | NotOkStatus        (* responseNotOkHandlers, 000 and 400 *)
  | Logdata            (* crawl, the generic except clause *)
  | Idling             (* noSubmissionHandler *)
  | CheckedSkips       (* run, after the periodic check *)
  | ShuttingDown       (* run, end of the main loop *)
  | Finished.          (* run, end of the shutdown drain *)

(** Effects on the outside world, in the order they happen. *)
Inductive Event :=
  | Fetch (u : Target)          (* the try block of crawl ran for u *)
  | Sleep (seconds : Z)         (* time.sleep with a duration known here *)
  | IdleSleep                   (* idle: the rest of idleTime, if any *)
  | CheckSleep                  (* run: time.sleep(self.checkEvery) *)
  | Log (l : Level) (at_ : LogLine).

Inductive Exn :=
  | ShutdownCrawler
  | IndexError
  | KeyError.

(** Python values returned by [crawl] and the handlers. *)
Inductive PyRet := PyTrue | PyFalse | PyNone.

Definition truthy (r : PyRet) : bool :=
  match r with PyTrue => true | _ => false end.

(** Constructor arguments that are never assigned again. *)
Record Config := mkConfig {
  startingid : Z;
  direction : Z;
  skipMax : Z;
  skipmaxretries : nat;
  endingid : option Z;
  calm : bool;
}.

(** [calm] when the caller gives none: [self.direction < 0]. *)
Definition default_calm (dir : Z) : bool := (dir <? 0)%Z.

(** The collaborators of the engine.  [attempt u w] is what the try block of
    [crawl] does for [u]; [is_set] reads the cancellation event;
    [check_due] is the test [time.time() > nextcheck] of the run loop. *)
Class Env (W : Type) := {
  attempt : Target → W → Outcome * W;
  is_set : W → bool;
  check_due : W → bool * W;
}.

(** The mutable attributes of [self].  [checkingSkips] starts as [None],
    which the code only tests for truth: it is [false] here.
    [registered] lists the classes the [defaultdict] [errorHandlers] has
    added to itself.  [world] and [trace] are the outside world and the
    effects so far. *)
Record Crawler (W : Type) := mkCrawler {
  id : Z;
  skipped : list (list Target);
  urls : list Target;
  url : option Target;
  checkingSkips : bool;
  consecutiveNoSubmissions : Z;
  sleepfor : Z;
  registered : list string;
  world : W;
  trace : list Event;
}.

Arguments mkCrawler {W}.
Arguments id {W}.
Arguments skipped {W}.
Arguments urls {W}.
Arguments url {W}.
Arguments checkingSkips {W}.
Arguments consecutiveNoSubmissions {W}.
Arguments sleepfor {W}.
Arguments registered {W}.
Arguments world {W}.
Arguments trace {W}.

Section Setters.
Context {W : Type}.
Implicit Type s : Crawler W.

Definition set_id (v : Z) s :=
  mkCrawler v (skipped s) (urls s) (url s) (checkingSkips s)
    (consecutiveNoSubmissions s) (sleepfor s) (registered s) (world s) (trace s).
Definition set_skipped (v : list (list Target)) s :=
  mkCrawler (id s) v (urls s) (url s) (checkingSkips s)
    (consecutiveNoSubmissions s) (sleepfor s) (registered s) (world s) (trace s).
Definition set_urls (v : list Target) s :=
  mkCrawler (id s) (skipped s) v (url s) (checkingSkips s)
    (consecutiveNoSubmissions s) (sleepfor s) (registered s) (world s) (trace s).
Definition set_url (v : option Target) s :=
  mkCrawler (id s) (skipped s) (urls s) v (checkingSkips s)
    (consecutiveNoSubmissions s) (sleepfor s) (registered s) (world s) (trace s).
Definition set_checkingSkips (v : bool) s :=
  mkCrawler (id s) (skipped s) (urls s) (url s) v
    (consecutiveNoSubmissions s) (sleepfor s) (registered s) (world s) (trace s).
Definition set_consecutiveNoSubmissions (v : Z) s :=
  mkCrawler (id s) (skipped s) (urls s) (url s) (checkingSkips s)
    v (sleepfor s) (registered s) (world s) (trace s).
Definition set_sleepfor (v : Z) s :=
  mkCrawler (id s) (skipped s) (urls s) (url s) (checkingSkips s)
    (consecutiveNoSubmissions s) v (registered s) (world s) (trace s).
Definition set_registered (v : list string) s :=
  mkCrawler (id s) (skipped s) (urls s) (url s) (checkingSkips s)
    (consecutiveNoSubmissions s) (sleepfor s) v (world s) (trace s).
Definition set_world (v : W) s :=
  mkCrawler (id s) (skipped s) (urls s) (url s) (checkingSkips s)
    (consecutiveNoSubmissions s) (sleepfor s) (registered s) v (trace s).
Definition set_trace (v : list Event) s :=
  mkCrawler (id s) (skipped s) (urls s) (url s) (checkingSkips s)
    (consecutiveNoSubmissions s) (sleepfor s) (registered s) (world s) v.
End Setters.

(** ** The monad: state, exceptions, and running out of fuel *)

Inductive Result (W A : Type) :=
  | Ret (a : A) (s : Crawler W)
  | Raise (e : Exn) (s : Crawler W)
  | Diverge.

Arguments Ret {W A}.
Arguments Raise {W A}.
Arguments Diverge {W A}.

Definition M (W A : Type) : Type := Crawler W → Result W A.

Definition ret {W A} (a : A) : M W A := fun s => Ret a s.

Definition bind {W A B} (m : M W A) (k : A → M W B) : M W B :=
  fun s =>
    match m s with
    | Ret a s' => k a s'
    | Raise e s' => Raise e s'
    | Diverge => Diverge
    end.

Definition raise {W A} (e : Exn) : M W A := fun s => Raise e s.
Definition diverge {W A} : M W A := fun _ => Diverge.
Definition get {W} : M W (Crawler W) := fun s => Ret s s.
Definition modify {W} (f : Crawler W → Crawler W) : M W unit :=
  fun s => Ret tt (f s).

Notation "'let*' x ':=' m 'in' k" := (bind m (fun x => k))
  (at level 10, x pattern, m at level 100, k at level 200).
Notation "m ';;' k" := (bind m (fun _ => k))
  (at level 100, k at level 200, right associativity).

(** The state a computation ended in, when it ended. *)
Definition final {W A} (r : Result W A) : option (Crawler W) :=
  match r with
  | Ret _ s => Some s
  | Raise _ s => Some s
  | Diverge => None
  end.

(** ** Python list operations the engine uses *)

(** [l.pop()]: the last entry and the rest, [None] on an empty list. *)
Definition pop_last {A} (l : list A) : option (A * list A) :=
  match reverse l with
  | [] => None
  | x :: r => Some (x, reverse r)
  end.

(** [del l[-n:]]: what stays.  For [n > 0] the last [n] entries go (all of
    them when there are fewer); [l[-0:]] is the whole list; for [n < 0] the
    slice starts at index [-n]. *)
Definition del_tail {A} (n : Z) (l : list A) : list A :=
  if (0 <? n)%Z then take (length l - Z.to_nat n) l
  else take (Z.to_nat (- n)) l.

(** [int(status / 100) * 100]: the division is exact enough on a status
    code for [int] to truncate the true quotient toward zero. *)
Definition hundredcode (status : Z) : Z := (Z.quot status 100 * 100)%Z.

(** ** The engine *)

Section Engine.
Context {W : Type} `{!Env W}.
Variable cfg : Config.

Local Abbreviation St := (Crawler W).
Local Abbreviation Act := (M W).

Definition emit (e : Event) : Act unit :=
  modify (fun s => set_trace (trace s ++ [e]) s).

Definition sleep (seconds : Z) : Act unit := emit (Sleep seconds).
Definition log (l : Level) (at_ : LogLine) : Act unit := emit (Log l at_).

(** [self.skipped[i].append(u)] *)
Definition append_tier (i : nat) (u : Target) : Act unit :=
  fun s =>
    match skipped s !! i with
    | Some t => Ret tt (set_skipped (<[i := t ++ [u]]> (skipped s)) s)
    | None => Raise IndexError s
    end.

(** [self.urls.append(u)] *)
Definition append_urls (u : Target) : Act unit :=
  modify (fun s => set_urls (urls s ++ [u]) s).

(** [skipUrl]: every [func] the code passes returns [None].  [self.url]
    is the target of the running [crawl] whenever a handler runs; before
    the first crawl there is nothing to append. *)
Definition skipUrl (func : option (Act unit)) : Act PyRet :=
  let* s := get in
  (if checkingSkips s then ret tt
   else match url s with
        | Some u => append_tier 0 u
        | None => ret tt
        end);;
  match func with
  | Some f => f;; ret PyNone
  | None => ret PyNone
  end.

(** [self.responseNotOkHandlers]: the handler stored under a key. *)
Definition responseNotOkHandlers (code : Z) : option (Act PyRet) :=
  if (code =? 0)%Z then Some (skipUrl (Some (log Error NotOkStatus)))
  else if (code =? 400)%Z then Some (skipUrl (Some (log Warning NotOkStatus)))
  else if (code =? 500)%Z then Some (skipUrl (Some (sleep (60 * 60))))
  else None.

Definition shutdown : Act PyRet := raise ShutdownCrawler.

Definition totalSkipped (s : St) : nat := length (concat (skipped s)).

(** [noSubmissionHandler], with the [idle] it calls as a parameter. *)
Definition noSubmissionHandler (idle : Act unit) : Act PyRet :=
  let* s := get in
  if (0 <? direction cfg)%Z && negb (checkingSkips s) then
    skipUrl None;;
    modify (fun s => set_consecutiveNoSubmissions
                       (consecutiveNoSubmissions s + 1) s);;
    let* s := get in
    (if (skipMax cfg <=? consecutiveNoSubmissions s)%Z then
       (fun s =>
          match skipped s with
          | t0 :: rest =>
              Ret tt (set_skipped
                        (del_tail (consecutiveNoSubmissions s) t0 :: rest) s)
          | [] => Raise IndexError s
          end);;
       modify (fun s => set_id
                 (id s - consecutiveNoSubmissions s * direction cfg) s);;
       log Info Idling;;
       modify (set_consecutiveNoSubmissions 0);;
       idle
     else ret tt);;
    ret PyFalse
  else ret PyTrue.

Definition in_doNotLog (e : ErrorKind) : bool :=
  match e with
  | NoSubmission | ResponseNotOk _ => true
  | _ => false
  end.

(** [typeE in self.errorHandlers] *)
Definition in_errorHandlers (e : ErrorKind) (s : St) : bool :=
  match e with
  | Other c => bool_decide (c ∈ registered s)
  | _ => true
  end.

(** [self.errorHandlers[typeE](e)].  The entry for [ResponseNotOk] is
    never reached from [crawl], whose first except clause takes that
    class. *)
Definition errorHandlers (idle : Act unit) (e : ErrorKind) : Act PyRet :=
  match e with
  | BadOrMalformedResponse => shutdown
  | WebsiteOffline => skipUrl (Some (sleep (60 * 60)))
  | ResponseNotOk status =>
      match responseNotOkHandlers (hundredcode status) with
      | Some h => h
      | None => raise KeyError
      end
  | InvalidResponseType => skipUrl None
  | ConnectionError => skipUrl (Some (sleep (5 * 60)))
  | NoSubmission => noSubmissionHandler idle
  | InvalidSubmission => ret PyTrue
  | SSLError => skipUrl None
  | ReadTimeout => skipUrl (Some (sleep (1 * 60)))
  | Other c =>
      modify (fun s => if bool_decide (c ∈ registered s) then s
                       else set_registered (c :: registered s) s);;
      shutdown
  end.

(** [crawl] from the point where the try block has ended with [o]. *)
Definition crawl_on (idle : Act unit) (o : Outcome) (u : Target) : Act PyRet :=
  match o with
  | Done pause =>
      modify (set_sleepfor pause);;
      (if negb (pause =? 0)%Z && calm cfg then sleep pause else ret tt);;
      ret PyTrue
  | Failed (ResponseNotOk status) =>
      if (status =? 503)%Z then
        append_urls u;; sleep (5 * 60);; ret PyNone
      else if (status =? -1)%Z then
        append_urls u;; ret PyNone
      else
        match responseNotOkHandlers (hundredcode status) with
        | Some h => h;; ret PyNone
        | None => ret PyNone
        end
  | Failed e =>
      let* s := get in
      (if in_doNotLog e then ret tt
       else if in_errorHandlers e s then log Info Logdata
       else log Error Logdata);;
      errorHandlers idle e
  end.

(** [crawl]: set [self.url] and [self.sleepfor], run the try block in the
    world, settle the outcome. *)
Definition crawl_with (idle : Act unit) (u : Target) : Act PyRet :=
  modify (set_url (Some u));;
  modify (set_sleepfor 0);;
  emit (Fetch u);;
  let* o := (fun s => let '(o, w) := attempt u (world s) in
                      Ret o (set_world w s)) in
  crawl_on idle o u.

(** One turn of the while loop of [checkSkips] on tier [i]. *)
Definition drain_one (crawl : Target → Act PyRet) (maxlen : Z) (i : nat)
    (u : Target) (rest : list Target) : Act unit :=
  modify (fun s => set_skipped (<[i := rest]> (skipped s)) s);;
  let* r := crawl u in
  if truthy r then ret tt
  else if (Z.of_nat i <? maxlen)%Z then append_tier (S i) u
  else ret tt.

(** [while self.skipped[i]: ...], at most [fuel] turns. *)
Fixpoint drain_tier (fuel : nat) (crawl : Target → Act PyRet) (maxlen : Z)
    (i : nat) : Act unit :=
  fun s =>
    match skipped s !! i with
    | None => Raise IndexError s
    | Some t =>
        match pop_last t with
        | None => Ret tt s
        | Some (u, rest) =>
            match fuel with
            | O => Diverge
            | S fuel' =>
                (drain_one crawl maxlen i u rest;;
                 drain_tier fuel' crawl maxlen i) s
            end
        end
    end.

(** [for i in ...: body(i)] *)
Fixpoint for_each (l : list nat) (body : nat → Act unit) : Act unit :=
  match l with
  | [] => ret tt
  | i :: l' => body i;; for_each l' body
  end.

(** [checkSkips], with the [crawl] it calls as a parameter.  Tier [i] is
    given as many turns as it holds entries when its loop starts. *)
Definition checkSkips_with (crawl : Target → Act PyRet) : Act unit :=
  modify (set_checkingSkips true);;
  let* s := get in
  let maxlen := (Z.of_nat (length (skipped s)) - 1)%Z in
  for_each (reverse (seq 0 (length (skipped s))))
    (fun i s => drain_tier (length (default [] (skipped s !! i)))
                  crawl maxlen i s);;
  modify (set_checkingSkips false).

Definition idle_with (crawl : Target → Act PyRet) : Act unit :=
  checkSkips_with crawl;; emit IdleSleep.

(** [crawl] calls [idle], which calls [checkSkips], which calls [crawl]:
    the recursion is unrolled to a depth.  The inner [crawl] runs with
    [checkingSkips] set and never reaches [idle] (see [checkSkips_unfold]). *)
Fixpoint crawl_at (depth : nat) (u : Target) : Act PyRet :=
  crawl_with (match depth with
              | O => diverge
              | S d => idle_with (crawl_at d)
              end) u.

Definition checkSkips : Act unit := checkSkips_with (crawl_at 0).
Definition idle : Act unit := idle_with (crawl_at 0).
Definition crawl (u : Target) : Act PyRet := crawl_with idle u.

(** *** The target sequencer *)

(** [self.done()].  The branch on [self.direction] is taken once, in the
    constructor; [or] polls the event only when the bound is not passed. *)
Definition done (s : St) : bool :=
  match endingid cfg with
  | Some e =>
      if (0 <? direction cfg)%Z then (e <? id s)%Z || is_set (world s)
      else (id s <? e)%Z || is_set (world s)
  | None => is_set (world s)
  end.

(** Where the generator [urlGenerator] is suspended. *)
Inductive GenPC :=
  | GNew                 (* created, not yet started *)
  | GExplicit            (* at the yield of the explicit loop *)
  | GCursor              (* at [yield self.id] *)
  | GRequeue (n : nat)   (* at the yield of the for loop, n turns left *)
  | GDone.               (* returned *)

(** [self.urls.pop(0)] *)
Definition pop0 : Act Target :=
  fun s =>
    match urls s with
    | u :: r => Ret u (set_urls r s)
    | [] => Raise IndexError s
    end.

(** [while self.urls: yield self.urls.pop(0)], then [return]. *)
Definition explicit_loop : Act (option Target * GenPC) :=
  let* s := get in
  match urls s with
  | [] => ret (None, GDone)
  | _ :: _ => let* u := pop0 in ret (Some u, GExplicit)
  end.

(** The head of [while not self.done(): yield self.id]. *)
Definition cursor_loop : Act (option Target * GenPC) :=
  let* s := get in
  if done s then ret (None, GDone)
  else ret (Some (Id (id s)), GCursor).

(** [for _ in range(n): yield self.urls.pop(0)], then back to the while. *)
Definition requeue_loop (n : nat) : Act (option Target * GenPC) :=
  match n with
  | O => cursor_loop
  | S n' => let* u := pop0 in ret (Some u, GRequeue n')
  end.

(** [next] on the generator: run it from where it is suspended to its
    next yield ([Some]) or to its end ([None]). *)
Definition urlGenerator (pc : GenPC) : Act (option Target * GenPC) :=
  match pc with
  | GNew =>
      let* s := get in
      match urls s with
      | [] => cursor_loop
      | _ :: _ => explicit_loop
      end
  | GExplicit => explicit_loop
  | GCursor =>
      modify (fun s => set_id (id s + direction cfg) s);;
      let* s := get in
      requeue_loop (length (urls s))
  | GRequeue n => requeue_loop n
  | GDone => ret (None, GDone)
  end.

(** *** The run loop *)

(** The body of [for url in self.urlGenerator()]. *)
Definition run_body (u : Target) : Act unit :=
  let* r := crawl u in
  (if truthy r then modify (set_consecutiveNoSubmissions 0) else ret tt);;
  let* due := (fun s => let '(b, w) := check_due (world s) in
                        Ret b (set_world w s)) in
  if due then checkSkips;; log Info CheckedSkips else ret tt.

(** One turn of the for loop: the generator's next target, then the body.
    [None] when the generator has ended. *)
Definition run_iter (pc : GenPC) : Act (option GenPC) :=
  let* y := urlGenerator pc in
  match y with
  | (Some u, pc') => run_body u;; ret (Some pc')
  | (None, _) => ret None
  end.

Fixpoint run_loop (fuel : nat) (pc : GenPC) : Act unit :=
  match fuel with
  | O => diverge
  | S fuel' =>
      let* n := run_iter pc in
      match n with
      | Some pc' => run_loop fuel' pc'
      | None => ret tt
      end
  end.

(** [try: m except Exception: log] *)
Definition logged (m : Act unit) (l_ok : St → Level) (l_exn : St → Level)
    (at_ : LogLine) : Act unit :=
  fun s =>
    match m s with
    | Ret _ s' => log (l_ok s') at_ s'
    | Raise _ s' => log (l_exn s') at_ s'
    | Diverge => Diverge
    end.

(** [while maxChecks > 0 and self.skips(): ...] *)
Fixpoint shutdown_drain (maxChecks : nat) : Act unit :=
  match maxChecks with
  | O => ret tt
  | S k =>
      let* s := get in
      if bool_decide (totalSkipped s = 0) then ret tt
      else emit CheckSleep;; checkSkips;; shutdown_drain k
  end.

Definition pending_level (s : St) : Level :=
  if bool_decide (totalSkipped s = 0) then Info else Error.

(** [run(urls)]: the main loop, at most [fuel] targets long, and the
    shutdown drain. *)
Definition run (fuel : nat) (more : list Target) : Act unit :=
  modify (fun s => set_urls (urls s ++ more) s);;
  logged (run_loop fuel GNew) (fun _ => Info) (fun _ => Error) ShuttingDown;;
  let* s := get in
  logged (shutdown_drain (length (skipped s))) pending_level pending_level
    Finished.

(** The instance [__init__] builds; [queue] is [list(set(urls))]. *)
Definition init (queue : list Target) (w : W) : St :=
  mkCrawler (startingid cfg) (replicate (skipmaxretries cfg) []) queue None
    false 0 0 [] w [].

End Engine.

(** ** A scripted world

    The outside world as a script: the outcomes of the coming try blocks in
    order, the answers of the coming periodic-check tests, and the state of
    the cancellation event.  Past the end of the script every try block
    succeeds and no check is due. *)

Record Script := mkScript {
  tape : list Outcome;
  dues : list bool;
  cancelled : bool;
}.

#[global] Instance Script_env : Env Script := {|
  attempt _ w :=
    match tape w with
    | o :: t => (o, mkScript t (dues w) (cancelled w))
    | [] => (Done 0, w)
    end;
  is_set w := cancelled w;
  check_due w :=
    match dues w with
    | b :: d => (b, mkScript (tape w) d (cancelled w))
    | [] => (false, w)
    end;
|}.

(** ** Reasoning about the monad *)

(** The targets whose try block ran, in order. *)
Definition fetched (t : list Event) : list Target :=
  omap (fun e => match e with Fetch u => Some u | _ => None end) t.

Section Logic.
Context {W : Type}.

(** [m] run from [s] ends: it returns where [Q] holds or raises where [E]
    holds. *)
Definition wp {A} (m : M W A) (s : Crawler W) (Q : A → Crawler W → Prop)
    (E : Crawler W → Prop) : Prop :=
  match m s with
  | Ret a s' => Q a s'
  | Raise _ s' => E s'
  | Diverge => False
  end.

(** [m], started where [P] holds, ends, and ends in a state related to the
    first by [R] where [P] holds again. *)
Definition keeps {A} (P : Crawler W → Prop) (R : relation (Crawler W))
    (m : M W A) : Prop :=
  ∀ s, P s → wp m s (fun _ s' => R s s' ∧ P s') (fun s' => R s s' ∧ P s').

(** What a crawl leaves alone while a drain pass is in progress: the
    tiers, the cursor and the counter; the explicit queue only grows and
    no further try block runs. *)
Definition quiet (s s' : Crawler W) : Prop :=
  skipped s' = skipped s ∧ id s' = id s ∧
  consecutiveNoSubmissions s' = consecutiveNoSubmissions s ∧
  (∃ A, urls s' = urls s ++ A) ∧
  (∃ T, trace s' = trace s ++ T ∧ fetched T = []).

(** What a drain pass leaves alone: the cursor, the counter and the number
    of tiers; entries only move or leave, tier 0 only loses entries from
    its end, the explicit queue only grows. *)
Definition drained (s s' : Crawler W) : Prop :=
  id s' = id s ∧
  consecutiveNoSubmissions s' = consecutiveNoSubmissions s ∧
  length (skipped s') = length (skipped s) ∧
  concat (skipped s') ⊆+ concat (skipped s) ∧
  default [] (skipped s' !! 0) `prefix_of` default [] (skipped s !! 0) ∧
  (∃ A, urls s' = urls s ++ A) ∧
  (∃ T, trace s' = trace s ++ T).

Definition checking (s : Crawler W) : Prop := checkingSkips s = true.

(** The state in which the try block of [crawl u] has just run. *)
Definition begun (u : Target) (w : W) (s : Crawler W) : Crawler W :=
  set_world w (set_trace (trace s ++ [Fetch u])
                 (set_sleepfor 0 (set_url (Some u) s))).
End Logic.

Section DrainLogic.
Context {W : Type}.

(** What one crawl of [u] does to the state while a drain pass is in
    progress: [quiet], after the one try block for [u]. *)
Definition attempted (u : Target) (s s' : Crawler W) : Prop :=
  checking s' ∧ skipped s' = skipped s ∧ id s' = id s ∧
  consecutiveNoSubmissions s' = consecutiveNoSubmissions s ∧
  (∃ A, urls s' = urls s ++ A) ∧
  (∃ T, trace s' = trace s ++ Fetch u :: T ∧ fetched T = []).

(** A [crawl] fit to be called by a drain pass. *)
Definition drain_safe (crawl : Target → M W PyRet) : Prop :=
  ∀ u s, checking s →
    wp (crawl u) s (fun _ s' => attempted u s s') (fun s' => attempted u s s').

(** The entries of tiers [0 .. k-1] in the order a drain pass pops them. *)
Definition pending (k : nat) (s : Crawler W) : list Target :=
  reverse (concat (take k (skipped s))).

(** The state after one turn of the drain loop that popped [u] from tier
    [length l1]: [u] is gone from its tier and at most appended to the
    next one. *)
Definition popped (l1 : list (list Target)) (rest : list Target)
    (u : Target) (l2 : list (list Target)) (s s' : Crawler W) : Prop :=
  checking s' ∧ id s' = id s ∧
  consecutiveNoSubmissions s' = consecutiveNoSubmissions s ∧
  (∃ A, urls s' = urls s ++ A) ∧
  (∃ T, trace s' = trace s ++ Fetch u :: T ∧ fetched T = []) ∧
  (skipped s' = l1 ++ rest :: l2 ∨
   ∃ t2 l3, l2 = t2 :: l3 ∧ skipped s' = l1 ++ rest :: (t2 ++ [u]) :: l3).

(** Progress of a drain pass that has tiers [0 .. k-1] left to drain. *)
Definition progress (k : nat) (s s' : Crawler W) : Prop :=
  drained s s' ∧ checking s' ∧
  fetched (trace s') ++ pending k s' = fetched (trace s) ++ pending k s.
End DrainLogic.

(** ** Runs of the loop *)

Section Runs.
Context {W : Type} `{!Env W}.
Variable cfg : Config.

(** The first [n] turns of the for loop of [run], from the generator
    suspended at [pc]: the targets the generator yielded, in order, and
    where it is suspended afterwards ([GDone] when it ended before). *)
Fixpoint turns (n : nat) (pc : GenPC) : M W (list Target * GenPC) :=
  match n with
  | O => ret ([], pc)
  | S n' =>
      let* y := urlGenerator cfg pc in
      match y with
      | (Some u, pc') =>
          run_body cfg u;;
          let* r := turns n' pc' in
          ret (u :: r.1, r.2)
      | (None, pc') => ret ([], pc')
      end
  end.

(** One turn of the loop: the generator yields [u], the try block of the
    crawl of [u] has outcome [o], and the body returns. *)
Definition turn (u : Target) (o : Outcome)
    (x x' : GenPC * Crawler W) : Prop :=
  ∃ s1, urlGenerator cfg x.1 x.2 = Ret (Some u, x'.1) s1 ∧
        (attempt u (world s1)).1 = o ∧
        run_body cfg u s1 = Ret () x'.2.

(** [n] turns in a row whose try block found no submission. *)
Inductive empty_turns : nat → GenPC * Crawler W → GenPC * Crawler W → Prop :=
  | empty_turns_O x : empty_turns 0 x x
  | empty_turns_S n x y z u :
      empty_turns n x y → turn u (Failed NoSubmission) y z →
      empty_turns (S n) x z.

(** The sequencer with a consumer that leaves the cursor alone: between
    two calls of [next] anything may change but [self.id]. *)
Inductive alone : GenPC → Crawler W → Prop :=
  | alone_start queue w : alone GNew (init cfg queue w)
  | alone_next pc s y pc' s1 s2 :
      alone pc s → urlGenerator cfg pc s = Ret (y, pc') s1 →
      id s2 = id s1 → alone pc' s2.

(** The cursor has passed the ending bound in the direction of travel. *)
Definition passed (e : Z) (cursor : Z) : bool :=
  if (0 <? direction cfg)%Z then (e <? cursor)%Z else (cursor <? e)%Z.

(** The generator is in cursor mode and its next step is the poll at the
    head of the while loop; [poll_state] is the state the poll sees. *)
Definition at_poll (pc : GenPC) (s : Crawler W) : bool :=
  match pc with
  | GNew => bool_decide (urls s = [])
  | GCursor => bool_decide (urls s = [])
  | GRequeue O => true
  | _ => false
  end.

Definition poll_state (pc : GenPC) (s : Crawler W) : Crawler W :=
  match pc with
  | GCursor => set_id (id s + direction cfg) s
  | _ => s
  end.

(** The generator is in cursor mode. *)
Definition cursor_mode (pc : GenPC) (s : Crawler W) : bool :=
  match pc with
  | GNew => bool_decide (urls s = [])
  | GCursor | GRequeue _ => true
  | GExplicit | GDone => false
  end.

(** The generator is in explicit mode. *)
Definition explicit_mode (pc : GenPC) (s : Crawler W) : bool :=
  match pc with
  | GNew => negb (bool_decide (urls s = []))
  | GExplicit => true
  | _ => false
  end.
End Runs.

(** ** The publisher *)

Module Publisher.

(** What [basic_publish] does: it returns, or raises one of the two
    classes [_send] catches, or raises something else. *)
Inductive PublishResult :=
  | Published
  | ConnectionWrongStateError
  | StreamLostError
  | PublishFailed.

(** What [_mq_connect] does: it returns, or raises. *)
Inductive ConnectResult := Connected | ConnectFailed.

(** The message broker as [_send] sees it. *)
Class Broker (B : Type) := {
  basic_publish : list Byte.byte → B → PublishResult * B;
  connect : B → ConnectResult * B;
}.

Inductive Payload :=
  | Bytes (body : list Byte.byte)
  | NotBytes.

Inductive Step :=
  | Attempt (r : PublishResult)
  | Reconnect (r : ConnectResult).

Inductive SendExn := ValueError | PublishError | ConnectError.

(** How a call of [_send] ends, with the broker and the steps taken. *)
Inductive Sent (B : Type) :=
  | Returned (b : B) (steps : list Step)
  | Raised (e : SendExn) (b : B) (steps : list Step).

Arguments Returned {B}.
Arguments Raised {B}.

Section Send.
Context {B : Type} `{!Broker B}.

(** [self._mq_connect()] *)
Definition _mq_connect (b : B) : ConnectResult * B := connect b.

(** [for _ in range(n): try: basic_publish; break / except: reconnect] *)
Fixpoint send_loop (n : nat) (body : list Byte.byte) (b : B)
    (steps : list Step) : Sent B :=
  match n with
  | O => Returned b steps
  | S n' =>
      let '(r, b1) := basic_publish body b in
      match r with
      | Published => Returned b1 (steps ++ [Attempt r])
      | PublishFailed => Raised PublishError b1 (steps ++ [Attempt r])
      | ConnectionWrongStateError | StreamLostError =>
          let '(c, b2) := _mq_connect b1 in
          match c with
          | Connected =>
              send_loop n' body b2 (steps ++ [Attempt r; Reconnect c])
          | ConnectFailed =>
              Raised ConnectError b2 (steps ++ [Attempt r; Reconnect c])
          end
      end
  end.

Definition _send (message : Payload) (b : B) : Sent B :=
  match message with
  | NotBytes => Raised ValueError b []
  | Bytes body => send_loop 3 body b []
  end.
End Send.

Definition steps_of {B} (r : Sent B) : list Step :=
  match r with Returned _ t | Raised _ _ t => t end.

Definition is_attempt (x : Step) : bool :=
  match x with Attempt _ => true | Reconnect _ => false end.

Definition attempts (t : list Step) : nat :=
  length (List.filter is_attempt t).

Definition reconnects (t : list Step) : nat :=
  length (List.filter (fun x => negb (is_attempt x)) t).

#[global] Instance PublishResult_eq_dec : EqDecision PublishResult.
Proof. solve_decision. Defined.
#[global] Instance ConnectResult_eq_dec : EqDecision ConnectResult.
Proof. solve_decision. Defined.
#[global] Instance Step_eq_dec : EqDecision Step.
Proof. solve_decision. Defined.

Definition delivered (t : list Step) : bool :=
  bool_decide (Attempt Published ∈ t).

(** A connection-state error: a class [_send] catches. *)
Definition connection_error (r : PublishResult) : Prop :=
  r = ConnectionWrongStateError ∨ r = StreamLostError.

(** A scripted broker: the results of the coming publishes and connects. *)
Record Tape := mkTape {
  publishes : list PublishResult;
  connects : list ConnectResult;
}.

#[global] Instance Tape_broker : Broker Tape := {|
  basic_publish _ b :=
    match publishes b with
    | r :: t => (r, mkTape t (connects b))
    | [] => (Published, b)
    end;
  connect b :=
    match connects b with
    | c :: t => (c, mkTape (publishes b) t)
    | [] => (Connected, b)
    end;
|}.

End Publisher.

Section Growth.
Context {W : Type}.
Variable cfg : Config.

(** What no part of the engine but the generator undoes: the number of
    tiers stays, the explicit queue and the trace only grow, and with a
    step that is not positive the cursor stays. *)
Definition grows (s s' : Crawler W) : Prop :=
  length (skipped s') = length (skipped s) ∧
  (∃ A, urls s' = urls s ++ A) ∧
  (∃ T, trace s' = trace s ++ T) ∧
  ((direction cfg ≤ 0)%Z → id s' = id s).

Definition anywhere (s : Crawler W) : Prop := True.
End Growth.

Section Counting.
Context {W : Type}.

(** The state [s] after [n] turns in a row without submission that began
    in [s0] with the counter at 0: the counter is [n], no drain pass is in
    progress, and tier 0 holds entries it held in [s0] followed by at
    most [n] entries pushed since. *)
Definition counted (n : nat) (s0 s : Crawler W) : Prop :=
  consecutiveNoSubmissions s = Z.of_nat n ∧
  checkingSkips s = false ∧
  skipped s ≠ [] ∧
  ∃ T P, default [] (skipped s !! 0) = T ++ P ∧
         T `prefix_of` default [] (skipped s0 !! 0) ∧
         length P ≤ n.

(** The state after the idle backoff that was triggered in [s1] by the
    last of a run of empty turns that began in [s0]. *)
Definition backed_off (cfg : Config) (s0 s1 s' : Crawler W) : Prop :=
  id s' = (id s1 - skipMax cfg * direction cfg)%Z ∧
  consecutiveNoSubmissions s' = 0%Z ∧
  default [] (skipped s' !! 0) `prefix_of` default [] (skipped s0 !! 0).

Definition never_true {A} (m : M W A) (f : A → PyRet) : Prop :=
  ∀ s a s', m s = Ret a s' → f a ≠ PyTrue.
End Counting.

(** ** Concrete engines and worlds *)

Module Examples.

(** Forward from 100, step +1, the default [skipMax] and three tiers. *)
Definition forward : Config := mkConfig 100 1 15 3 None false.

(** Forward from 100 to 200, step +1, [skipMax] 2, three tiers. *)
Definition bounded : Config := mkConfig 100 1 2 3 (Some 200%Z) false.

(** Backward from 100 to 90, step -1. *)
Definition backward : Config := mkConfig 100 (-1) 15 3 (Some 90%Z) true.

Definition script (outcomes : list Outcome) (checks : list bool) : Script :=
  mkScript outcomes checks false.

(** Target 100 answers with a 503. *)
Definition unavailable : Crawler Script :=
  init forward [] (script [Failed (ResponseNotOk 503)] []).

(** Target 100 answers with a status in no bucket of the table. *)
Definition redirected : Crawler Script :=
  init forward [] (script [Failed (ResponseNotOk 302)] []).

(** Target 100 has no content; the periodic check is due and finds a 503;
    re-queued, target 100 answers with a 404. *)
Definition flaky : Crawler Script :=
  init forward []
    (script [Failed NoSubmission; Failed (ResponseNotOk 503);
             Failed (ResponseNotOk 404)] [true; false]).

(** Target 100 has no content; the periodic check is due and finds a 503;
    re-queued, target 100 has no content again. *)
Definition stalled : Crawler Script :=
  init bounded []
    (script [Failed NoSubmission; Failed (ResponseNotOk 503);
             Failed NoSubmission] [true]).

(** Targets 100 and 101 have no content. *)
Definition ahead : Crawler Script :=
  init bounded [] (script [Failed NoSubmission; Failed NoSubmission] []).

(** Scenario B: target 101 answers with a 503 once. *)
Definition scenario_B : Crawler Script :=
  init forward [] (script [Done 0; Failed (ResponseNotOk 503)] []).

(** Backward, the first target has no content. *)
Definition historical : Crawler Script :=
  init backward [] (script [Failed NoSubmission] []).

(** Two explicit targets; the first answers with a 503 once. *)
Definition listed : Crawler Script :=
  init forward [Url "a"; Url "b"] (script [Failed (ResponseNotOk 503)] []).

(** A drain pass is about to start with entries in tiers 0 and 2; the
    entry of tier 0 fails again. *)
Definition pending_retries : Crawler Script :=
  set_skipped [[Id 7; Id 8]; []; [Id 3]]
    (init forward [] (script [Done 0; Failed (ResponseNotOk 404)] [])).

(** A drain pass is in progress; the entry popped next fails again. *)
Definition draining : Crawler Script :=
  set_checkingSkips true
    (set_skipped [[Id 7; Id 8]; []; [Id 3]]
       (init forward [] (script [Failed (ResponseNotOk 404)] []))).

(** The state [n] turns of the loop lead to. *)
Definition after (cfg : Config) (n : nat) (s : Crawler Script)
    : GenPC * Crawler Script :=
  match turns cfg n GNew s with
  | Ret r s' => (r.2, s')
  | _ => (GNew, s)
  end.

Import Publisher.

Definition twice_then_ok : Tape :=
  mkTape [StreamLostError; StreamLostError; Published] [].

Definition never_ok : Tape :=
  mkTape [StreamLostError; ConnectionWrongStateError; StreamLostError] [].

Definition broker_down : Tape := mkTape [StreamLostError] [ConnectFailed].

End Examples.

(** ** Exceptions told apart, and the shape of a drain pass *)

Section Exceptions.
Context {W : Type}.

(** [m] run from [s] ends: it returns where [Q] holds or raises an
    exception [e] where [E e] holds. *)
Definition wpx {A} (m : M W A) (s : Crawler W) (Q : A → Crawler W → Prop)
    (E : Exn → Crawler W → Prop) : Prop :=
  match m s with
  | Ret a s' => Q a s'
  | Raise e s' => E e s'
  | Diverge => False
  end.

(** The tiers [l'] a drain pass leaves of the tiers [l]: tier 0 is empty
    and tier [i+1] holds entries tier [i] held, in the order the pass
    popped them. *)
Definition shifted (l l' : list (list Target)) : Prop :=
  length l' = length l ∧
  ∀ j t', l' !! j = Some t' →
    match j with
    | O => t' = []
    | S i => ∃ t, l !! i = Some t ∧ t' `sublist_of` reverse t
    end.

(** The tiers [l] in the middle of a drain pass that started from [l0]
    and has tiers [0 .. k-1] left to drain. *)
Definition staged (k : nat) (l0 l : list (list Target)) : Prop :=
  length l = length l0 ∧
  (∀ j, j < k → l !! j = l0 !! j) ∧
  (k < length l0 → l !! k = Some []) ∧
  (∀ j t', k < j → l !! j = Some t' →
     ∃ t, l0 !! (j - 1) = Some t ∧ t' `sublist_of` reverse t).

(** [sum(len(i) for i in l)] *)
Definition total (l : list (list Target)) : nat := length (concat l).

(** The tiers [0 .. k-1] are empty. *)
Definition empty_below (k : nat) (l : list (list Target)) : Prop :=
  ∀ j t, j < k → l !! j = Some t → t = [].
End Exceptions.

(** ** The generator and the queue it pops *)

Section GeneratorInvariant.
Context {W : Type}.

(** The for loop of [urlGenerator] has at most as many turns left as the
    explicit queue has entries. *)
Definition in_range (pc : GenPC) (s : Crawler W) : Prop :=
  match pc with
  | GRequeue n => n ≤ length (urls s)
  | _ => True
  end.

(** The generator is, or is about to be, in its while loop. *)
Definition in_cursor_loop (pc : GenPC) (s : Crawler W) : Prop :=
  match pc with
  | GNew => urls s = []
  | GCursor => True
  | GRequeue n => n ≤ length (urls s)
  | GExplicit | GDone => False
  end.
End GeneratorInvariant.

(** A world without cancellation event: the constructor was given no
    [event], so [is_set] is [lambda : False].  The outcomes of the coming
    try blocks are scripted; past the end of the script every try block
    succeeds; no periodic check is due. *)
#[global] Instance Unattended_env : Env (list Outcome) := {|
  attempt _ w :=
    match w with
    | o :: t => (o, t)
    | [] => (Done 0, [])
    end;
  is_set _ := false;
  check_due w := (false, w);
|}.

(** ** [First]: the first entry of an iterable that a method accepts *)

(** What a call of [self.method] on an entry does: it returns a value that
    is true or false, or raises.  [RaisesTypeError] and
    [RaisesStopIteration] stand for an exception the clause
    [except (TypeError, StopIteration)] catches, an instance of the class
    or of a subclass of it; [RaisesOther] for any exception it does not
    catch. *)
Inductive Answer :=
  | Truthy
  | Falsy
  | RaisesTypeError
  | RaisesStopIteration
  | RaisesOther (class : string).

(** How [First.__call__] ends: it returns an entry, returns [None], or lets
    an exception out. *)
Inductive FirstResult (A : Type) :=
  | Found (x : A)
  | NoneReturned
  | Propagated (class : string).

Arguments Found {A}.
Arguments NoneReturned {A}.
Arguments Propagated {A}.

Section First.
Context {A : Type}.

(** [next(filter(self.method, it))] on the entries of [it] in order, inside
    [try: ... except (TypeError, StopIteration): return None].  [filter]
    calls the method on an entry only when every entry before it was
    refused.  Running out of entries raises [StopIteration]; that one, and
    a [TypeError] or a [StopIteration] raised by the method, is caught. *)
Fixpoint First_next (method : A → Answer) (l : list A) : FirstResult A :=
  match l with
  | [] => NoneReturned
  | x :: l' =>
      match method x with
      | Truthy => Found x
      | Falsy => First_next method l'
      | RaisesTypeError | RaisesStopIteration => NoneReturned
      | RaisesOther c => Propagated c
      end
  end.

(** [First(method)(it)].  [it] is [None] for an argument that is not
    iterable: [filter] raises [TypeError], which is caught. *)
Definition First_call (method : A → Answer) (it : option (list A))
    : FirstResult A :=
  match it with
  | None => NoneReturned
  | Some l => First_next method l
  end.

(** The method [First()] is built with when none is given,
    [lambda i : i], for entries whose truth value is [truth]. *)
Definition identity_method (truth : A → bool) (x : A) : Answer :=
  if truth x then Truthy else Falsy.

(** [first = First()] *)
Definition first (truth : A → bool) (it : option (list A)) : FirstResult A :=
  First_call (identity_method truth) it.
End First.

(** ** More engines and worlds *)

Module Scenarios.
Import Examples.

(** A drain pass is about to start with entries in tiers 0 and 2; the
    entry of tier 2 succeeds, the first entry popped from tier 0 is
    answered by a malformed response. *)
Definition broken : Crawler Script :=
  set_skipped [[Id 7; Id 8]; []; [Id 3]]
    (init forward [] (script [Done 0; Failed BadOrMalformedResponse] [])).

(** Target 100 times out. *)
Definition slow : Crawler Script :=
  init forward [] (script [Failed ReadTimeout] []).

(** Going forward, target 100 has no content. *)
Definition empty_once : Crawler Script :=
  init forward [] (script [Failed NoSubmission] []).

(** Target 100 is answered by a malformed response. *)
Definition malformed : Crawler Script :=
  init forward [] (script [Failed BadOrMalformedResponse] []).

(** From 100 with step 0 and an ending id of 90. *)
Definition still : Config := mkConfig 100 0 15 3 (Some 90%Z) false.

Definition standing : Crawler Script := init still [] (script [] []).

(** Forward from 100 without ending id, built without event. *)
Definition unattended : Crawler (list Outcome) := init forward [] [].

(** The second target in a row without content, with [skipMax] 2. *)
Definition second_empty : Crawler Script :=
  set_id 101 (after bounded 1 ahead).2.

(** With [skipMax] 2 and forward from 100: target 100 has no content,
    101 answers with a 404, 102 has no content; the drain pass that
    follows retries 100, which succeeds; then target 101 has no
    content. *)
Definition interleaved : Crawler Script :=
  init bounded []
    (script [Failed NoSubmission; Failed (ResponseNotOk 404);
             Failed NoSubmission; Done 0; Failed NoSubmission] []).
End Scenarios.

Section LogicFacts.
Context {W : Type}.
Implicit Type s : Crawler W.

Lemma wp_bind {A B} (m : M W A) (k : A → M W B) s Q E :
  wp m s (fun a s' => wp (k a) s' Q E) E → wp (let* a := m in k a) s Q E.
Proof. unfold wp, bind. by destruct (m s). Qed.

Lemma wp_mono {A} (m : M W A) s (Q Q' : A → Crawler W → Prop)
    (E E' : Crawler W → Prop) :
  wp m s Q E → (∀ a s', Q a s' → Q' a s') → (∀ s', E s' → E' s') →
  wp m s Q' E'.
Proof. unfold wp. destruct (m s); eauto. Qed.

Lemma wp_Ret {A} (m : M W A) s a s' (Q : A → Crawler W → Prop) E :
  m s = Ret a s' → wp m s Q E → Q a s'.
Proof. unfold wp. by intros ->. Qed.

Lemma wp_final {A} (m : M W A) s (P : Crawler W → Prop) :
  wp m s (fun _ => P) P ↔ ∃ s', final (m s) = Some s' ∧ P s'.
Proof.
  unfold wp, final. destruct (m s) as [a s'|e s'|].
  - split; [eauto|]. by intros (? & [= <-] & ?).
  - split; [eauto|]. by intros (? & [= <-] & ?).
  - split; [done|]. by intros (? & ? & ?).
Qed.

Section Keeps.
Context (P : Crawler W → Prop) (R : relation (Crawler W)) `{!PreOrder R}.

Lemma keeps_ret {A} (a : A) : keeps P R (ret a).
Proof. intros s HP. by cbn. Qed.

Lemma keeps_raise {A} e : keeps P R (raise e : M W A).
Proof. intros s HP. by cbn. Qed.

Lemma keeps_bind {A B} (m : M W A) (k : A → M W B) :
  keeps P R m → (∀ a, keeps P R (k a)) → keeps P R (let* a := m in k a).
Proof.
  intros Hm Hk s HP. apply wp_bind. eapply wp_mono; [by apply Hm| |done].
  intros a s' [HR HP']; cbn. eapply wp_mono; [by apply Hk| |]; cbn.
  - intros b s'' [HR' HP'']. split; [by etrans|done].
  - intros s'' [HR' HP'']. split; [by etrans|done].
Qed.

Lemma keeps_get {B} (k : Crawler W → M W B) :
  (∀ s, P s → wp (k s) s (fun _ s' => R s s' ∧ P s') (fun s' => R s s' ∧ P s')) →
  keeps P R (let* x := get in k x).
Proof. intros Hk s HP. by apply Hk. Qed.

Lemma keeps_read {B} (k : Crawler W → M W B) :
  (∀ s0, P s0 → keeps P R (k s0)) → keeps P R (let* x := get in k x).
Proof. intros Hk s HP. by apply (Hk s HP s HP). Qed.

Lemma keeps_modify f :
  (∀ s, P s → R s (f s) ∧ P (f s)) → keeps P R (modify f).
Proof. intros Hf s HP. cbn. by apply Hf. Qed.

Lemma keeps_if {A} (b : bool) (m1 m2 : M W A) :
  keeps P R m1 → keeps P R m2 → keeps P R (if b then m1 else m2).
Proof. by destruct b. Qed.
End Keeps.

Lemma fetched_app t1 t2 : fetched (t1 ++ t2) = fetched t1 ++ fetched t2.
Proof. apply omap_app. Qed.

#[global] Instance quiet_preorder : PreOrder (@quiet W).
Proof.
  split.
  - intros s. unfold quiet. split_and!; try done.
    + exists []. by rewrite app_nil_r.
    + exists []. by rewrite app_nil_r.
  - intros s1 s2 s3 (H1 & H2 & H3 & [A1 HA1] & [T1 [HT1 F1]])
      (H1' & H2' & H3' & [A2 HA2] & [T2 [HT2 F2]]).
    unfold quiet. split_and!; try congruence.
    + exists (A1 ++ A2). rewrite HA2, HA1. by rewrite app_assoc.
    + exists (T1 ++ T2). rewrite HT2, HT1, fetched_app, F1, F2.
      by rewrite app_assoc.
Qed.

#[global] Instance drained_preorder : PreOrder (@drained W).
Proof.
  split.
  - intros s. unfold drained. split_and!; try done.
    + exists []. by rewrite app_nil_r.
    + exists []. by rewrite app_nil_r.
  - intros s1 s2 s3 (H1 & H2 & H3 & H4 & H5 & [A1 HA1] & [T1 HT1])
      (H1' & H2' & H3' & H4' & H5' & [A2 HA2] & [T2 HT2]).
    unfold drained. split_and!; try congruence.
    + by etrans.
    + by etrans.
    + exists (A1 ++ A2). rewrite HA2, HA1. by rewrite app_assoc.
    + exists (T1 ++ T2). rewrite HT2, HT1. by rewrite app_assoc.
Qed.
End LogicFacts.

Tactic Notation "kstep" uconstr(lem) := eapply lem; try exact _.

Section EngineFacts.
Context {W : Type} `{!Env W}.
Variable cfg : Config.
Implicit Type s : Crawler W.
Implicit Type idle : M W unit.

Lemma pop_last_snoc {A} (l : list A) x : pop_last (l ++ [x]) = Some (x, l).
Proof. unfold pop_last. rewrite reverse_snoc. by rewrite reverse_involutive. Qed.

Lemma pop_last_Some {A} (l r : list A) x :
  pop_last l = Some (x, r) → l = r ++ [x].
Proof.
  unfold pop_last. destruct (reverse l) as [|y t] eqn:E; [done|].
  intros [= -> <-]. rewrite <- (reverse_involutive l), E. by rewrite reverse_cons.
Qed.

Lemma pop_last_None {A} (l : list A) : pop_last l = None → l = [].
Proof.
  unfold pop_last. destruct (reverse l) eqn:E; [|done].
  intros _. by rewrite <- (reverse_involutive l), E.
Qed.

(** *** A crawl during a drain pass *)

Lemma emit_quiet e :
  fetched [e] = [] → keeps checking quiet (emit e : M W unit).
Proof.
  intros He. apply keeps_modify. intros s Hs. split; [|done].
  unfold quiet; cbn. split_and!; try done.
  - exists []. by rewrite app_nil_r.
  - by exists [e].
Qed.

Lemma append_urls_quiet u : keeps checking quiet (append_urls u : M W unit).
Proof.
  apply keeps_modify. intros s Hs. split; [|done].
  unfold quiet; cbn. split_and!; try done.
  - by exists [u].
  - exists []. by rewrite app_nil_r.
Qed.

Lemma skipUrl_quiet (func : option (M W unit)) :
  (∀ f, func = Some f → keeps checking quiet f) →
  keeps checking quiet (skipUrl func).
Proof.
  intros Hf. unfold skipUrl. kstep keeps_get. intros s Hs.
  rewrite Hs. revert s Hs. kstep keeps_bind; [kstep keeps_ret|].
  intros _. destruct func as [f|]; [|kstep keeps_ret].
  kstep keeps_bind; [by apply Hf|]. intros _. kstep keeps_ret.
Qed.

Lemma responseNotOkHandlers_quiet code (h : M W PyRet) :
  responseNotOkHandlers code = Some h → keeps checking quiet h.
Proof.
  unfold responseNotOkHandlers. repeat case_match; intros [= <-];
    apply skipUrl_quiet; intros f [= <-]; by apply emit_quiet.
Qed.

Lemma noSubmissionHandler_checking idle s :
  checking s → noSubmissionHandler cfg idle s = Ret PyTrue s.
Proof.
  intros Hs. unfold noSubmissionHandler, bind, get. rewrite Hs.
  by rewrite andb_false_r.
Qed.

Lemma errorHandlers_quiet idle e :
  keeps checking quiet (errorHandlers cfg idle e).
Proof.
  destruct e; cbn [errorHandlers].
  - kstep keeps_raise.
  - apply skipUrl_quiet. intros f [= <-]. by apply emit_quiet.
  - destruct (responseNotOkHandlers _) eqn:E;
      [by eapply responseNotOkHandlers_quiet|kstep keeps_raise].
  - by apply skipUrl_quiet.
  - apply skipUrl_quiet. intros f [= <-]. by apply emit_quiet.
  - intros s Hs. unfold wp. rewrite noSubmissionHandler_checking by done.
    split; [reflexivity|done].
  - kstep keeps_ret.
  - by apply skipUrl_quiet.
  - apply skipUrl_quiet. intros f [= <-]. by apply emit_quiet.
  - kstep keeps_bind; [|intros; kstep keeps_raise].
    apply keeps_modify. intros s Hs. case_bool_decide; [done|].
    split; [|done]. unfold quiet; cbn. split_and!; try done;
      exists []; by rewrite app_nil_r.
Qed.

Lemma crawl_on_quiet idle o u : keeps checking quiet (crawl_on cfg idle o u).
Proof.
  assert (∀ A (a : A), keeps checking quiet (ret a : M W A)) as Hret
    by (intros; kstep keeps_ret).
  assert (∀ e, keeps checking quiet
      (let* s := get in
       (if in_doNotLog e then ret ()
        else if in_errorHandlers e s then log Info Logdata
             else log Error Logdata);; errorHandlers cfg idle e)) as Hgen.
  { intros e. kstep keeps_get. intros s Hs.
    destruct (in_doNotLog e); [|destruct (in_errorHandlers e s)];
      revert s Hs;
      (kstep keeps_bind; [|intros; apply errorHandlers_quiet]);
      first [done | by apply emit_quiet]. }
  destruct o as [p|e]; cbn [crawl_on].
  - kstep keeps_bind; [|intros _].
    + apply keeps_modify. intros s Hs. split; [|done].
      unfold quiet; cbn. split_and!; try done; exists []; by rewrite app_nil_r.
    + kstep keeps_bind; [|done].
      apply keeps_if; [by apply emit_quiet|done].
  - destruct e; try apply Hgen.
    repeat apply keeps_if.
    + kstep keeps_bind; [apply append_urls_quiet|intros _].
      kstep keeps_bind; [by apply emit_quiet|done].
    + kstep keeps_bind; [apply append_urls_quiet|done].
    + destruct (responseNotOkHandlers _) eqn:E; [|done].
      kstep keeps_bind; [by eapply responseNotOkHandlers_quiet|done].
Qed.
End EngineFacts.

Section DrainFacts.
Context {W : Type} `{!Env W}.
Variable cfg : Config.
Implicit Type s : Crawler W.
Implicit Type idle : M W unit.

Lemma crawl_with_eq idle u s :
  crawl_with cfg idle u s =
  crawl_on cfg idle (attempt u (world s)).1 u
    (begun u (attempt u (world s)).2 s).
Proof.
  unfold crawl_with, bind, modify, emit, begun; cbn.
  by destruct (attempt u (world s)).
Qed.

Lemma crawl_with_safe idle : drain_safe (crawl_with cfg idle).
Proof.
  intros u s Hs. unfold wp. rewrite crawl_with_eq.
  set (o := (attempt u (world s)).1). set (w := (attempt u (world s)).2).
  pose proof (crawl_on_quiet cfg idle o u (begun u w s) Hs) as H.
  unfold wp in H.
  assert (∀ s', quiet (begun u w s) s' ∧ checking s' → attempted u s s') as Hq.
  { intros s' ((H1 & H2 & H3 & [A HA] & [T [HT HF]]) & Hc).
    unfold attempted. split_and!; try done.
    - by exists A.
    - exists T. split; [|done]. rewrite HT. cbn. by rewrite <- app_assoc. }
  destruct (crawl_on _ _ _ _ _); auto.
Qed.

Lemma crawl_checking_any idle idle' u s :
  checking s → crawl_with cfg idle u s = crawl_with cfg idle' u s.
Proof.
  intros Hs. rewrite !crawl_with_eq.
  destruct (attempt u (world s)) as [o w]; cbn.
  destruct o as [p|e]; [done|]. destruct e; try done.
  unfold crawl_on, bind, get, ret. cbn [in_doNotLog errorHandlers].
  by rewrite !noSubmissionHandler_checking.
Qed.

Lemma insert_middle {A} (l1 l2 : list A) x y :
  <[length l1 := y]> (l1 ++ x :: l2) = l1 ++ y :: l2.
Proof. rewrite insert_app_r_alt by lia. by rewrite Nat.sub_diag. Qed.

Lemma drain_one_wp crawl maxlen l1 l2 u rest s :
  drain_safe crawl → checking s →
  skipped s = l1 ++ (rest ++ [u]) :: l2 →
  wp (drain_one crawl maxlen (length l1) u rest) s
    (fun _ s' => popped l1 rest u l2 s s') (fun s' => popped l1 rest u l2 s s').
Proof.
  intros Hcrawl Hs Hl. unfold drain_one. apply wp_bind. unfold modify at 1, wp at 1.
  rewrite Hl, insert_middle.
  set (s1 := set_skipped _ s).
  apply wp_bind. eapply wp_mono; [apply (Hcrawl u s1); done| |].
  - intros r s2 (Hc & Hsk & Hid & Hn & HA & HT). cbn in Hsk, Hid, Hn, HA, HT.
    assert (popped l1 rest u l2 s s2) as Hdone.
    { unfold popped. split_and!; try done. by left. }
    destruct (truthy r); [done|].
    destruct (Z.of_nat (length l1) <? maxlen)%Z; [|done].
    unfold wp, append_tier. rewrite Hsk.
    replace (S (length l1)) with (length l1 + 1) by lia.
    rewrite lookup_app_r, Nat.add_comm, Nat.add_sub by lia. cbn.
    destruct l2 as [|t2 l3]; cbn; [done|].
    unfold popped; cbn. split_and!; try done. right. exists t2, l3.
    split; [done|].
    rewrite (insert_app_r_alt l1) by lia.
    by replace (S (length l1) - length l1) with 1 by lia.
  - intros s2 (Hc & Hsk & Hid & Hn & HA & HT). cbn in Hsk, Hid, Hn, HA, HT.
    unfold popped. split_and!; try done. by left.
Qed.

Lemma fetched_Fetch u T : fetched T = [] → fetched (Fetch u :: T) = [u].
Proof. intros H. unfold fetched in *. cbn. by rewrite H. Qed.

Lemma pending_middle (l1 l2 : list (list Target)) t s :
  skipped s = l1 ++ t :: l2 →
  pending (S (length l1)) s = reverse t ++ reverse (concat l1).
Proof.
  intros Hl. unfold pending. rewrite Hl.
  rewrite (take_S_r _ _ t) by apply list_lookup_middle, eq_refl.
  rewrite take_app_length, concat_app, reverse_app. cbn.
  by rewrite app_nil_r.
Qed.

Lemma popped_progress l1 rest u l2 s s' :
  skipped s = l1 ++ (rest ++ [u]) :: l2 →
  popped l1 rest u l2 s s' →
  progress (S (length l1)) s s' ∧ skipped s' !! length l1 = Some rest.
Proof.
  intros Hl (Hc & Hid & Hn & HA & [T [HT HF]] & Hsk).
  assert (∃ l2', skipped s' = l1 ++ rest :: l2' ∧ length l2' = length l2 ∧
    concat (rest :: l2') ⊆+ concat ((rest ++ [u]) :: l2)) as (l2' & Hl' & Hlen & Hsub).
  { destruct Hsk as [Hsk|(t2 & l3 & -> & Hsk)].
    - exists l2. split_and!; try done. cbn. solve_submseteq.
    - exists ((t2 ++ [u]) :: l3). split_and!; try done. cbn.
      apply Permutation_submseteq. solve_Permutation. }
  split; [|by rewrite Hl'; apply list_lookup_middle].
  unfold progress, drained. split_and!; try done.
  - rewrite Hl, Hl', !length_app. cbn. lia.
  - rewrite Hl, Hl', !concat_app. by apply submseteq_app.
  - rewrite Hl, Hl'. destruct l1; cbn; [by apply prefix_app_r|done].
  - exists (Fetch u :: T). done.
  - rewrite (pending_middle l1 l2' rest) by done.
    rewrite (pending_middle l1 l2 (rest ++ [u])) by done.
    rewrite HT, fetched_app, fetched_Fetch, reverse_snoc by done.
    by rewrite <- !app_assoc.
Qed.

Lemma progress_refl k s : checking s → progress k s s.
Proof. intros Hs. by split_and!. Qed.

Lemma progress_trans k s1 s2 s3 :
  progress k s1 s2 → progress k s2 s3 → progress k s1 s3.
Proof.
  intros (H1 & _ & H1') (H2 & Hc & H2'). split_and!; [by etrans|done|congruence].
Qed.

Lemma drain_tier_wp crawl maxlen :
  drain_safe crawl →
  ∀ fuel i s t,
    checking s → skipped s !! i = Some t → length t ≤ fuel →
    wp (drain_tier fuel crawl maxlen i) s
      (fun _ s' => progress (S i) s s' ∧ skipped s' !! i = Some [])
      (fun s' => progress (S i) s s').
Proof.
  intros Hcrawl. induction fuel as [|fuel IH]; intros i s t Hs Hi Hlen.
  - destruct t; [|cbn in Hlen; lia]. unfold wp; cbn. rewrite Hi. cbn.
    split; [by apply progress_refl|done].
  - unfold wp; cbn. rewrite Hi. destruct (pop_last t) as [[u rest]|] eqn:Hp.
    + apply pop_last_Some in Hp as ->.
      apply list_elem_of_split_length in Hi as (l1 & l2 & Hl & ->).
      fold (wp (drain_one crawl maxlen (length l1) u rest;;
                drain_tier fuel crawl maxlen (length l1)) s
              (fun _ s' => progress (S (length l1)) s s' ∧
                           skipped s' !! length l1 = Some [])
              (fun s' => progress (S (length l1)) s s')).
      apply wp_bind. eapply wp_mono; [by apply drain_one_wp| |].
      * intros [] s1 Hpop. cbn beta in Hpop. assert (checking s1) as Hc1 by apply Hpop.
        apply popped_progress in Hpop as [Hpr Hrest]; [|done].
        rewrite length_app in Hlen. cbn in Hlen.
        eapply wp_mono; [apply (IH _ s1 rest); [done..|lia]| |]; cbn.
        -- intros [] s2 [Hpr2 Hnil]. split; [|done]. by eapply progress_trans.
        -- intros s2 Hpr2. by eapply progress_trans.
      * intros s1 Hpop. by apply popped_progress in Hpop as [Hpr _].
    + apply pop_last_None in Hp as ->. split; [by apply progress_refl|done].
Qed.

Lemma pending_S_nil k s :
  skipped s !! k = Some [] → pending (S k) s = pending k s.
Proof.
  intros Hk. unfold pending. rewrite (take_S_r _ _ []) by done.
  rewrite concat_app. cbn. by rewrite app_nil_r.
Qed.

Lemma drain_tiers_wp crawl maxlen :
  drain_safe crawl →
  ∀ k s,
    checking s → k ≤ length (skipped s) →
    wp (for_each (reverse (seq 0 k))
          (fun i s => drain_tier (length (default [] (skipped s !! i)))
                        crawl maxlen i s)) s
      (fun _ s' => drained s s' ∧ checking s' ∧
                   fetched (trace s') = fetched (trace s) ++ pending k s ∧
                   (0 < k → skipped s' !! 0 = Some []))
      (fun s' => drained s s' ∧ checking s' ∧
                 ∃ X, fetched (trace s') ++ X = fetched (trace s) ++ pending k s).
Proof.
  intros Hcrawl. induction k as [|k IH]; intros s Hs Hk.
  - unfold wp; cbn. split_and!; [done|done| |lia].
    unfold pending. cbn. by rewrite app_nil_r.
  - rewrite seq_S, reverse_snoc. cbn [for_each plus].
    destruct (lookup_lt_is_Some_2 (skipped s) k) as [t Ht]; [lia|].
    apply wp_bind. unfold wp at 1.
    pose proof (drain_tier_wp crawl maxlen Hcrawl (length t) k s t Hs Ht
                  (le_n _)) as Hd.
    unfold wp at 1 in Hd. rewrite Ht. cbn [default].
    destruct (drain_tier _ _ _ _ _) as [[] s1|e s1|]; [| |done].
    + destruct Hd as [(Hdr & Hc1 & Hf) Hnil].
      assert (length (skipped s1) = length (skipped s)) as Hlen by apply Hdr.
      eapply wp_mono; [apply (IH s1); [done|lia]| |]; cbn.
      * intros [] s2 (Hdr2 & Hc2 & Hf2 & H0). split_and!; [by etrans|done| |].
        -- rewrite Hf2, <- (pending_S_nil k s1) by done.
           by rewrite Hf.
        -- intros _. destruct k; [|apply H0; lia].
           destruct Hdr2 as (_ & _ & Hlen2 & _ & Hpre & _).
           rewrite Hnil in Hpre. cbn in Hpre.
           destruct (skipped s2 !! 0) as [t0|] eqn:E0.
           ++ cbn in Hpre. by apply prefix_nil_inv in Hpre as ->.
           ++ apply lookup_ge_None in E0. lia.
      * intros s2 (Hdr2 & Hc2 & X & HX). split_and!; [by etrans|done|].
        exists X. rewrite HX, <- (pending_S_nil k s1) by done. by rewrite Hf.
    + destruct Hd as (Hdr & Hc1 & Hf). split_and!; [done..|].
      by exists (pending (S k) s1).
Qed.

Lemma pending_all s : pending (length (skipped s)) s = reverse (concat (skipped s)).
Proof. unfold pending. by rewrite firstn_all. Qed.

Lemma drained_set_checkingSkips b s : drained s (set_checkingSkips b s).
Proof.
  unfold drained; cbn. split_and!; try done; exists []; by rewrite app_nil_r.
Qed.

(** A whole drain pass: it ends; every entry the tiers held is tried
    once, the last tier first and each tier from its end; tier 0 is left
    empty. *)
Lemma checkSkips_with_wp crawl s :
  drain_safe crawl →
  wp (checkSkips_with crawl) s
    (fun _ s' => drained s s' ∧ checkingSkips s' = false ∧
                 fetched (trace s') =
                   fetched (trace s) ++ reverse (concat (skipped s)) ∧
                 (skipped s ≠ [] → skipped s' !! 0 = Some []))
    (fun s' => drained s s' ∧ checking s' ∧
               ∃ X, fetched (trace s') ++ X =
                      fetched (trace s) ++ reverse (concat (skipped s))).
Proof.
  intros Hcrawl. unfold checkSkips_with.
  apply wp_bind. unfold wp at 1, modify. apply wp_bind. unfold wp at 1, get.
  apply wp_bind. set (s1 := set_checkingSkips true s).
  change (skipped s1) with (skipped s).
  eapply wp_mono;
    [apply (drain_tiers_wp crawl _ Hcrawl (length (skipped s)) s1); done| |];
    cbn beta.
  - intros [] s2 (Hdr & Hc & Hf & H0). unfold wp, modify.
    split; [|split; [done|split]].
    + etrans; [|apply drained_set_checkingSkips].
      etrans; [apply (drained_set_checkingSkips true)|done].
    + change (trace (set_checkingSkips false s2)) with (trace s2).
      rewrite Hf. change (trace s1) with (trace s).
      by rewrite <- pending_all.
    + intros Hne. change (skipped (set_checkingSkips false s2)) with (skipped s2).
      apply H0. destruct (skipped s); [done|cbn; lia].
  - intros s2 (Hdr & Hc & X & HX). split; [|split; [done|]].
    + etrans; [apply (drained_set_checkingSkips true)|done].
    + exists X. rewrite HX. change (trace s1) with (trace s).
      by rewrite <- pending_all.
Qed.
End DrainFacts.

Section GrowthFacts.
Context {W : Type} `{!Env W}.
Variable cfg : Config.
Implicit Type s : Crawler W.
Implicit Type idle : M W unit.

#[global] Instance grows_preorder : PreOrder (@grows W cfg).
Proof.
  split.
  - intros s. unfold grows. split_and!; try done;
      exists []; by rewrite app_nil_r.
  - intros s1 s2 s3 (H1 & [A1 HA1] & [T1 HT1] & Hb1)
      (H2 & [A2 HA2] & [T2 HT2] & Hb2).
    unfold grows. split_and!; [congruence| | |].
    + exists (A1 ++ A2). rewrite HA2, HA1. by rewrite app_assoc.
    + exists (T1 ++ T2). rewrite HT2, HT1. by rewrite app_assoc.
    + intros Hd. rewrite (Hb2 Hd). by apply Hb1.
Qed.

Lemma drained_grows s s' : drained s s' → grows cfg s s'.
Proof. intros (H1 & H2 & H3 & _ & _ & HA & HT). by unfold grows. Qed.

Lemma checkSkips_wp s :
  wp (checkSkips cfg) s
    (fun _ s' => drained s s' ∧ checkingSkips s' = false ∧
                 fetched (trace s') =
                   fetched (trace s) ++ reverse (concat (skipped s)) ∧
                 (skipped s ≠ [] → skipped s' !! 0 = Some []))
    (fun s' => drained s s' ∧ checking s' ∧
               ∃ X, fetched (trace s') ++ X =
                      fetched (trace s) ++ reverse (concat (skipped s))).
Proof. apply checkSkips_with_wp, crawl_with_safe. Qed.

Lemma grows_trace s T : grows cfg s (set_trace (trace s ++ T) s).
Proof.
  unfold grows; cbn. split_and!; try done; [exists []|exists T]; try done.
  by rewrite app_nil_r.
Qed.

Lemma emit_grows e : keeps anywhere (grows cfg) (emit e : M W unit).
Proof. apply keeps_modify. intros s _. split; [apply grows_trace|done]. Qed.

Lemma checkSkips_grows : keeps anywhere (grows cfg) (checkSkips cfg).
Proof.
  intros s _. eapply wp_mono; [apply checkSkips_wp| |]; cbn.
  - intros _ s' (Hd & _). split; [by apply drained_grows|done].
  - intros s' (Hd & _). split; [by apply drained_grows|done].
Qed.

Lemma idle_grows : keeps anywhere (grows cfg) (idle cfg).
Proof.
  unfold idle, idle_with. kstep keeps_bind; [apply checkSkips_grows|].
  intros _. apply emit_grows.
Qed.

Lemma append_urls_grows u : keeps anywhere (grows cfg) (append_urls u : M W unit).
Proof.
  apply keeps_modify. intros s _. split; [|done].
  unfold grows; cbn. split_and!; try done; [by exists [u]|].
  exists []. by rewrite app_nil_r.
Qed.

Lemma grows_skipped s l :
  length l = length (skipped s) → grows cfg s (set_skipped l s).
Proof.
  intros Hl. unfold grows; cbn. split_and!; try done;
    exists []; by rewrite app_nil_r.
Qed.

Lemma append_tier_grows i u : keeps anywhere (grows cfg) (append_tier i u : M W unit).
Proof.
  intros s _. unfold wp, append_tier. destruct (skipped s !! i); [|done].
  split; [|done]. apply grows_skipped. by rewrite length_insert.
Qed.

Lemma skipUrl_grows (func : option (M W unit)) :
  (∀ f, func = Some f → keeps anywhere (grows cfg) f) →
  keeps anywhere (grows cfg) (skipUrl func).
Proof.
  intros Hf. unfold skipUrl. kstep keeps_read. intros s _.
  kstep keeps_bind.
  - destruct (checkingSkips s); [kstep keeps_ret|].
    destruct (url s); [apply append_tier_grows|kstep keeps_ret].
  - intros _. destruct func as [f|]; [|kstep keeps_ret].
    kstep keeps_bind; [by apply Hf|]. intros _. kstep keeps_ret.
Qed.

Lemma responseNotOkHandlers_grows code (h : M W PyRet) :
  responseNotOkHandlers code = Some h → keeps anywhere (grows cfg) h.
Proof.
  unfold responseNotOkHandlers. repeat case_match; intros [= <-];
    apply skipUrl_grows; intros f [= <-]; apply emit_grows.
Qed.

Lemma noSubmissionHandler_grows idle :
  keeps anywhere (grows cfg) idle →
  keeps anywhere (grows cfg) (noSubmissionHandler cfg idle).
Proof.
  intros Hidle. unfold noSubmissionHandler. kstep keeps_read. intros s0 _.
  destruct (0 <? direction cfg)%Z eqn:Hd; [|kstep keeps_ret].
  apply Z.ltb_lt in Hd.
  destruct (negb (checkingSkips s0)); [|kstep keeps_ret]. cbn [andb].
  kstep keeps_bind; [by apply skipUrl_grows|intros _].
  kstep keeps_bind; [|intros _].
  { apply keeps_modify. intros s _. split; [|done].
    unfold grows; cbn.
    split_and!; try done; try (exists []; by rewrite app_nil_r); lia. }
  kstep keeps_read. intros s1 _.
  kstep keeps_bind; [|intros _; kstep keeps_ret].
  destruct (skipMax cfg <=? _)%Z; [|kstep keeps_ret].
  kstep keeps_bind; [|intros _].
  { intros s _. unfold wp. destruct (skipped s) as [|t0 rest] eqn:E; [done|].
    split; [|done]. apply grows_skipped. by rewrite E. }
  kstep keeps_bind; [|intros _].
  { apply keeps_modify. intros s _. split; [|done].
    unfold grows; cbn.
    split_and!; try done; try (exists []; by rewrite app_nil_r); lia. }
  kstep keeps_bind; [apply emit_grows|intros _].
  kstep keeps_bind; [|by intros _].
  apply keeps_modify. intros s _. split; [|done].
  unfold grows; cbn. split_and!; try done; try (exists []; by rewrite app_nil_r).
Qed.

Lemma errorHandlers_grows idle e :
  keeps anywhere (grows cfg) idle →
  keeps anywhere (grows cfg) (errorHandlers cfg idle e).
Proof.
  intros Hidle. destruct e; cbn [errorHandlers].
  - kstep keeps_raise.
  - apply skipUrl_grows. intros f [= <-]. apply emit_grows.
  - destruct (responseNotOkHandlers _) eqn:E;
      [by eapply responseNotOkHandlers_grows|kstep keeps_raise].
  - by apply skipUrl_grows.
  - apply skipUrl_grows. intros f [= <-]. apply emit_grows.
  - by apply noSubmissionHandler_grows.
  - kstep keeps_ret.
  - by apply skipUrl_grows.
  - apply skipUrl_grows. intros f [= <-]. apply emit_grows.
  - kstep keeps_bind; [|intros; kstep keeps_raise].
    apply keeps_modify. intros s _. case_bool_decide; [done|].
    split; [|done]. unfold grows; cbn. split_and!; try done;
      exists []; by rewrite app_nil_r.
Qed.

Lemma crawl_on_grows idle o u :
  keeps anywhere (grows cfg) idle →
  keeps anywhere (grows cfg) (crawl_on cfg idle o u).
Proof.
  intros Hidle.
  assert (∀ A (a : A), keeps anywhere (grows cfg) (ret a : M W A)) as Hret
    by (intros; kstep keeps_ret).
  assert (∀ e, keeps anywhere (grows cfg)
      (let* s := get in
       (if in_doNotLog e then ret ()
        else if in_errorHandlers e s then log Info Logdata
             else log Error Logdata);; errorHandlers cfg idle e)) as Hgen.
  { intros e. kstep keeps_read. intros s _.
    kstep keeps_bind; [|intros; by apply errorHandlers_grows].
    repeat apply keeps_if; try done; apply emit_grows. }
  destruct o as [p|e]; cbn [crawl_on].
  - kstep keeps_bind; [|intros _].
    + apply keeps_modify. intros s _. split; [|done].
      unfold grows; cbn. split_and!; try done; exists []; by rewrite app_nil_r.
    + kstep keeps_bind; [|done].
      apply keeps_if; [apply emit_grows|done].
  - destruct e; try apply Hgen.
    repeat apply keeps_if.
    + kstep keeps_bind; [apply append_urls_grows|intros _].
      kstep keeps_bind; [apply emit_grows|done].
    + kstep keeps_bind; [apply append_urls_grows|done].
    + destruct (responseNotOkHandlers _) eqn:E; [|done].
      kstep keeps_bind; [by eapply responseNotOkHandlers_grows|done].
Qed.

Lemma grows_begun u w s : grows cfg s (begun u w s).
Proof.
  unfold grows, begun; cbn. split_and!; try done;
    [exists []; by rewrite app_nil_r|by eexists].
Qed.

Lemma crawl_with_grows idle u :
  keeps anywhere (grows cfg) idle →
  keeps anywhere (grows cfg) (crawl_with cfg idle u).
Proof.
  intros Hidle s _. unfold wp. rewrite crawl_with_eq.
  pose proof (crawl_on_grows idle (attempt u (world s)).1 u Hidle
                (begun u (attempt u (world s)).2 s) I) as H.
  unfold wp in H. destruct (crawl_on _ _ _ _ _); [| |done].
  - split; [|done]. etrans; [apply grows_begun|apply H].
  - split; [|done]. etrans; [apply grows_begun|apply H].
Qed.

Lemma crawl_grows u : keeps anywhere (grows cfg) (crawl cfg u).
Proof. apply crawl_with_grows, idle_grows. Qed.

Lemma run_body_grows u : keeps anywhere (grows cfg) (run_body cfg u).
Proof.
  unfold run_body. kstep keeps_bind; [apply crawl_grows|intros r].
  kstep keeps_bind; [|intros _].
  { destruct (truthy r); [|kstep keeps_ret].
    apply keeps_modify. intros s _. split; [|done].
    unfold grows; cbn. split_and!; try done; exists []; by rewrite app_nil_r. }
  kstep keeps_bind; [|intros due].
  { intros s _. unfold wp. destruct (check_due (world s)) as [b w].
    split; [|done]. unfold grows; cbn. split_and!; try done;
      exists []; by rewrite app_nil_r. }
  destruct due; [|kstep keeps_ret].
  kstep keeps_bind; [apply checkSkips_grows|intros _; apply emit_grows].
Qed.
End GrowthFacts.

Section DepthFacts.
Context {W : Type} `{!Env W}.
Variable cfg : Config.
Implicit Type s : Crawler W.
Implicit Type idle : M W unit.

Lemma bind_ext_wp {A B} (m : M W A) (k k' : A → M W B) s Q E :
  wp m s Q E → (∀ a s', Q a s' → k a s' = k' a s') →
  bind m k s = bind m k' s.
Proof. unfold wp, bind. destruct (m s); auto. Qed.

Lemma drain_one_ext crawl crawl' maxlen i u rest s :
  (∀ u s, checking s → crawl u s = crawl' u s) → checking s →
  drain_one crawl maxlen i u rest s = drain_one crawl' maxlen i u rest s.
Proof.
  intros Hext Hs. unfold drain_one, bind, modify. by rewrite Hext.
Qed.

Lemma drain_tier_ext crawl crawl' maxlen :
  drain_safe crawl →
  (∀ u s, checking s → crawl u s = crawl' u s) →
  ∀ fuel i s, checking s →
    drain_tier fuel crawl maxlen i s = drain_tier fuel crawl' maxlen i s.
Proof.
  intros Hsafe Hext. induction fuel as [|fuel IH]; intros i s Hs; [done|].
  cbn. destruct (skipped s !! i) as [t|] eqn:Hi; [|done].
  destruct (pop_last t) as [[u rest]|] eqn:Hp; [|done].
  apply pop_last_Some in Hp as ->.
  apply list_elem_of_split_length in Hi as (l1 & l2 & Hl & ->).
  unfold bind. rewrite <- (drain_one_ext crawl crawl') by done.
  pose proof (drain_one_wp crawl maxlen l1 l2 u rest s Hsafe Hs Hl) as Hw.
  unfold wp in Hw. destruct (drain_one crawl _ _ _ _ _); [|done..].
  apply IH, Hw.
Qed.

Lemma drain_tiers_ext crawl crawl' maxlen :
  drain_safe crawl →
  (∀ u s, checking s → crawl u s = crawl' u s) →
  ∀ k s, checking s → k ≤ length (skipped s) →
    for_each (reverse (seq 0 k))
      (fun i s => drain_tier (length (default [] (skipped s !! i)))
                    crawl maxlen i s) s =
    for_each (reverse (seq 0 k))
      (fun i s => drain_tier (length (default [] (skipped s !! i)))
                    crawl' maxlen i s) s.
Proof.
  intros Hsafe Hext. induction k as [|k IH]; intros s Hs Hk; [done|].
  rewrite seq_S, reverse_snoc. cbn [for_each plus].
  destruct (lookup_lt_is_Some_2 (skipped s) k) as [t Ht]; [lia|].
  unfold bind.
  rewrite <- (drain_tier_ext crawl crawl' maxlen Hsafe Hext) by done.
  pose proof (drain_tier_wp crawl maxlen Hsafe
                (length (default [] (skipped s !! k))) k s t Hs Ht) as Hw.
  rewrite Ht in Hw. specialize (Hw (le_n _)). unfold wp in Hw.
  rewrite Ht. destruct (drain_tier _ crawl _ _ _); [|done..].
  destruct Hw as [(Hdr & Hc & _) _].
  apply IH; [done|]. destruct Hdr as (_ & _ & -> & _). lia.
Qed.

Lemma checkSkips_with_ext crawl crawl' s :
  drain_safe crawl →
  (∀ u s, checking s → crawl u s = crawl' u s) →
  checkSkips_with crawl s = checkSkips_with crawl' s.
Proof.
  intros Hsafe Hext. unfold checkSkips_with, bind, modify, get.
  by rewrite (drain_tiers_ext crawl crawl' _ Hsafe Hext).
Qed.

(** The three functions call each other as in the source. *)
Lemma checkSkips_unfold s : checkSkips cfg s = checkSkips_with (crawl cfg) s.
Proof.
  apply checkSkips_with_ext; [apply crawl_with_safe|].
  intros u s' Hs'. by apply crawl_checking_any.
Qed.

Lemma idle_unfold s : idle cfg s = idle_with (crawl cfg) s.
Proof. unfold idle, idle_with, bind. by rewrite <- checkSkips_unfold. Qed.

Lemma crawl_unfold u s : crawl cfg u s = crawl_with cfg (idle cfg) u s.
Proof. done. Qed.
End DepthFacts.

(** ** What [crawl] returns *)

Section CrawlReturn.
Context {W : Type} `{!Env W}.
Variable cfg : Config.
Implicit Type s : Crawler W.
Implicit Type idle : M W unit.

Lemma skipUrl_returns (func : option (M W unit)) s r s' :
  skipUrl func s = Ret r s' → r = PyNone.
Proof.
  unfold skipUrl, bind, get, ret. destruct (checkingSkips s).
  - destruct func as [f|]; [destruct (f s)|]; by intros [= <- _].
  - destruct (url s) as [u|].
    + destruct (append_tier 0 u s) as [[] s1|e s1|]; [|done..].
      destruct func as [f|]; [destruct (f s1)|]; by intros [= <- _].
    + destruct func as [f|]; [destruct (f s)|]; by intros [= <- _].
Qed.

Lemma skipUrl_checking_skipped (func : option (M W unit)) s r s' :
  (∀ f s1 x s2, func = Some f → f s1 = Ret x s2 → skipped s2 = skipped s1) →
  checkingSkips s = true → skipUrl func s = Ret r s' →
  skipped s' = skipped s.
Proof.
  intros Hf Hs. unfold skipUrl, bind, get, ret. rewrite Hs.
  destruct func as [f|]; [|by intros [= _ <-]].
  destruct (f s) as [x s1|e s1|] eqn:E; [|done..].
  intros [= _ <-]. by eapply Hf.
Qed.

Lemma bind_returns {A B} (m : M W A) (k : A → M W B) (b : B) s r s' :
  (∀ a s1, k a s1 = Ret r s' → r = b) → bind m k s = Ret r s' → r = b.
Proof. unfold bind. destruct (m s); [eauto|done..]. Qed.

Lemma noSubmissionHandler_forward idle s r s' :
  (0 < direction cfg)%Z → checkingSkips s = false →
  noSubmissionHandler cfg idle s = Ret r s' → r = PyFalse.
Proof.
  intros Hd Hs. unfold noSubmissionHandler. unfold bind at 1, get.
  rewrite Hs. apply Z.ltb_lt in Hd as ->. cbn [andb negb].
  apply bind_returns; intros _ s1. apply bind_returns; intros _ s2.
  apply bind_returns; intros s3 s4. apply bind_returns; intros _ s5.
  by intros [= <- _].
Qed.

Lemma noSubmissionHandler_other idle s :
  (direction cfg ≤ 0)%Z ∨ checkingSkips s = true →
  noSubmissionHandler cfg idle s = Ret PyTrue s.
Proof.
  intros Hc. unfold noSubmissionHandler. unfold bind at 1, get.
  destruct Hc as [Hd|Hs].
  - apply Z.ltb_ge in Hd as ->. done.
  - rewrite Hs. by rewrite andb_false_r.
Qed.

Lemma hundredcode_503 : hundredcode 503 = 500%Z.
Proof. reflexivity. Qed.

Lemma hundredcode_minus_1 : hundredcode (-1) = 0%Z.
Proof. reflexivity. Qed.

Lemma crawl_on_not_ok_returns idle st u s r s' :
  crawl_on cfg idle (Failed (ResponseNotOk st)) u s = Ret r s' → r = PyNone.
Proof.
  cbn [crawl_on]. repeat case_match.
  - unfold bind, append_urls, sleep, emit, modify, ret. by intros [= <- _].
  - unfold bind, append_urls, modify, ret. by intros [= <- _].
  - unfold bind, ret. destruct (m s); [|done..]. by intros [= <- _].
  - unfold ret. by intros [= <- _].
Qed.

Lemma crawl_on_requeue idle st u s :
  st = 503%Z ∨ st = (-1)%Z →
  ∃ s', crawl_on cfg idle (Failed (ResponseNotOk st)) u s = Ret PyNone s' ∧
        urls s' = urls s ++ [u] ∧ skipped s' = skipped s.
Proof.
  intros [->| ->]; cbn; eexists; (split; [reflexivity|]); done.
Qed.

(** C2, as amended.  A not-ok response whose hundreds bucket is none of
    0, 400 and 500 has no handler: [crawl] returns [None] and does nothing
    beyond running the try block; the target is pushed onto no tier, is
    not re-queued, and nothing is logged. *)
Theorem unrecognised_bucket_ignored (u : Target) (s : Crawler W) (st : Z) :
  (attempt u (world s)).1 = Failed (ResponseNotOk st) →
  hundredcode st ≠ 0%Z → hundredcode st ≠ 400%Z → hundredcode st ≠ 500%Z →
  ∃ s', crawl cfg u s = Ret PyNone s' ∧
        skipped s' = skipped s ∧ urls s' = urls s ∧
        trace s' = trace s ++ [Fetch u].
Proof.
  intros Ho H0 H4 H5. exists (begun u (attempt u (world s)).2 s).
  split; [|done]. unfold crawl. rewrite crawl_with_eq, Ho. cbn [crawl_on].
  assert (st ≠ 503%Z) as H503 by (intros ->; by apply H5).
  assert (st ≠ (-1)%Z) as Hm1 by (intros ->; by apply H0).
  apply Z.eqb_neq in H503 as ->. apply Z.eqb_neq in Hm1 as ->.
  unfold responseNotOkHandlers.
  apply Z.eqb_neq in H0 as ->. apply Z.eqb_neq in H4 as ->.
  by apply Z.eqb_neq in H5 as ->.
Qed.

(** C10.  A no-content outcome during a drain pass, or with a negative
    step, makes [crawl] return [True]; tiers, explicit queue, counter and
    cursor are as before.  In a drain pass the target popped for this
    crawl is put back on no tier. *)
Theorem no_content_discarded (u : Target) (s : Crawler W) :
  (attempt u (world s)).1 = Failed NoSubmission →
  checkingSkips s = true ∨ (direction cfg < 0)%Z →
  (∃ s', crawl cfg u s = Ret PyTrue s' ∧
         skipped s' = skipped s ∧ urls s' = urls s ∧ id s' = id s ∧
         consecutiveNoSubmissions s' = consecutiveNoSubmissions s) ∧
  (∀ i rest,
     checkingSkips s = true → skipped s !! i = Some (rest ++ [u]) →
     ∃ s', drain_one (crawl cfg)
             (Z.of_nat (length (skipped s)) - 1) i u rest s = Ret () s' ∧
           skipped s' = <[i := rest]> (skipped s)).
Proof.
  intros Ho Hc.
  assert (∀ s0, world s0 = world s →
            (checkingSkips s0 = true ∨ (direction cfg < 0)%Z) →
            crawl cfg u s0 = Ret PyTrue (begun u (attempt u (world s)).2 s0))
    as Hcrawl.
  { intros s0 Hw Hc0. unfold crawl. rewrite crawl_with_eq, Hw, Ho.
    cbn [crawl_on in_doNotLog errorHandlers]. unfold bind, get, ret.
    rewrite noSubmissionHandler_other; [done|].
    destruct Hc0 as [?|?]; [by right|left; lia]. }
  split.
  - eexists. split; [by apply Hcrawl|done].
  - intros i rest Hs Hi. eexists. unfold drain_one, bind, modify.
    rewrite Hcrawl; [|done|by left]. cbn [truthy]. split; [reflexivity|done].
Qed.

Lemma never_true_bind {A B} (m : M W A) (k : A → M W B) f :
  (∀ a, never_true (k a) f) → never_true (bind m k) f.
Proof.
  intros Hk s b s'. unfold bind. destruct (m s) as [a s1| |]; [|done..].
  apply Hk.
Qed.

Lemma skipUrl_never_true (func : option (M W unit)) :
  never_true (skipUrl func) (fun r => r).
Proof. intros s r s' Hr. by apply skipUrl_returns in Hr as ->. Qed.

Lemma responseNotOkHandlers_never_true code (h : M W PyRet) :
  responseNotOkHandlers code = Some h → never_true h (fun r => r).
Proof.
  unfold responseNotOkHandlers. repeat case_match; intros [= <-];
    apply skipUrl_never_true.
Qed.

Lemma crawl_on_true idle o u s r s' :
  crawl_on cfg idle o u s = Ret r s' → truthy r = true →
  ((∃ p, o = Done p) ∨ o = Failed InvalidSubmission ∨
   (o = Failed NoSubmission ∧
    ((direction cfg ≤ 0)%Z ∨ checkingSkips s = true))) ∧
  skipped s' = skipped s ∧ urls s' = urls s.
Proof.
  intros Hr Ht. assert (r = PyTrue) as -> by by destruct r. clear Ht.
  assert (∀ e (h : M W PyRet), never_true h (fun r => r) →
    (let* s0 := get in
     (if in_doNotLog e then ret ()
      else if in_errorHandlers e s0 then log Info Logdata
           else log Error Logdata);; h) s ≠ Ret PyTrue s') as Hnever.
  { intros e h Hh Heq.
    eapply (never_true_bind _ _ (fun r => r)); [|exact Heq|done].
    intros s0. by apply never_true_bind. }
  destruct o as [p|e].
  - split; [eauto|]. cbn in Hr. unfold bind, modify, ret in Hr.
    destruct (negb (p =? 0)%Z && calm cfg); cbn in Hr; by injection Hr as <-.
  - destruct e; cbn [crawl_on errorHandlers] in Hr;
      try (by apply Hnever in Hr; [|apply skipUrl_never_true]).
    + exfalso. revert Hr. unfold bind, get. repeat case_match; done.
    + by apply crawl_on_not_ok_returns in Hr.
    + destruct (decide ((direction cfg ≤ 0)%Z ∨ checkingSkips s = true))
        as [Hc|Hc].
      * split; [by right; right|]. revert Hr. cbn [in_doNotLog].
        unfold bind, get, ret. rewrite noSubmissionHandler_other by done.
        by intros [= <-].
      * exfalso. revert Hr. cbn [in_doNotLog]. unfold bind, get, ret.
        intros Hr. apply noSubmissionHandler_forward in Hr; [done|lia|].
        destruct (checkingSkips s); [|done]. destruct Hc. by right.
    + split; [by right; left|]. revert Hr. cbn [in_doNotLog in_errorHandlers].
      unfold bind, get, log, emit, modify, ret. by intros [= <-].
    + exfalso. revert Hr. unfold bind, get, modify, shutdown, raise.
      repeat case_match; done.
Qed.

Lemma crawl_on_resolved idle o u s r s' :
  crawl_on cfg idle o u s = Ret r s' →
  (∃ p, o = Done p) ∨ o = Failed InvalidSubmission ∨
  (o = Failed NoSubmission ∧
   ((direction cfg ≤ 0)%Z ∨ checkingSkips s = true)) →
  r = PyTrue.
Proof.
  intros Hr [[p ->]|[->|[-> Hc]]]; revert Hr.
  - cbn. unfold bind, modify, ret.
    destruct (negb (p =? 0)%Z && calm cfg); cbn; by intros [= <- _].
  - cbn. unfold bind, get, log, emit, modify, ret. by intros [= <- _].
  - cbn [crawl_on in_doNotLog errorHandlers]. unfold bind, get, ret.
    rewrite noSubmissionHandler_other by done. by intros [= <- _].
Qed.

(** C1, as amended.  [crawl] returns [True] exactly when the try block
    ran to its end, or found content that cannot be indexed, or found no
    content while a drain pass was in progress or the step was not
    positive.  When it returns [True] no tier and not the explicit queue
    has changed.  On a 503 and on a missing response (status -1) it
    appends the target to the explicit queue and returns [None]. *)
Theorem crawl_return (u : Target) (s : Crawler W) (r : PyRet)
    (s' : Crawler W) :
  crawl cfg u s = Ret r s' →
  let o := (attempt u (world s)).1 in
  (truthy r = true ↔
     (∃ p, o = Done p) ∨ o = Failed InvalidSubmission ∨
     (o = Failed NoSubmission ∧
      ((direction cfg ≤ 0)%Z ∨ checkingSkips s = true))) ∧
  (truthy r = true → skipped s' = skipped s ∧ urls s' = urls s) ∧
  (∀ st, o = Failed (ResponseNotOk st) → st = 503%Z ∨ st = (-1)%Z →
         r = PyNone ∧ urls s' = urls s ++ [u] ∧ skipped s' = skipped s).
Proof.
  unfold crawl. rewrite crawl_with_eq.
  set (w := (attempt u (world s)).2). set (o := (attempt u (world s)).1).
  intros Hr. cbn zeta. split_and!.
  - split.
    + intros Ht. by apply (crawl_on_true _ _ _ _ _ _ Hr Ht).
    + intros Hc. by rewrite (crawl_on_resolved _ _ _ _ _ _ Hr Hc).
  - intros Ht. by apply (crawl_on_true _ _ _ _ _ _ Hr Ht).
  - intros st Ho Hst. rewrite Ho in Hr.
    destruct (crawl_on_requeue (idle cfg) st u (begun u w s) Hst)
      as (s1 & Heq & Hu & Hsk).
    rewrite Heq in Hr. by injection Hr as <- <-.
Qed.
End CrawlReturn.

(** ** The drain pass *)

Section DrainPass.
Context {W : Type} `{!Env W}.
Variable cfg : Config.
Implicit Type s : Crawler W.

Lemma reverse_concat {A} (l : list (list A)) :
  reverse (concat l) = concat (reverse <$> reverse l).
Proof.
  induction l as [|x l IH]; [done|].
  rewrite concat_cons, reverse_app, reverse_cons, fmap_app, concat_app, IH.
  cbn. by rewrite app_nil_r.
Qed.

Lemma submseteq_NoDup {A} (l k : list A) : l ⊆+ k → NoDup k → NoDup l.
Proof.
  intros (k' & Hperm & Hsub)%submseteq_sublist_r Hk.
  rewrite Hperm. by eapply sublist_NoDup.
Qed.

(** C6.  A drain pass ends.  The try blocks it runs are those of the
    entries the tiers held when it started, each once: the last tier
    first, tier 0 last, every tier from its most recent entry to its
    oldest; an entry moved up during the pass is not tried again.  A pass
    that raises has run a first part of that list.  While a pass is in
    progress no crawl changes a tier, so no failure is pushed onto tier 0,
    which is empty when the pass returns. *)
Theorem drain_order (s : Crawler W) :
  wp (checkSkips cfg) s
    (fun _ s' =>
       fetched (trace s') =
         fetched (trace s) ++ concat (reverse <$> reverse (skipped s)) ∧
       (skipped s ≠ [] → skipped s' !! 0 = Some []))
    (fun s' =>
       ∃ rest, fetched (trace s') ++ rest =
                 fetched (trace s) ++ concat (reverse <$> reverse (skipped s)))
  ∧ (∀ u s0, checkingSkips s0 = true →
       wp (crawl cfg u) s0 (fun _ s' => skipped s' = skipped s0)
         (fun s' => skipped s' = skipped s0)).
Proof.
  split.
  - eapply wp_mono; [apply checkSkips_wp| |]; cbn beta.
    + intros _ s' (_ & _ & Hf & H0). by rewrite <- reverse_concat.
    + intros s' (_ & _ & X & HX). exists X. by rewrite <- reverse_concat.
  - intros u s0 Hs0.
    eapply wp_mono; [by apply (crawl_with_safe cfg (idle cfg) u s0)| |];
      cbn beta; by intros; match goal with H : attempted _ _ _ |- _ =>
        destruct H as (_ & ? & _) end.
Qed.

(** C5, as amended.  A target popped from tier [i] by a drain pass whose
    crawl does not return [True] is appended to tier [i+1] when
    [i < N-1] and is put on no tier when [i = N-1].  A drain pass makes
    no target occupy two places: when no target occurs twice in the tiers
    as the pass starts, none does when it ends. *)
Theorem escalation :
  (∀ i u rest (s : Crawler W) r s1,
     checkingSkips s = true → skipped s !! i = Some (rest ++ [u]) →
     crawl cfg u (set_skipped (<[i := rest]> (skipped s)) s) = Ret r s1 →
     truthy r = false →
     ∃ s', drain_one (crawl cfg) (Z.of_nat (length (skipped s)) - 1)
             i u rest s = Ret () s' ∧
           skipped s' =
             if bool_decide (i < length (skipped s) - 1)
             then alter (fun t => t ++ [u]) (S i) (<[i := rest]> (skipped s))
             else <[i := rest]> (skipped s)) ∧
  (∀ s : Crawler W,
     NoDup (concat (skipped s)) →
     wp (checkSkips cfg) s (fun _ s' => NoDup (concat (skipped s')))
       (fun s' => NoDup (concat (skipped s')))).
Proof.
  split.
  - intros i u rest s r s1 Hs Hi Hr Ht.
    pose proof (crawl_with_safe cfg (idle cfg) u
                  (set_skipped (<[i:=rest]> (skipped s)) s) Hs) as Hsafe.
    unfold wp in Hsafe. fold (crawl cfg u) in Hsafe. rewrite Hr in Hsafe.
    destruct Hsafe as (_ & Hsk & _). cbn in Hsk.
    unfold drain_one, bind, modify. rewrite Hr, Ht.
    assert (i < length (skipped s)) as Hlt by by eapply lookup_lt_Some.
    case_bool_decide as Hlast.
    + assert ((Z.of_nat i <? Z.of_nat (length (skipped s)) - 1)%Z = true) as ->
        by (apply Z.ltb_lt; lia).
      unfold append_tier. rewrite Hsk.
      destruct (lookup_lt_is_Some_2 (<[i:=rest]> (skipped s)) (S i))
        as [t2 Ht2]; [rewrite length_insert; lia|].
      rewrite Ht2. eexists. split; [reflexivity|]. cbn.
      apply list_eq. intros j. destruct (decide (j = S i)) as [->|Hj].
      * rewrite list_lookup_insert_eq, list_lookup_alter_eq, Ht2;
          [done|rewrite length_insert; lia].
      * by rewrite list_lookup_insert_ne, list_lookup_alter_ne.
    + assert ((Z.of_nat i <? Z.of_nat (length (skipped s)) - 1)%Z = false) as ->
        by (apply Z.ltb_ge; lia).
      eexists. split; [reflexivity|done].
  - intros s Hnd. eapply wp_mono; [apply checkSkips_wp| |]; cbn beta.
    + intros _ s' ((_ & _ & _ & Hsub & _) & _). by eapply submseteq_NoDup.
    + intros s' ((_ & _ & _ & Hsub & _) & _). by eapply submseteq_NoDup.
Qed.
End DrainPass.

(** ** The sequencer *)

Section Sequencer.
Context {W : Type} `{!Env W}.
Variable cfg : Config.
Implicit Type s : Crawler W.

Lemma cursor_loop_eq s :
  cursor_loop cfg s =
    if done cfg s then Ret (None, GDone) s
    else Ret (Some (Id (id s)), GCursor) s.
Proof. unfold cursor_loop, bind, get, ret. by destruct (done cfg s). Qed.

(** One step of the generator, from each place it can be suspended. *)
Lemma urlGenerator_eq pc s :
  urlGenerator cfg pc s =
    match pc with
    | GNew =>
        match urls s with
        | [] => cursor_loop cfg s
        | u :: r => Ret (Some u, GExplicit) (set_urls r s)
        end
    | GExplicit =>
        match urls s with
        | [] => Ret (None, GDone) s
        | u :: r => Ret (Some u, GExplicit) (set_urls r s)
        end
    | GCursor =>
        match urls s with
        | [] => cursor_loop cfg (set_id (id s + direction cfg) s)
        | u :: r =>
            Ret (Some u, GRequeue (length r))
              (set_urls r (set_id (id s + direction cfg) s))
        end
    | GRequeue O => cursor_loop cfg s
    | GRequeue (S n) =>
        match urls s with
        | [] => Raise IndexError s
        | u :: r => Ret (Some u, GRequeue n) (set_urls r s)
        end
    | GDone => Ret (None, GDone) s
    end.
Proof.
  destruct pc as [| | |[|n]|]; try done.
  - unfold urlGenerator, explicit_loop, bind, get, pop0, ret.
    destruct (urls s) eqn:E; [done|]. by repeat (rewrite E; cbv beta iota).
  - unfold urlGenerator, explicit_loop, bind, get, pop0, ret.
    destruct (urls s) eqn:E; [by rewrite ?E|].
    by repeat (rewrite E; cbv beta iota).
  - unfold urlGenerator, bind, modify, get.
    change (urls (set_id (id s + direction cfg) s)) with (urls s).
    destruct (urls s) eqn:E; [done|].
    unfold requeue_loop, length, bind, pop0, ret.
    change (urls (set_id (id s + direction cfg) s)) with (urls s).
    by repeat (rewrite E; cbv beta iota).
  - unfold urlGenerator, requeue_loop, bind, pop0, ret. by destruct (urls s).
Qed.

(** A step of the generator that ends at [yield self.id]. *)
Lemma cursor_yield pc s u s' :
  urlGenerator cfg pc s = Ret (Some u, GCursor) s' →
  s' = poll_state cfg pc s ∧ u = Id (id s') ∧ done cfg s' = false ∧
  at_poll pc s = true.
Proof.
  rewrite urlGenerator_eq.
  destruct pc as [| | |[|n]|]; cbn [at_poll poll_state];
    destruct (urls s) eqn:E; rewrite ?cursor_loop_eq; try done;
    destruct (done cfg _) eqn:Hd; try done; by intros [= <- <-].
Qed.

(** In cursor mode the generator ends exactly at a poll that finds
    [done]. *)
Lemma cursor_halt pc s :
  cursor_mode pc s = true →
  (∃ pc' s', urlGenerator cfg pc s = Ret (None, pc') s') ↔
  at_poll pc s = true ∧ done cfg (poll_state cfg pc s) = true.
Proof.
  rewrite urlGenerator_eq.
  destruct pc as [| | |[|n]|]; cbn [at_poll poll_state cursor_mode];
    try done; intros Hm; destruct (urls s) eqn:E; rewrite ?cursor_loop_eq;
    try done; try destruct (done cfg _) eqn:Hd;
    (split; [intros (pc' & s1 & Heq); by simplify_eq|
             intros [? ?]; try done; eauto]).
Qed.

(** What a step of the generator changes: the cursor by one step at
    most, and only after [yield self.id]. *)
Lemma urlGenerator_id pc s y s' :
  urlGenerator cfg pc s = Ret y s' →
  id s' = id s ∨ (pc = GCursor ∧ id s' = (id s + direction cfg)%Z).
Proof.
  rewrite urlGenerator_eq.
  destruct pc as [| | |[|n]|]; destruct (urls s) eqn:E;
    rewrite ?cursor_loop_eq; try done; try destruct (done cfg _) eqn:Hd;
    intros [= _ <-]; auto.
Qed.

Lemma urlGenerator_skipped pc s y s' :
  urlGenerator cfg pc s = Ret y s' →
  skipped s' = skipped s ∧ world s' = world s ∧ trace s' = trace s ∧
  checkingSkips s' = checkingSkips s ∧
  consecutiveNoSubmissions s' = consecutiveNoSubmissions s.
Proof.
  rewrite urlGenerator_eq.
  destruct pc as [| | |[|n]|]; destruct (urls s) eqn:E;
    rewrite ?cursor_loop_eq; try done; try destruct (done cfg _) eqn:Hd;
    by intros [= _ <-].
Qed.
End Sequencer.

Section SequencerTheorems.
Context {W : Type} `{!Env W}.
Variable cfg : Config.
Implicit Type s : Crawler W.

Lemma turns_S n pc s :
  turns cfg (S n) pc s =
    match urlGenerator cfg pc s with
    | Ret (Some u, pc') s1 =>
        match run_body cfg u s1 with
        | Ret _ s2 =>
            match turns cfg n pc' s2 with
            | Ret r s3 => Ret (u :: r.1, r.2) s3
            | Raise e s3 => Raise e s3
            | Diverge => Diverge
            end
        | Raise e s2 => Raise e s2
        | Diverge => Diverge
        end
    | Ret (None, pc') s1 => Ret ([], pc') s1
    | Raise e s1 => Raise e s1
    | Diverge => Diverge
    end.
Proof.
  cbn [turns]. unfold bind, ret.
  by destruct (urlGenerator cfg pc s) as [[[u|] pc'] s1| |].
Qed.

Lemma run_body_returns u s x s' :
  run_body cfg u s = Ret x s' → grows cfg s s'.
Proof.
  intros Hr. pose proof (run_body_grows cfg u s I) as Hg.
  unfold wp in Hg. rewrite Hr in Hg. apply Hg.
Qed.

Lemma run_body_ends u s : ∃ s', final (run_body cfg u s) = Some s' ∧ grows cfg s s'.
Proof.
  pose proof (run_body_grows cfg u s I) as Hg. unfold wp in Hg.
  destruct (run_body cfg u s); [by eexists; split; [|apply Hg]..|done].
Qed.

(** *** Explicit mode *)

Lemma explicit_turns n :
  ∀ pc s ys pc' s',
    explicit_mode pc s = true →
    turns cfg n pc s = Ret (ys, pc') s' →
    (∃ A, ys ++ urls s' = urls s ++ A) ∧
    (pc' = pc ∨ pc' = GExplicit ∨ (pc' = GDone ∧ urls s' = [])).
Proof.
  induction n as [|n IH]; intros pc s ys pc' s' Hm.
  - intros [= <- <- <-]. split; [exists []; by rewrite app_nil_r|by left].
  - rewrite turns_S, urlGenerator_eq.
    assert (∀ u r, urls s = u :: r →
      match run_body cfg u (set_urls r s) with
      | Ret _ s2 =>
          match turns cfg n GExplicit s2 with
          | Ret r s3 => Ret (u :: r.1, r.2) s3
          | Raise e s3 => Raise e s3
          | Diverge => Diverge
          end
      | Raise e s2 => Raise e s2
      | Diverge => Diverge
      end = Ret (ys, pc') s' →
      (∃ A, ys ++ urls s' = urls s ++ A) ∧
      (pc' = pc ∨ pc' = GExplicit ∨ pc' = GDone ∧ urls s' = [])) as Hstep.
    { intros u r Hu.
      destruct (run_body cfg u (set_urls r s)) as [x s2| |] eqn:Hb; [|done..].
      apply run_body_returns in Hb as (_ & [A1 HA1] & _). cbn in HA1.
      destruct (turns cfg n GExplicit s2) as [[ys2 pc2] s3| |] eqn:Ht;
        [|done..].
      intros [= <- <- <-].
      apply IH in Ht as ([A2 HA2] & Hpc); [|done]. split.
      - exists (A1 ++ A2). rewrite Hu. cbn. rewrite HA2, HA1.
        by rewrite <- app_assoc.
      - destruct Hpc as [->|[->|[-> ?]]]; auto. }
    destruct pc; try done; cbn in Hm.
    + destruct (urls s) as [|u r] eqn:Hu; [done|]. by apply Hstep.
    + destruct (urls s) as [|u r] eqn:Hu; [|by apply Hstep].
      intros [= <- <- <-]. split; [exists []; by rewrite Hu|auto].
Qed.

(** C9.  Started with a non-empty explicit queue, the generator yields
    the head of the queue at every step, so the targets come out in queue
    order, those appended at runtime after the others; it ends when it
    finds the queue empty and never enters cursor mode; no step reads or
    writes the cursor. *)
Theorem explicit_first (s : Crawler W) :
  urls s ≠ [] →
  (∀ n ys pc' s',
     turns cfg n GNew s = Ret (ys, pc') s' →
     (∃ A, ys ++ urls s' = urls s ++ A) ∧
     (pc' = GNew ∨ pc' = GExplicit ∨ (pc' = GDone ∧ urls s' = []))) ∧
  (∀ pc s0,
     explicit_mode pc s0 = true →
     urlGenerator cfg pc s0 =
       match urls s0 with
       | u :: r => Ret (Some u, GExplicit) (set_urls r s0)
       | [] => Ret (None, GDone) s0
       end ∧
     ∀ z y s1,
       urlGenerator cfg pc s0 = Ret y s1 →
       id s1 = id s0 ∧ urlGenerator cfg pc (set_id z s0) = Ret y (set_id z s1)).
Proof.
  intros Hne. split.
  - intros n ys pc' s' Ht. eapply explicit_turns; [|done].
    cbn. by destruct (urls s).
  - intros pc s0 Hm.
    assert (urlGenerator cfg pc s0 =
       match urls s0 with
       | u :: r => Ret (Some u, GExplicit) (set_urls r s0)
       | [] => Ret (None, GDone) s0
       end) as Heq.
    { rewrite urlGenerator_eq. destruct pc; try done.
      cbn in Hm. by destruct (urls s0). }
    split; [done|]. intros z y s1. rewrite Heq.
    assert (urlGenerator cfg pc (set_id z s0) =
       match urls s0 with
       | u :: r => Ret (Some u, GExplicit) (set_urls r (set_id z s0))
       | [] => Ret (None, GDone) (set_id z s0)
       end) as ->.
    { rewrite urlGenerator_eq. destruct pc; try done.
      cbn in Hm. change (urls (set_id z s0)) with (urls s0).
      by destruct (urls s0). }
    destruct (urls s0); by intros [= <- <-].
Qed.

(** *** Cursor mode: the re-queue list *)

Lemma requeue_turns n :
  ∀ k s ys pc' s',
    n ≤ k → k ≤ length (urls s) →
    turns cfg n (GRequeue k) s = Ret (ys, pc') s' →
    ys = take n (urls s) ∧ pc' = GRequeue (k - n).
Proof.
  induction n as [|n IH]; intros k s ys pc' s' Hn Hk.
  - intros [= <- <- <-]. by rewrite Nat.sub_0_r.
  - rewrite turns_S, urlGenerator_eq.
    destruct k as [|k]; [lia|].
    destruct (urls s) as [|u r] eqn:Hu; [cbn in Hk; lia|].
    destruct (run_body cfg u (set_urls r s)) as [x s2| |] eqn:Hb; [|done..].
    apply run_body_returns in Hb as (_ & [A1 HA1] & _). cbn in HA1.
    destruct (turns cfg n (GRequeue k) s2) as [[ys2 pc2] s3| |] eqn:Ht;
      [|done..].
    intros [= <- <- <-]. cbn in Hk.
    apply IH in Ht as [-> ->]; [|lia|rewrite HA1, length_app; lia].
    split; [|done]. cbn. f_equal. rewrite HA1. apply take_app_le. lia.
Qed.

Lemma requeue_then_cursor k :
  ∀ s ys pc' s',
    k ≤ length (urls s) →
    turns cfg (S k) (GRequeue k) s = Ret (ys, pc') s' →
    ys = take k (urls s) ∨ ∃ v, ys = take k (urls s) ++ [Id v].
Proof.
  induction k as [|k IH]; intros s ys pc' s' Hk; rewrite turns_S, urlGenerator_eq.
  - rewrite cursor_loop_eq. destruct (done cfg s).
    + intros [= <- <- <-]. by left.
    + destruct (run_body cfg _ s); [|done..]. cbn.
      intros [= <- <- <-]. right. by eexists.
  - destruct (urls s) as [|u r] eqn:Hu; [cbn in Hk; lia|].
    destruct (run_body cfg u (set_urls r s)) as [x s2| |] eqn:Hb; [|done..].
    apply run_body_returns in Hb as (_ & [A1 HA1] & _). cbn in HA1.
    destruct (turns cfg (S k) (GRequeue k) s2) as [[ys2 pc2] s3| |] eqn:Ht;
      [|done..].
    intros [= <- <- <-]. cbn in Hk.
    apply IH in Ht; [|rewrite HA1, length_app; lia].
    rewrite HA1, take_app_le in Ht by lia.
    destruct Ht as [->|[v ->]]; [by left|right; by exists v].
Qed.

(** C8.  After the body has run for a cursor value, the next turns of the
    loop get the targets then in the re-queue list, all of them and in
    order, and only then a cursor value again (or the end).  What the
    body appended during the crawl of the cursor value is in that list. *)
Theorem requeue_before_cursor (s : Crawler W) :
  (∀ n ys pc' s',
     n ≤ length (urls s) →
     turns cfg n GCursor s = Ret (ys, pc') s' → ys = take n (urls s)) ∧
  (∀ ys pc' s',
     turns cfg (S (length (urls s))) GCursor s = Ret (ys, pc') s' →
     ys = urls s ∨ ∃ v, ys = urls s ++ [Id v]) ∧
  (∀ pc0 s0 v,
     urlGenerator cfg pc0 s0 = Ret (Some (Id v), GCursor) s →
     wp (run_body cfg (Id v)) s
       (fun _ s' => ∃ A, urls s' = urls s ++ A)
       (fun s' => ∃ A, urls s' = urls s ++ A)).
Proof.
  split_and!.
  - intros [|n] ys pc' s' Hn; [by intros [= <- <- <-]|].
    rewrite turns_S, urlGenerator_eq.
    destruct (urls s) as [|u r] eqn:Hu; [cbn in Hn; lia|].
    destruct (run_body cfg u _) as [x s2| |] eqn:Hb; [|done..].
    apply run_body_returns in Hb as (_ & [A1 HA1] & _). cbn in HA1.
    destruct (turns cfg n _ s2) as [[ys2 pc2] s3| |] eqn:Ht; [|done..].
    intros [= <- <- <-]. cbn in Hn.
    apply requeue_turns in Ht as [-> _]; [|lia|rewrite HA1, length_app; lia].
    cbn. f_equal. rewrite HA1. apply take_app_le. lia.
  - intros ys pc' s'. rewrite turns_S, urlGenerator_eq.
    destruct (urls s) as [|u r] eqn:Hu.
    + rewrite cursor_loop_eq. destruct (done cfg _).
      * intros [= <- <- <-]. by left.
      * destruct (run_body cfg _ _); [|done..]. cbn.
        intros [= <- <- <-]. right. by eexists.
    + destruct (run_body cfg u _) as [x s2| |] eqn:Hb; [|done..].
      apply run_body_returns in Hb as (_ & [A1 HA1] & _). cbn in HA1.
      cbn [length].
      destruct (turns cfg _ _ s2) as [[ys2 pc2] s3| |] eqn:Ht; [|done..].
      intros [= <- <- <-].
      apply requeue_then_cursor in Ht; [|rewrite HA1, length_app; lia].
      rewrite HA1, take_app_le, firstn_all in Ht by lia.
      destruct Ht as [->|[v ->]]; [by left|right; by exists v].
  - intros pc0 s0 v _.
    eapply wp_mono; [apply (run_body_grows cfg (Id v) s I)| |]; cbn beta.
    + by intros _ s' [(_ & HA & _) _].
    + by intros s' [(_ & HA & _) _].
Qed.
End SequencerTheorems.

Section Bounds.
Context {W : Type} `{!Env W}.
Variable cfg : Config.
Implicit Type s : Crawler W.

Lemma done_bound e s :
  endingid cfg = Some e →
  done cfg s = passed cfg e (id s) || is_set (world s).
Proof. intros He. unfold done, passed. rewrite He. by destruct (0 <? _)%Z. Qed.

Lemma turns_backward n :
  ∀ pc s ys pc' s',
    (direction cfg < 0)%Z → (id s ≤ startingid cfg)%Z →
    turns cfg n pc s = Ret (ys, pc') s' → (id s' ≤ startingid cfg)%Z.
Proof.
  induction n as [|n IH]; intros pc s ys pc' s' Hd Hs.
  - by intros [= <- <- <-].
  - rewrite turns_S.
    destruct (urlGenerator cfg pc s) as [[[u|] pc1] s1| |] eqn:Hg; [| |done..].
    + apply urlGenerator_id in Hg.
      destruct (run_body cfg u s1) as [x s2| |] eqn:Hb; [|done..].
      apply run_body_returns in Hb as (_ & _ & _ & Hid).
      destruct (turns cfg n pc1 s2) as [[ys2 pc2] s3| |] eqn:Ht; [|done..].
      intros [= <- <- <-]. eapply IH; [done| |done].
      rewrite Hid by lia. destruct Hg as [->|[_ ->]]; lia.
    + apply urlGenerator_id in Hg. intros [= <- <- <-].
      destruct Hg as [->|[_ ->]]; lia.
Qed.

Lemma alone_side pc s :
  alone cfg pc s →
  ((0 < direction cfg)%Z → (startingid cfg ≤ id s)%Z) ∧
  ((direction cfg < 0)%Z → (id s ≤ startingid cfg)%Z).
Proof.
  induction 1 as [queue w|pc s y pc' s1 s2 _ IH Hg Hid]; [done|].
  apply urlGenerator_id in Hg. rewrite Hid.
  destruct Hg as [->|[_ ->]]; [done|]. split; intros; [|]; lia.
Qed.

(** C7, as amended.  With an ending bound and a step that is not zero: a
    cursor value the generator yields is never past the ending bound in
    the direction of travel.  With a negative step it is within
    [end, start] all through a run of the engine.  With either step it is
    within [min(start,end), max(start,end)] as long as nothing but the
    generator moves the cursor; the idle rewind of a forward crawl does
    move it, and can take it below the start.  In cursor mode the
    generator ends exactly when it is at the head of its while loop and
    finds the cursor past the bound or the cancellation event set. *)
Theorem sequencer_bounds (e : Z) :
  endingid cfg = Some e → direction cfg ≠ 0%Z →
  (∀ pc s v s',
     urlGenerator cfg pc s = Ret (Some (Id v), GCursor) s' →
     ((0 < direction cfg)%Z → (v ≤ e)%Z) ∧
     ((direction cfg < 0)%Z → (e ≤ v)%Z)) ∧
  ((direction cfg < 0)%Z →
   ∀ queue w n ys pc s v s',
     turns cfg n GNew (init cfg queue w) = Ret (ys, pc) s →
     urlGenerator cfg pc s = Ret (Some (Id v), GCursor) s' →
     (e ≤ v ≤ startingid cfg)%Z) ∧
  (∀ pc s v s',
     alone cfg pc s →
     urlGenerator cfg pc s = Ret (Some (Id v), GCursor) s' →
     (Z.min (startingid cfg) e ≤ v ≤ Z.max (startingid cfg) e)%Z) ∧
  (∀ pc s,
     cursor_mode pc s = true →
     (∃ pc' s', urlGenerator cfg pc s = Ret (None, pc') s') ↔
     at_poll pc s = true ∧
     (passed cfg e (id (poll_state cfg pc s)) = true ∨
      is_set (world s) = true)).
Proof.
  intros He Hd.
  assert (∀ pc s v s',
     urlGenerator cfg pc s = Ret (Some (Id v), GCursor) s' →
     ((0 < direction cfg)%Z → (v ≤ e)%Z) ∧
     ((direction cfg < 0)%Z → (e ≤ v)%Z)) as Hend.
  { intros pc s v s' Hg.
    apply cursor_yield in Hg as (_ & [= ->] & Hdone & _).
    rewrite (done_bound e) in Hdone by done.
    apply orb_false_iff in Hdone as [Hp _]. unfold passed in Hp.
    split; intros Hdir.
    - apply Z.ltb_lt in Hdir as Hb. rewrite Hb in Hp. lia.
    - assert ((0 <? direction cfg)%Z = false) as Hb by lia.
      rewrite Hb in Hp. lia. }
  split_and!; [done| | |].
  - intros Hdir queue w n ys pc s v s' Ht Hg.
    split; [by eapply Hend|].
    apply turns_backward in Ht; [|done..].
    pose proof (urlGenerator_id cfg _ _ _ _ Hg) as Hid.
    apply cursor_yield in Hg as (_ & [= ->] & _).
    destruct Hid as [->|[_ ->]]; lia.
  - intros pc s v s' Ha Hg.
    apply alone_side in Ha as [Hf Hb].
    pose proof (Hend _ _ _ _ Hg) as [Hef Heb].
    pose proof (urlGenerator_id cfg _ _ _ _ Hg) as Hid.
    apply cursor_yield in Hg as (_ & [= ->] & _).
    destruct (decide (0 < direction cfg)%Z).
    + specialize (Hf ltac:(done)). specialize (Hef ltac:(done)).
      destruct Hid as [Hid|[_ Hid]]; rewrite Hid in *; lia.
    + assert (direction cfg < 0)%Z as Hneg by lia.
      specialize (Hb Hneg). specialize (Heb Hneg).
      destruct Hid as [Hid|[_ Hid]]; rewrite Hid in *; lia.
  - intros pc s Hm. rewrite cursor_halt by done.
    rewrite (done_bound e) by done.
    assert (world (poll_state cfg pc s) = world s) as -> by by destruct pc.
    by rewrite orb_true_iff.
Qed.
End Bounds.

(** ** The idle backoff *)

Section Backoff.
Context {W : Type} `{!Env W}.
Variable cfg : Config.
Implicit Type s : Crawler W.

Lemma run_body_eq u s :
  run_body cfg u s =
    match crawl cfg u s with
    | Ret r s2 =>
        let s3 := if truthy r then set_consecutiveNoSubmissions 0 s2 else s2 in
        let s4 := set_world (check_due (world s3)).2 s3 in
        if (check_due (world s3)).1
        then (checkSkips cfg;; log Info CheckedSkips) s4
        else Ret () s4
    | Raise e s2 => Raise e s2
    | Diverge => Diverge
    end.
Proof.
  unfold run_body. unfold bind at 1. destruct (crawl cfg u s) as [r s2| |];
    [|done..].
  unfold bind at 1. destruct (truthy r); unfold modify, ret; cbv zeta;
    unfold bind at 1; by destruct (check_due (world _)) as [[] w].
Qed.

Lemma idle_wp s :
  wp (idle cfg) s
    (fun _ s' => drained s s' ∧ checkingSkips s' = false ∧
                 (skipped s ≠ [] → skipped s' !! 0 = Some []))
    (fun s' => drained s s').
Proof.
  unfold idle, idle_with. apply wp_bind.
  eapply wp_mono; [apply (checkSkips_wp cfg)| |]; cbn beta.
  - intros _ s1 (Hd & Hc & _ & H0). unfold wp, emit, modify.
    split_and!; [|done|done].
    etrans; [done|]. unfold drained; cbn.
    split_and!; try done; [exists []; by rewrite app_nil_r|by eexists].
  - by intros s1 (Hd & _).
Qed.

Lemma noSubmissionHandler_forward_eq (idle : M W unit) b u :
  (0 < direction cfg)%Z → checkingSkips b = false → url b = Some u →
  noSubmissionHandler cfg idle b =
    match skipped b with
    | [] => Raise IndexError b
    | t0 :: rest =>
        let c := (consecutiveNoSubmissions b + 1)%Z in
        let s1 := set_consecutiveNoSubmissions c
                    (set_skipped ((t0 ++ [u]) :: rest) b) in
        if (skipMax cfg <=? c)%Z then
          (idle;; ret PyFalse)
            (set_consecutiveNoSubmissions 0
               (set_trace (trace s1 ++ [Log Info Idling])
                  (set_id (id b - c * direction cfg)
                     (set_skipped (del_tail c (t0 ++ [u]) :: rest) s1))))
        else Ret PyFalse s1
    end.
Proof.
  intros Hd Hs Hu. unfold noSubmissionHandler. unfold bind at 1, get.
  rewrite Hs. apply Z.ltb_lt in Hd as ->. cbn [andb negb].
  unfold bind at 1. unfold skipUrl. unfold bind at 1, get. unfold bind at 1.
  rewrite Hs, Hu. unfold append_tier.
  destruct (skipped b) as [|t0 rest] eqn:E; [done|]. cbn [lookup list_lookup].
  unfold ret. unfold bind at 1, modify at 1. unfold bind at 1, get.
  cbv zeta.
  cbn [consecutiveNoSubmissions set_skipped set_consecutiveNoSubmissions].
  destruct (skipMax cfg <=? _)%Z; [|done].
  done.
Qed.

Lemma crawl_no_content_forward u s :
  (0 < direction cfg)%Z → checkingSkips s = false →
  (attempt u (world s)).1 = Failed NoSubmission →
  crawl cfg u s =
    noSubmissionHandler cfg (idle cfg) (begun u (attempt u (world s)).2 s).
Proof.
  intros Hd Hs Ho. unfold crawl. rewrite crawl_with_eq, Ho.
  cbn [crawl_on in_doNotLog errorHandlers]. by unfold bind at 1 2, get, ret.
Qed.
End Backoff.

Section BackoffTheorem.
Context {W : Type} `{!Env W}.
Variable cfg : Config.
Implicit Type s : Crawler W.

Lemma drained_nonempty s s' : drained s s' → skipped s ≠ [] → skipped s' ≠ [].
Proof.
  intros (_ & _ & Hlen & _) Hne Heq. rewrite Heq in Hlen.
  destruct (skipped s); [done|cbn in Hlen; lia].
Qed.

Lemma backed_off_drained s0 s1 s2 s' :
  backed_off cfg s0 s1 s2 → drained s2 s' → backed_off cfg s0 s1 s'.
Proof.
  intros (Hid & Hc & Hp) (Hid' & Hc' & _ & _ & Hp' & _).
  split_and!; [congruence..|by etrans].
Qed.

(** The end of the body of the loop, from the state after the crawl. *)
Lemma periodic_check_wp (s3 : Crawler W) (P : Crawler W → Prop) :
  (∀ s', drained s3 s' → P s') →
  wp (fun s => if (check_due (world s3)).1
               then (checkSkips cfg;; log Info CheckedSkips) s
               else Ret () s)
    (set_world (check_due (world s3)).2 s3)
    (fun _ => P) P.
Proof.
  intros HP. unfold wp.
  assert (drained s3 (set_world (check_due (world s3)).2 s3)) as Hw.
  { unfold drained; cbn. split_and!; try done; exists []; by rewrite app_nil_r. }
  destruct (check_due (world s3)).1; [|by apply HP].
  pose proof (checkSkips_wp cfg (set_world (check_due (world s3)).2 s3)) as Hc.
  unfold wp in Hc. unfold bind.
  destruct (checkSkips cfg _) as [x s5|e s5|]; [| |done].
  - unfold log, emit, modify. apply HP. etrans; [done|].
    etrans; [apply Hc|].
    unfold drained; cbn. split_and!; try done;
      [exists []; by rewrite app_nil_r|by eexists].
  - apply HP. etrans; [done|apply Hc].
Qed.

Lemma empty_turns_counted n x y :
  (0 < direction cfg)%Z →
  empty_turns cfg n x y →
  consecutiveNoSubmissions x.2 = 0%Z → checkingSkips x.2 = false →
  skipped x.2 ≠ [] →
  (Z.of_nat n < skipMax cfg)%Z →
  counted n x.2 y.2.
Proof.
  intros Hd Hrun. induction Hrun as [x|n x y z u Hrun IH Hturn];
    intros Hc0 Hs0 Hne Hlt.
  - unfold counted. split_and!; try done.
    exists (default [] (skipped x.2 !! 0)), []. by rewrite app_nil_r.
  - destruct IH as (Hc & Hs & Hney & T & P & Ht & HT & HP); [done..|lia|].
    destruct Hturn as (s1 & Hg & Ho & Hb).
    apply urlGenerator_skipped in Hg as (Hsk1 & _ & _ & Hs1 & Hc1).
    rewrite run_body_eq, crawl_no_content_forward in Hb;
      [|done|congruence|done].
    rewrite (noSubmissionHandler_forward_eq cfg _ _ u) in Hb;
      [|done|by cbn; congruence|done].
    change (skipped (begun u (attempt u (world s1)).2 s1))
      with (skipped s1) in Hb.
    change (consecutiveNoSubmissions (begun u (attempt u (world s1)).2 s1))
      with (consecutiveNoSubmissions s1) in Hb.
    rewrite Hsk1 in Hb. clear Hsk1.
    destruct (skipped y.2) as [|t0 rest] eqn:E; [done|].
    cbv zeta in Hb. rewrite Hc1, Hc in Hb.
    assert ((skipMax cfg <=? Z.of_nat n + 1)%Z = false) as Hno
      by (apply Z.leb_gt; lia).
    rewrite Hno in Hb. cbn [truthy] in Hb.
    cbn in Ht. subst t0.
    set (s2 := set_consecutiveNoSubmissions _ _) in Hb.
    destruct (check_due (world s2)) as [due w4]. cbn [fst snd] in Hb.
    destruct due.
    + pose proof (checkSkips_wp cfg (set_world w4 s2)) as Hchk.
      unfold wp in Hchk. unfold bind in Hb.
      destruct (checkSkips cfg _) as [x5 s5|e5 s5|]; [|done..].
      destruct Hchk as (Hdr & Hcs & _ & Hnil).
      unfold log, emit, modify in Hb. injection Hb as <-.
      unfold counted; cbn.
      destruct Hdr as (_ & Hcnt & Hlen & _). cbn in Hcnt, Hlen.
      split_and!.
      * rewrite Hcnt. lia.
      * done.
      * intros Heq. rewrite Heq in Hlen. cbn in Hlen. lia.
      * exists [], []. rewrite Hnil by (unfold s2; cbn; done).
        split_and!; [done| |cbn; lia].
        apply prefix_nil.
    + injection Hb as <-. unfold counted; cbn.
      split_and!; [lia|congruence|done|].
      exists T, (P ++ [u]). rewrite app_assoc. split_and!; [done..|].
      rewrite length_app. cbn. lia.
Qed.

Lemma del_tail_prefix {A} (k : nat) (T P : list A) :
  0 < k → length P ≤ k → del_tail (Z.of_nat k) (T ++ P) `prefix_of` T.
Proof.
  intros Hk HP. unfold del_tail.
  assert ((0 <? Z.of_nat k)%Z = true) as -> by (apply Z.ltb_lt; lia).
  rewrite Nat2Z.id, take_app_le by (rewrite length_app; lia).
  apply prefix_take.
Qed.

(** C4, as amended.  Crawling forward and outside a drain pass, let
    [skipMax] turns of the loop in a row find no submission, the first
    with the counter at 0.  When the body of the last of them ends, by
    returning or by an exception of the drain pass it runs, the cursor is
    [skipMax] steps behind where the last turn found it, the counter is
    0, and tier 0 holds nothing but entries it held before the first of
    the turns: the entries pushed for the [skipMax] targets are gone from
    it.  Whenever the crawl of a turn returns [True], the counter is 0
    when the body ends.  The crawl of the last turn returns [False]; what
    it deletes is the last [skipMax] entries of tier 0, the one it has
    just pushed among them, and the drain pass of its [idle] retries what
    is left of tier 0 and the tiers above, and none of the entries
    deleted. *)
Theorem idle_backoff (pc0 pc : GenPC) (s0 s : Crawler W) :
  (0 < direction cfg)%Z → (1 ≤ skipMax cfg)%Z →
  consecutiveNoSubmissions s0 = 0%Z → checkingSkips s0 = false →
  skipped s0 ≠ [] →
  empty_turns cfg (Z.to_nat (skipMax cfg) - 1) (pc0, s0) (pc, s) →
  (∀ u pc1 s1,
     urlGenerator cfg pc s = Ret (Some u, pc1) s1 →
     (attempt u (world s1)).1 = Failed NoSubmission →
     wp (run_body cfg u) s1 (fun _ s' => backed_off cfg s0 s1 s')
       (fun s' => backed_off cfg s0 s1 s')) ∧
  (∀ u (s1 : Crawler W) r s2,
     crawl cfg u s1 = Ret r s2 → truthy r = true →
     wp (run_body cfg u) s1 (fun _ s' => consecutiveNoSubmissions s' = 0%Z)
       (fun s' => consecutiveNoSubmissions s' = 0%Z)) ∧
  (∀ u pc1 s1 t0 rest,
     urlGenerator cfg pc s = Ret (Some u, pc1) s1 →
     (attempt u (world s1)).1 = Failed NoSubmission →
     skipped s1 = t0 :: rest →
     wp (crawl cfg u) s1
       (fun r s' =>
          r = PyFalse ∧
          fetched (trace s') =
            fetched (trace s1) ++
            u :: reverse
                   (concat
                      (take (length t0 + 1 - Z.to_nat (skipMax cfg))
                         (t0 ++ [u]) :: rest)))
       (fun _ => True)).
Proof.
  intros Hd Hk Hc0 Hs0 Hne Hrun. split_and!.
  - intros u pc1 s1 Hg Ho.
    apply empty_turns_counted in Hrun; [|done..|lia].
    destruct Hrun as (Hc & Hs & Hney & T & P & Ht & HT & HP).
    cbn [fst snd] in *.
    apply urlGenerator_skipped in Hg as (Hsk1 & _ & _ & Hs1 & Hc1).
    unfold wp. rewrite run_body_eq, crawl_no_content_forward;
      [|done|congruence|done].
    rewrite (noSubmissionHandler_forward_eq cfg _ _ u);
      [|done|by cbn; congruence|done].
    change (skipped (begun u (attempt u (world s1)).2 s1)) with (skipped s1).
    change (consecutiveNoSubmissions (begun u (attempt u (world s1)).2 s1))
      with (consecutiveNoSubmissions s1).
    change (id (begun u (attempt u (world s1)).2 s1)) with (id s1).
    rewrite Hsk1.
    destruct (skipped s) as [|t0 rest] eqn:E; [done|].
    cbv zeta. rewrite Hc1, Hc.
    assert (Z.of_nat (Z.to_nat (skipMax cfg) - 1) + 1 = skipMax cfg)%Z as ->
      by lia.
    rewrite Z.leb_refl. cbn in Ht. subst t0.
    set (s2 := set_consecutiveNoSubmissions 0 _).
    assert (backed_off cfg s0 s1 s2) as Hb2.
    { unfold backed_off, s2; cbn. split_and!; [done..|].
      etrans; [|exact HT].
      rewrite <- (Z2Nat.id (skipMax cfg)) by lia.
      rewrite <- app_assoc. apply del_tail_prefix; [lia|].
      rewrite length_app. cbn. lia. }
    pose proof (idle_wp cfg s2) as Hidle. unfold wp in Hidle.
    unfold bind at 1.
    destruct (idle cfg s2) as [x3 s3|e3 s3|]; [| |done].
    + destruct Hidle as (Hdr3 & _). unfold ret. cbn [truthy].
      apply (periodic_check_wp s3).
      intros s' Hdr. eapply backed_off_drained; [|done].
      by eapply backed_off_drained.
    + by eapply backed_off_drained.
  - intros u s1 r s2 Hr Ht. unfold wp. rewrite run_body_eq, Hr, Ht.
    apply (periodic_check_wp (set_consecutiveNoSubmissions 0 s2)).
    by intros s' (_ & -> & _).
  - intros u pc1 s1 t0 rest Hg Ho Hl.
    apply empty_turns_counted in Hrun; [|done..|lia].
    destruct Hrun as (Hc & Hs & _). cbn [fst snd] in *.
    apply urlGenerator_skipped in Hg as (_ & _ & _ & Hs1 & Hc1).
    unfold wp. rewrite crawl_no_content_forward; [|done|congruence|done].
    rewrite (noSubmissionHandler_forward_eq cfg _ _ u);
      [|done|by cbn; congruence|done].
    change (skipped (begun u (attempt u (world s1)).2 s1)) with (skipped s1).
    change (consecutiveNoSubmissions (begun u (attempt u (world s1)).2 s1))
      with (consecutiveNoSubmissions s1).
    rewrite Hl. cbv zeta. rewrite Hc1, Hc.
    assert (Z.of_nat (Z.to_nat (skipMax cfg) - 1) + 1 = skipMax cfg)%Z as ->
      by lia.
    rewrite Z.leb_refl.
    assert (del_tail (skipMax cfg) (t0 ++ [u]) =
            take (length t0 + 1 - Z.to_nat (skipMax cfg)) (t0 ++ [u])) as ->.
    { unfold del_tail. rewrite (proj2 (Z.ltb_lt 0 (skipMax cfg))) by lia.
      rewrite length_app. done. }
    match goal with |- context [bind _ _ ?st] => set (s3 := st) end.
    unfold bind at 1, idle, idle_with. unfold bind at 1.
    pose proof (checkSkips_wp cfg s3) as Hw. unfold wp in Hw.
    fold (checkSkips cfg).
    destruct (checkSkips cfg s3) as [[] s4|x s4|]; [|done..].
    destruct Hw as (_ & _ & Hf & _). unfold emit, modify, ret.
    split; [done|]. cbn. rewrite fetched_app, Hf. cbn.
    rewrite !fetched_app. cbn. by rewrite !app_nil_r, <- app_assoc.
Qed.
End BackoffTheorem.

(** ** The publisher *)

Module PublisherFacts.
Import Publisher.

Section Retry.
Context {B : Type} `{!Broker B}.

Lemma send_loop_failed n body (b b1 b2 : B) e t :
  connection_error e →
  basic_publish body b = (e, b1) → connect b1 = (Connected, b2) →
  send_loop (S n) body b t =
    send_loop n body b2 (t ++ [Attempt e; Reconnect Connected]).
Proof.
  intros He Hp Hc. cbn [send_loop]. unfold _mq_connect. rewrite Hp, Hc.
  by destruct He as [-> | ->].
Qed.

Lemma send_loop_published n body (b b1 : B) t :
  basic_publish body b = (Published, b1) →
  send_loop (S n) body b t = Returned b1 (t ++ [Attempt Published]).
Proof. intros Hp. cbn [send_loop]. by rewrite Hp. Qed.

(** C3, as amended.  [_send] tries up to three times and reconnects
    after every attempt that fails with a connection-state error.  When
    the first two attempts fail so and the third succeeds, the message
    is published by the third attempt, after two reconnects.  When all
    three attempts fail so, [_send] returns after three attempts and
    three reconnects without raising and without having published.
    Both hold when the reconnects themselves succeed: an exception of
    [_mq_connect] leaves [_send]. *)
Theorem publish_retry (body : list Byte.byte) :
  (∀ (b0 b1 b2 b3 b4 b5 : B) e1 e2,
     connection_error e1 → connection_error e2 →
     basic_publish body b0 = (e1, b1) → connect b1 = (Connected, b2) →
     basic_publish body b2 = (e2, b3) → connect b3 = (Connected, b4) →
     basic_publish body b4 = (Published, b5) →
     ∃ t, _send (Bytes body) b0 = Returned b5 t ∧
          t = [Attempt e1; Reconnect Connected; Attempt e2;
               Reconnect Connected; Attempt Published] ∧
          attempts t = 3 ∧ reconnects t = 2 ∧ delivered t = true) ∧
  (∀ (b0 b1 b2 b3 b4 b5 b6 : B) e1 e2 e3,
     connection_error e1 → connection_error e2 → connection_error e3 →
     basic_publish body b0 = (e1, b1) → connect b1 = (Connected, b2) →
     basic_publish body b2 = (e2, b3) → connect b3 = (Connected, b4) →
     basic_publish body b4 = (e3, b5) → connect b5 = (Connected, b6) →
     ∃ t, _send (Bytes body) b0 = Returned b6 t ∧
          attempts t = 3 ∧ reconnects t = 3 ∧ delivered t = false) ∧
  (∀ (b0 b1 b2 : B) e1,
     connection_error e1 →
     basic_publish body b0 = (e1, b1) → connect b1 = (ConnectFailed, b2) →
     ∃ t, _send (Bytes body) b0 = Raised ConnectError b2 t).
Proof.
  split_and!.
  - intros b0 b1 b2 b3 b4 b5 e1 e2 He1 He2 Hp1 Hc1 Hp2 Hc2 Hp3.
    eexists. split; [|split; [reflexivity|]].
    + unfold _send.
      rewrite (send_loop_failed _ _ _ _ _ _ _ He1 Hp1 Hc1).
      rewrite (send_loop_failed _ _ _ _ _ _ _ He2 Hp2 Hc2).
      by rewrite (send_loop_published _ _ _ _ _ Hp3).
    + by destruct He1 as [-> | ->], He2 as [-> | ->].
  - intros b0 b1 b2 b3 b4 b5 b6 e1 e2 e3 He1 He2 He3
      Hp1 Hc1 Hp2 Hc2 Hp3 Hc3.
    eexists. split.
    + unfold _send.
      rewrite (send_loop_failed _ _ _ _ _ _ _ He1 Hp1 Hc1).
      rewrite (send_loop_failed _ _ _ _ _ _ _ He2 Hp2 Hc2).
      by rewrite (send_loop_failed _ _ _ _ _ _ _ He3 Hp3 Hc3).
    + by destruct He1 as [-> | ->], He2 as [-> | ->], He3 as [-> | ->].
  - intros b0 b1 b2 e1 He1 Hp1 Hc1. eexists. unfold _send.
    cbn [send_loop]. unfold _mq_connect. rewrite Hp1, Hc1.
    by destruct He1 as [-> | ->].
Qed.
End Retry.

(** C3 as stated fails: with two failed attempts and a third that
    succeeds there are two reconnects, not one. *)
Lemma publish_retry_counterexample :
  ∃ b t, _send (Bytes []) Examples.twice_then_ok = Returned b t ∧
         delivered t = true ∧ reconnects t = 2 ∧ reconnects t ≠ 1.
Proof. eexists _, _. split; [reflexivity|]. by vm_compute. Qed.

Lemma publish_retry_witness :
  (∃ t, _send (Bytes []) Examples.twice_then_ok = Returned (mkTape [] []) t ∧
        t = [Attempt StreamLostError; Reconnect Connected;
             Attempt StreamLostError; Reconnect Connected;
             Attempt Published] ∧
        attempts t = 3 ∧ reconnects t = 2 ∧ delivered t = true) ∧
  (∃ t, _send (Bytes []) Examples.never_ok = Returned (mkTape [] []) t ∧
        attempts t = 3 ∧ reconnects t = 3 ∧ delivered t = false) ∧
  (∃ t, _send (Bytes []) Examples.broker_down =
          Raised ConnectError (mkTape [] []) t).
Proof.
  destruct (publish_retry (B := Tape) []) as (H1 & H2 & H3). split_and!.
  - eapply (H1 Examples.twice_then_ok); try reflexivity; by right.
  - eapply (H2 Examples.never_ok); try reflexivity; (by right) || (by left).
  - eapply (H3 Examples.broker_down); try reflexivity.
    by right.
Defined.
End PublisherFacts.

(** ** The theorems at work on concrete engines *)

Module Checks.
Import Examples.

Local Ltac calc := vm_compute; reflexivity.

(** C1 as stated fails: on a 503 [crawl] appends the target to the
    explicit queue and returns [None], which is not true. *)
Lemma crawl_return_counterexample :
  ∃ s', crawl forward (Id 100) unavailable = Ret PyNone s' ∧
        (attempt (Id 100) (world unavailable)).1 = Failed (ResponseNotOk 503) ∧
        truthy PyNone = false ∧ urls s' = [Id 100].
Proof. eexists. split; [calc|]. split_and!; calc. Qed.

Lemma crawl_return_witness :
  ∃ s', crawl backward (Id 100) historical = Ret PyTrue s' ∧
        skipped s' = skipped historical ∧ urls s' = urls historical.
Proof.
  eexists. split; [calc|].
  eapply (crawl_return backward (Id 100) historical PyTrue); calc.
Defined.

(** C2 as stated fails: a status 302 is in no bucket of the table, and
    [crawl] pushes nothing onto tier 0 and logs nothing. *)
Lemma unrecognised_bucket_counterexample :
  ∃ s', crawl forward (Id 100) redirected = Ret PyNone s' ∧
        hundredcode 302 = 300%Z ∧
        skipped s' = [[]; []; []] ∧ trace s' = [Fetch (Id 100)].
Proof. eexists. split; [calc|]. split_and!; calc. Qed.

Lemma unrecognised_bucket_witness :
  ∃ s', crawl forward (Id 100) redirected = Ret PyNone s' ∧
        skipped s' = skipped redirected ∧ urls s' = urls redirected ∧
        trace s' = trace redirected ++ [Fetch (Id 100)].
Proof.
  apply (unrecognised_bucket_ignored forward (Id 100) redirected 302);
    [calc|vm_compute; discriminate..].
Defined.

Lemma idle_backoff_witness :
  ∃ s', run_body bounded (Id 101) (set_id 101 (after bounded 1 ahead).2) =
          Ret () s' ∧
        id s' = 99%Z ∧ consecutiveNoSubmissions s' = 0%Z ∧
        default [] (skipped s' !! 0) = [].
Proof.
  assert (∃ s', run_body bounded (Id 101)
                  (set_id 101 (after bounded 1 ahead).2) = Ret () s')
    as [s' Heq] by (eexists; calc).
  exists s'. split; [exact Heq|].
  destruct (idle_backoff bounded GNew GCursor ahead (after bounded 1 ahead).2)
    as [H _]; [vm_compute; reflexivity|vm_compute; discriminate|
               calc|calc|vm_compute; discriminate| |].
  - apply (empty_turns_S bounded 0 _ (GNew, ahead) _ (Id 100));
      [apply empty_turns_O|].
    eexists. split_and!; calc.
  - specialize (H (Id 101) GCursor (set_id 101 (after bounded 1 ahead).2)
                  ltac:(calc) ltac:(calc)).
    apply (wp_Ret _ _ _ _ _ _ Heq) in H. destruct H as (Hid & Hc & Hp).
    assert (default [] (skipped ahead !! 0) = []) as Hnil by calc.
    rewrite Hnil in Hp. apply prefix_nil_inv in Hp.
    split_and!; [|exact Hc|exact Hp]. rewrite Hid. calc.
Defined.

(** C4 as stated fails: with [skipMax] 2, the two turns for targets 102
    and 101 find no content one after the other, yet when the second
    ends the counter is 1, the cursor is at 101, where this turn found
    it, and target 101 is in tier 0.  The counter stood at 1 when the
    first of the two began, left there by a 404, so the backoff came
    with the first of them. *)
Lemma idle_backoff_counterexample :
  skipMax bounded = 2%Z ∧
  turn bounded (Id 102) (Failed NoSubmission)
    (after bounded 2 Scenarios.interleaved)
    (after bounded 3 Scenarios.interleaved) ∧
  turn bounded (Id 101) (Failed NoSubmission)
    (after bounded 3 Scenarios.interleaved)
    (after bounded 4 Scenarios.interleaved) ∧
  consecutiveNoSubmissions (after bounded 2 Scenarios.interleaved).2 = 1%Z ∧
  consecutiveNoSubmissions (after bounded 4 Scenarios.interleaved).2 = 1%Z ∧
  id (after bounded 4 Scenarios.interleaved).2 = 101%Z ∧
  skipped (after bounded 4 Scenarios.interleaved).2 = [[Id 101]; []; []].
Proof.
  split_and!; try calc; (eexists; split_and!; calc).
Qed.

(** C5 as stated fails: after two turns of the loop target 100 is in
    tier 0 and in tier 1. *)
Lemma escalation_counterexample :
  ∃ ys pc s, turns forward 2 GNew flaky = Ret (ys, pc) s ∧
             skipped s = [[Id 100]; [Id 100]; []].
Proof. eexists _, _, _. split; calc. Qed.

Lemma escalation_witness :
  (∃ s', drain_one (crawl forward) 2 0 (Id 8) [Id 7] draining = Ret () s' ∧
         skipped s' = [[Id 7]; [Id 8]; [Id 3]]) ∧
  wp (checkSkips forward) pending_retries
    (fun _ s' => NoDup (concat (skipped s')))
    (fun s' => NoDup (concat (skipped s'))).
Proof.
  destruct (escalation forward (W := Script)) as [H1 H2]. split.
  - eapply (H1 0 (Id 8) [Id 7] draining PyNone); calc.
  - apply H2. compute_done.
Defined.

Lemma drain_order_witness :
  (∃ s', checkSkips forward pending_retries = Ret () s' ∧
         fetched (trace s') = [Id 3; Id 8; Id 7] ∧
         skipped s' !! 0 = Some []) ∧
  wp (crawl forward (Id 8)) draining
    (fun _ s' => skipped s' = skipped draining)
    (fun s' => skipped s' = skipped draining).
Proof.
  destruct (drain_order forward pending_retries) as [H1 H2]. split.
  - assert (∃ s', checkSkips forward pending_retries = Ret () s')
      as [s' Heq] by (eexists; calc).
    exists s'. split; [exact Heq|].
    apply (wp_Ret _ _ _ _ _ _ Heq) in H1. destruct H1 as [Hf H0].
    split; [rewrite Hf; calc|]. apply H0. vm_compute. discriminate.
  - apply H2. calc.
Defined.

(** C7 as stated fails: from 100 towards 200 with step +1 the generator
    yields 99, below the start. *)
Lemma sequencer_bounds_counterexample :
  ∃ ys pc s s',
    turns bounded 2 GNew stalled = Ret (ys, pc) s ∧
    urlGenerator bounded pc s = Ret (Some (Id 99), GCursor) s' ∧
    (99 < Z.min (startingid bounded) 200)%Z.
Proof. eexists _, _, _, _. split_and!; calc. Qed.

Lemma sequencer_bounds_witness :
  endingid backward = Some 90%Z ∧ direction backward ≠ 0%Z ∧
  ∃ s', urlGenerator backward (after backward 1 historical).1
          (after backward 1 historical).2 = Ret (Some (Id 99), GCursor) s' ∧
        (90 ≤ 99 ≤ startingid backward)%Z.
Proof.
  split; [calc|]. split; [vm_compute; discriminate|].
  eexists. split; [calc|].
  destruct (sequencer_bounds backward (W := Script) 90)
    as (_ & H & _); [calc|vm_compute; discriminate|].
  eapply (H ltac:(calc) [] (script [Failed NoSubmission] []) 1 [Id 100]
            (after backward 1 historical).1 (after backward 1 historical).2);
    calc.
Defined.

Lemma requeue_before_cursor_witness :
  1 ≤ length (urls (after forward 2 scenario_B).2) ∧
  ∃ pc' s',
    turns forward 1 GCursor (after forward 2 scenario_B).2 =
      Ret ([Id 101], pc') s' ∧
    [Id 101] = take 1 (urls (after forward 2 scenario_B).2).
Proof.
  split; [vm_compute; lia|].
  destruct (requeue_before_cursor forward (after forward 2 scenario_B).2)
    as (H & _).
  eexists _, _. split; [calc|].
  eapply (H 1); [vm_compute; lia|calc].
Defined.

(** Scenario B: target 101, re-queued by a 503, is tried again before
    102 is tried. *)
Lemma scenario_B_order :
  ∃ s', turns forward 4 GNew scenario_B =
          Ret ([Id 100; Id 101; Id 101; Id 102], GCursor) s'.
Proof. eexists. calc. Qed.

Lemma explicit_first_witness :
  urls listed ≠ [] ∧
  ∃ ys pc' s',
    turns forward 3 GNew listed = Ret (ys, pc') s' ∧
    ys = [Url "a"; Url "b"; Url "a"] ∧
    (∃ A, ys ++ urls s' = [Url "a"; Url "b"] ++ A) ∧
    (pc' = GNew ∨ pc' = GExplicit ∨ (pc' = GDone ∧ urls s' = [])).
Proof.
  split; [vm_compute; discriminate|].
  destruct (explicit_first forward listed) as (H & _);
    [vm_compute; discriminate|].
  eexists _, _, _. split; [calc|]. split; [reflexivity|].
  eapply (H 3). calc.
Defined.

Lemma no_content_discarded_witness :
  ∃ s', crawl backward (Id 100) historical = Ret PyTrue s' ∧
        skipped s' = skipped historical ∧ urls s' = urls historical ∧
        id s' = id historical ∧
        consecutiveNoSubmissions s' = consecutiveNoSubmissions historical.
Proof.
  apply (no_content_discarded backward (Id 100) historical);
    [calc|right; calc].
Defined.
End Checks.

(** ** The shape of a drain pass *)

Section LogicXFacts.
Context {W : Type}.
Implicit Type s : Crawler W.

Lemma wpx_bind {A B} (m : M W A) (k : A → M W B) s Q E :
  wpx m s (fun a s' => wpx (k a) s' Q E) E → wpx (let* a := m in k a) s Q E.
Proof. unfold wpx, bind. by destruct (m s). Qed.

Lemma wpx_mono {A} (m : M W A) s (Q Q' : A → Crawler W → Prop)
    (E E' : Exn → Crawler W → Prop) :
  wpx m s Q E → (∀ a s', Q a s' → Q' a s') → (∀ e s', E e s' → E' e s') →
  wpx m s Q' E'.
Proof. unfold wpx. destruct (m s); auto. Qed.

Lemma wpx_wp {A} (m : M W A) s (Q : A → Crawler W → Prop) E :
  wpx m s Q (fun _ => E) ↔ wp m s Q E.
Proof. done. Qed.

Lemma wpx_Ret {A} (m : M W A) s a s' (Q : A → Crawler W → Prop) E :
  m s = Ret a s' → wpx m s Q E → Q a s'.
Proof. unfold wpx. by intros ->. Qed.

Lemma wpx_Raise {A} (m : M W A) s e s' (Q : A → Crawler W → Prop) E :
  m s = Raise e s' → wpx m s Q E → E e s'.
Proof. unfold wpx. by intros ->. Qed.
End LogicXFacts.

Section TierFacts.
Implicit Type l : list (list Target).

Lemma total_insert l i t t' :
  l !! i = Some t → total (<[i := t']> l) + length t = total l + length t'.
Proof.
  intros Hi. unfold total.
  rewrite insert_take_drop by by eapply lookup_lt_Some.
  pose proof (f_equal (fun x => length (concat x)) (take_drop_middle l i t Hi))
    as Hl. cbn beta in Hl.
  rewrite !concat_app, !length_app in *. cbn in *.
  rewrite !length_app in *. lia.
Qed.

Lemma alter_insert l i (f : list Target → list Target) t :
  l !! i = Some t → alter f i l = <[i := f t]> l.
Proof.
  intros Hi. apply list_eq. intros j. destruct (decide (j = i)) as [->|Hj].
  - rewrite list_lookup_alter_eq, list_lookup_insert_eq, Hi;
      [done|by eapply lookup_lt_Some].
  - by rewrite list_lookup_alter_ne, list_lookup_insert_ne.
Qed.

Lemma alter_ge l i (f : list Target → list Target) :
  length l ≤ i → alter f i l = l.
Proof.
  intros Hi. apply list_eq. intros j. destruct (decide (j = i)) as [->|Hj].
  - rewrite list_lookup_alter_eq. by rewrite (lookup_ge_None_2 l i).
  - by rewrite list_lookup_alter_ne.
Qed.

(** Moving entries of tier [i] up, or dropping them, does not add to the
    total. *)
Lemma total_shift l i t t0 X :
  l !! i = Some t → length t0 + length X ≤ length t →
  total (alter (fun t2 => t2 ++ X) (S i) (<[i := t0]> l)) ≤ total l.
Proof.
  intros Hi Hlen. pose proof (total_insert l i t t0 Hi) as H1.
  destruct (decide (S i < length l)) as [Hlt|Hge].
  - destruct (lookup_lt_is_Some_2 (<[i := t0]> l) (S i)) as [t2 H2];
      [by rewrite length_insert|].
    rewrite (alter_insert _ _ _ _ H2).
    pose proof (total_insert _ (S i) t2 (t2 ++ X) H2) as H3.
    rewrite length_app in H3. lia.
  - rewrite alter_ge by (rewrite length_insert; lia). lia.
Qed.

Lemma shift_compose l i rest X1 X :
  alter (fun t2 => t2 ++ X) (S i)
    (<[i := []]> (alter (fun t2 => t2 ++ X1) (S i) (<[i := rest]> l))) =
  alter (fun t2 => t2 ++ (X1 ++ X)) (S i) (<[i := []]> l).
Proof.
  apply list_eq. intros j. destruct (decide (j = S i)) as [->|Hj].
  - rewrite !list_lookup_alter_eq, !list_lookup_insert_ne by lia.
    rewrite list_lookup_alter_eq, !list_lookup_insert_ne by lia.
    destruct (l !! S i); cbn; [|done]. by rewrite app_assoc.
  - rewrite !list_lookup_alter_ne by done.
    destruct (decide (j = i)) as [->|Hi].
    + destruct (decide (i < length l)).
      * by rewrite !list_lookup_insert_eq
          by (rewrite ?length_alter, ?length_insert; done).
      * rewrite !(lookup_ge_None_2 _ i);
          rewrite ?length_insert, ?length_alter, ?length_insert; [done|lia..].
    + rewrite !list_lookup_insert_ne by done.
      by rewrite list_lookup_alter_ne, list_lookup_insert_ne.
Qed.

Lemma empty_below_total l : empty_below (length l) l → total l = 0.
Proof.
  unfold total. induction l as [|t l IH]; intros H; [done|].
  rewrite (H 0 t); [|cbn; lia|done]. cbn. apply IH.
  intros j t' Hj Ht'. apply (H (S j) t'); [cbn; lia|done].
Qed.

Lemma staged_start l : staged (length l) l l.
Proof.
  unfold staged. split_and!; [done|done|lia|].
  intros j t' Hj Ht'. apply lookup_lt_Some in Ht'. lia.
Qed.

Lemma staged_shifted l0 l : staged 0 l0 l → shifted l0 l.
Proof.
  intros (Hlen & _ & H0 & Hup). split; [done|]. intros [|i] t' Ht'.
  - assert (0 < length l0) as Hlt
      by (rewrite <- Hlen; by eapply lookup_lt_Some).
    rewrite (H0 Hlt) in Ht'. congruence.
  - destruct (Hup (S i) t') as (t & Ht & Hsub); [lia|done|].
    exists t. split; [|done]. by rewrite Nat.sub_1_r in Ht.
Qed.

(** Draining tier [k], whose entries [t] the pass has not touched yet,
    takes the pass one stage on. *)
Lemma staged_step k l0 l t X :
  staged (S k) l0 l → l !! k = Some t → X `sublist_of` reverse t →
  staged k l0 (alter (fun t2 => t2 ++ X) (S k) (<[k := []]> l)).
Proof.
  intros (Hlen & Hlow & Htop & Hup) Hk HX.
  assert (k < length l) as Hlt by by eapply lookup_lt_Some.
  split_and!.
  - by rewrite length_alter, length_insert.
  - intros j Hj. rewrite list_lookup_alter_ne, list_lookup_insert_ne by lia.
    apply Hlow. lia.
  - intros _. rewrite list_lookup_alter_ne by lia.
    by rewrite list_lookup_insert_eq.
  - intros j t' Hj Ht'. destruct (decide (j = S k)) as [->|Hne].
    + rewrite list_lookup_alter_eq, list_lookup_insert_ne in Ht' by lia.
      assert (S k < length l0) as Hlt'.
      { destruct (l !! S k) eqn:E; [|done].
        rewrite <- Hlen. by eapply lookup_lt_Some. }
      rewrite (Htop Hlt') in Ht'. cbn in Ht'. injection Ht' as <-.
      exists t. split; [|done].
      replace (S k - 1) with k by lia. rewrite <- Hlow by lia. done.
    + rewrite list_lookup_alter_ne, list_lookup_insert_ne in Ht' by lia.
      apply (Hup j t'); [lia|done].
Qed.
End TierFacts.

Section DrainShape.
Context {W : Type} `{!Env W}.
Variable cfg : Config.
Implicit Type s : Crawler W.
Implicit Type idle : M W unit.

(** With a drain pass in progress [crawl] raises on two outcomes only. *)
Lemma crawl_on_drain_raise idle o u s e s' :
  checking s → crawl_on cfg idle o u s = Raise e s' →
  e = ShutdownCrawler ∧
  (o = Failed BadOrMalformedResponse ∨ ∃ c, o = Failed (Other c)).
Proof.
  intros Hs. unfold checking in Hs.
  destruct o as [p|[]]; cbn [crawl_on];
    unfold errorHandlers, noSubmissionHandler, responseNotOkHandlers, skipUrl,
      shutdown, log, sleep, append_urls, emit, bind, get, modify, ret, raise;
    cbn; rewrite ?Hs, ?andb_false_r; intros Hr;
    repeat match goal with
      | _ => progress simplify_eq
      | _ => progress (cbn in Hr)
      | _ => rewrite Hs in Hr
      | H : context [if ?b then _ else _] |- _ => destruct b eqn:?
      | H : context [match ?x with _ => _ end] |- _ => destruct x eqn:?
      end; eauto.
Qed.

Lemma crawl_with_drain_raise idle u s e s' :
  checking s → crawl_with cfg idle u s = Raise e s' →
  e = ShutdownCrawler ∧
  ((attempt u (world s)).1 = Failed BadOrMalformedResponse ∨
   ∃ c, (attempt u (world s)).1 = Failed (Other c)).
Proof.
  intros Hs. rewrite crawl_with_eq. by apply crawl_on_drain_raise.
Qed.

Lemma drain_one_shape idle i u rest s :
  checking s → skipped s !! i = Some (rest ++ [u]) →
  wpx (drain_one (crawl_with cfg idle) (Z.of_nat (length (skipped s)) - 1)
         i u rest) s
    (fun _ s' =>
       checking s' ∧
       ∃ X, X `sublist_of` [u] ∧
            skipped s' =
              alter (fun t => t ++ X) (S i) (<[i := rest]> (skipped s)))
    (fun e s' =>
       e = ShutdownCrawler ∧ checking s' ∧
       skipped s' = <[i := rest]> (skipped s)).
Proof.
  intros Hs Hi. unfold drain_one. apply wpx_bind. unfold wpx at 1, modify.
  set (s1 := set_skipped _ s). apply wpx_bind.
  assert (checking s1) as Hs1 by done.
  pose proof (crawl_with_safe cfg idle u s1 Hs1) as Hsafe. unfold wp in Hsafe.
  unfold wpx at 1.
  destruct (crawl_with cfg idle u s1) as [r s2|e s2|] eqn:Hc; [| |done].
  - destruct Hsafe as (Hc2 & Hsk & _). cbn in Hsk.
    assert (alter (fun t : list Target => t ++ []) (S i)
              (<[i := rest]> (skipped s)) = <[i := rest]> (skipped s)) as Hid
      by (apply list_alter_id; intros; by rewrite app_nil_r).
    destruct (truthy r).
    { unfold wpx, ret. split; [done|]. exists []. split; [apply sublist_nil_l|].
      by rewrite Hid. }
    destruct (Z.of_nat i <? Z.of_nat (length (skipped s)) - 1)%Z eqn:Hlt.
    + apply Z.ltb_lt in Hlt. unfold wpx, append_tier. rewrite Hsk.
      destruct (lookup_lt_is_Some_2 (<[i:=rest]> (skipped s)) (S i))
        as [t2 Ht2]; [rewrite length_insert; lia|].
      rewrite Ht2. split; [done|]. exists [u]. split; [done|]. cbn.
      by rewrite (alter_insert _ _ _ _ Ht2).
    + unfold wpx, ret. split; [done|]. exists []. split; [apply sublist_nil_l|].
      by rewrite Hid.
  - destruct Hsafe as (Hc2 & Hsk & _). cbn in Hsk.
    apply crawl_with_drain_raise in Hc as [-> _]; done.
Qed.

Lemma drain_tier_shape idle :
  ∀ fuel i s t,
    checking s → skipped s !! i = Some t → length t ≤ fuel →
    wpx (drain_tier fuel (crawl_with cfg idle)
           (Z.of_nat (length (skipped s)) - 1) i) s
      (fun _ s' =>
         checking s' ∧
         ∃ X, X `sublist_of` reverse t ∧
              skipped s' =
                alter (fun t2 => t2 ++ X) (S i) (<[i := []]> (skipped s)))
      (fun e s' =>
         e = ShutdownCrawler ∧ checking s' ∧
         total (skipped s') < total (skipped s)).
Proof.
  induction fuel as [|fuel IH]; intros i s t Hs Hi Hlen.
  - destruct t; [|cbn in Hlen; lia]. unfold wpx; cbn. rewrite Hi. cbn.
    split; [done|]. exists []. split; [done|].
    rewrite list_alter_id by (intros; by rewrite app_nil_r).
    by rewrite list_insert_id.
  - unfold wpx; cbn. rewrite Hi. destruct (pop_last t) as [[u rest]|] eqn:Hp.
    + apply pop_last_Some in Hp as ->.
      set (maxlen := (Z.of_nat (length (skipped s)) - 1)%Z).
      fold (wpx (drain_one (crawl_with cfg idle) maxlen i u rest;;
                 drain_tier fuel (crawl_with cfg idle) maxlen i) s
              (fun _ s' =>
                 checking s' ∧
                 ∃ X, X `sublist_of` reverse (rest ++ [u]) ∧
                      skipped s' =
                        alter (fun t2 => t2 ++ X) (S i)
                          (<[i := []]> (skipped s)))
              (fun e s' =>
                 e = ShutdownCrawler ∧ checking s' ∧
                 total (skipped s') < total (skipped s))).
      apply wpx_bind.
      eapply wpx_mono; [by apply drain_one_shape| |]; cbn beta.
      * intros [] s1 (Hc1 & X1 & HX1 & Hsk1).
        assert (length (skipped s1) = length (skipped s)) as Hl1
          by by rewrite Hsk1, length_alter, length_insert.
        assert (skipped s1 !! i = Some rest) as Hi1.
        { rewrite Hsk1, list_lookup_alter_ne by lia.
          apply list_lookup_insert_eq. by eapply lookup_lt_Some. }
        assert (total (skipped s1) ≤ total (skipped s)) as Ht1.
        { rewrite Hsk1. apply (total_shift _ _ (rest ++ [u])); [done|].
          apply sublist_length in HX1. rewrite length_app. cbn in *. lia. }
        rewrite length_app in Hlen. cbn in Hlen.
        unfold maxlen. rewrite <- Hl1.
        eapply wpx_mono; [apply (IH i s1 rest); [done..|lia]| |]; cbn beta.
        -- intros [] s2 (Hc2 & X & HX & Hsk2). split; [done|].
           exists (X1 ++ X). split.
           ++ rewrite reverse_snoc. by apply (sublist_app _ [u]).
           ++ by rewrite Hsk2, Hsk1, shift_compose.
        -- intros e s2 (-> & Hc2 & Ht2). split_and!; [done..|lia].
      * intros e s1 (-> & Hc1 & Hsk1). split_and!; [done..|].
        pose proof (total_insert _ _ _ rest Hi) as Ht.
        rewrite <- Hsk1, length_app in Ht. cbn in Ht. lia.
    + apply pop_last_None in Hp as ->. split; [done|].
      exists []. split; [done|].
      rewrite list_alter_id by (intros; by rewrite app_nil_r).
      by rewrite list_insert_id.
Qed.

Lemma staged_total k l0 l : staged k l0 l → total l ≤ total l0.
Proof.
  unfold total. revert k l0. induction l as [|t l IH]; intros k l0 H; [cbn; lia|].
  destruct H as (Hlen & Hlow & Htop & Hup).
  destruct l0 as [|t0 l0]; [done|]. cbn in Hlen.
  destruct k as [|k].
  - (* tier 0 is empty and every later tier comes from the one below *)
    specialize (Htop ltac:(cbn; lia)). cbn in Htop. injection Htop as ->.
    cbn [concat app].
    clear Hlow IH. revert t0 l0 Hlen Hup.
    induction l as [|t1 l IH]; intros t0 l0 Hlen Hup; [cbn; lia|].
    destruct l0 as [|t0' l0]; [done|].
    destruct (Hup 1 t1) as (t & Ht & Hsub); [lia|done|].
    cbn in Ht. injection Ht as <-. apply sublist_length in Hsub.
    rewrite length_reverse in Hsub. cbn. rewrite !length_app.
    assert (length (concat l) ≤ length (concat (t0' :: l0))) as Hrec.
    { apply IH; [cbn in *; lia|].
      intros j t' Hj Ht'. destruct j as [|j]; [lia|].
      destruct (Hup (S (S j)) t') as (t & Ht & Hs); [lia|done|].
      exists t. split; [|done]. cbn in *. by rewrite Nat.sub_0_r in *. }
    cbn in Hrec. rewrite length_app in Hrec. lia.
  - pose proof (Hlow 0 ltac:(lia)) as H0. cbn in H0. injection H0 as ->.
    cbn. rewrite !length_app.
    assert (length (concat l) ≤ length (concat l0)); [|lia].
    apply (IH k). split_and!.
    + cbn in *; lia.
    + intros j Hj. apply (Hlow (S j)). lia.
    + intros Hk. apply Htop. cbn. lia.
    + intros j t' Hj Ht'. destruct (Hup (S j) t') as (t & Ht & Hs); [lia|done|].
      exists t. split; [|done]. destruct j; [lia|].
      cbn in *. by rewrite Nat.sub_0_r in *.
Qed.

Lemma drain_tiers_shape idle l0 :
  ∀ k s,
    checking s → staged k l0 (skipped s) → k ≤ length l0 →
    wpx (for_each (reverse (seq 0 k))
           (fun i s => drain_tier (length (default [] (skipped s !! i)))
                         (crawl_with cfg idle)
                         (Z.of_nat (length l0) - 1) i s)) s
      (fun _ s' => checking s' ∧ staged 0 l0 (skipped s'))
      (fun e s' =>
         e = ShutdownCrawler ∧ checking s' ∧ total (skipped s') < total l0).
Proof.
  induction k as [|k IH]; intros s Hs Hst Hk.
  - unfold wpx; cbn. done.
  - rewrite seq_S, reverse_snoc. cbn [for_each plus].
    assert (length (skipped s) = length l0) as Hlen by apply Hst.
    destruct (lookup_lt_is_Some_2 (skipped s) k) as [t Ht]; [lia|].
    apply wpx_bind. unfold wpx at 1.
    pose proof (drain_tier_shape idle (length t) k s t Hs Ht (le_n _)) as Hd.
    unfold wpx at 1 in Hd. rewrite Ht. cbn [default]. rewrite Hlen in Hd.
    destruct (drain_tier _ _ _ _ _) as [[] s1|e s1|]; [| |done].
    + destruct Hd as (Hc1 & X & HX & Hsk1).
      apply (IH s1); [done| |lia]. rewrite Hsk1. by apply (staged_step _ _ _ t).
    + destruct Hd as (-> & Hc1 & Ht1). split_and!; [done..|].
      apply staged_total in Hst. lia.
Qed.

(** A whole drain pass: it ends; when it returns, every entry left sits
    one tier above the one it was in; when it raises, the exception is
    [ShutdownCrawler], [checkingSkips] stays set and the tiers have lost
    an entry. *)
Lemma checkSkips_shape idle s :
  wpx (checkSkips_with (crawl_with cfg idle)) s
    (fun _ s' => checkingSkips s' = false ∧ shifted (skipped s) (skipped s'))
    (fun e s' =>
       e = ShutdownCrawler ∧ checkingSkips s' = true ∧
       total (skipped s') < total (skipped s)).
Proof.
  unfold checkSkips_with.
  apply wpx_bind. unfold wpx at 1, modify. apply wpx_bind. unfold wpx at 1, get.
  apply wpx_bind. set (s1 := set_checkingSkips true s).
  change (skipped s1) with (skipped s).
  eapply wpx_mono;
    [apply (drain_tiers_shape idle (skipped s) (length (skipped s)) s1);
       [done|apply staged_start|done]| |]; cbn beta.
  - intros [] s2 (Hc & Hst). unfold wpx, modify. split; [done|].
    by apply staged_shifted.
  - intros e s2 (-> & Hc & Ht). done.
Qed.
End DrainShape.

Section DrainTheorems.
Context {W : Type} `{!Env W}.
Variable cfg : Config.
Implicit Type s : Crawler W.

(** X1.  A drain pass that returns has moved every entry it leaves
    exactly one tier up: tier 0 is empty, tier [i+1] holds entries that
    were in tier [i], in the order the pass popped them (the reverse of
    their order in tier [i]), and nothing that was in the last tier is
    left.  The number of tiers is as before. *)
Theorem drain_shift (s : Crawler W) :
  wp (checkSkips cfg) s
    (fun _ s' =>
       checkingSkips s' = false ∧
       length (skipped s') = length (skipped s) ∧
       ∀ j t', skipped s' !! j = Some t' →
         match j with
         | O => t' = []
         | S i => ∃ t, skipped s !! i = Some t ∧ t' `sublist_of` reverse t
         end)
    (fun _ => True).
Proof.
  apply wpx_wp.
  eapply wpx_mono; [apply (checkSkips_shape cfg diverge s)| |]; cbn beta.
  - intros _ s' (Hc & Hlen & Hsh). done.
  - done.
Qed.

(** X2.  A drain pass that raises: the exception is [ShutdownCrawler];
    [checkingSkips] is left set, since the assignment that clears it is
    not reached; the target whose crawl raised had been popped and is put
    back on no tier, so the tiers hold fewer entries than before; cursor
    and counter are as before. *)
Theorem checkSkips_interrupted (s : Crawler W) (e : Exn) (s' : Crawler W) :
  checkSkips cfg s = Raise e s' →
  e = ShutdownCrawler ∧ checkingSkips s' = true ∧
  totalSkipped s' < totalSkipped s ∧
  id s' = id s ∧ consecutiveNoSubmissions s' = consecutiveNoSubmissions s.
Proof.
  intros Hr.
  pose proof (wpx_Raise _ _ _ _ _ _ Hr (checkSkips_shape cfg diverge s))
    as (-> & Hc & Ht).
  pose proof (checkSkips_wp cfg s) as Hw. unfold wp in Hw. rewrite Hr in Hw.
  destruct Hw as ((Hid & Hn & _) & _). done.
Qed.

Lemma shifted_empty_below k l l' :
  shifted l l' → empty_below k l → empty_below (S k) l'.
Proof.
  intros [Hlen Hsh] He j t' Hj Ht'. specialize (Hsh j t' Ht').
  destruct j as [|i]; [done|]. destruct Hsh as (t & Ht & Hsub).
  rewrite (He i t) in Hsub by (done || lia). by apply sublist_nil_r in Hsub.
Qed.

Lemma shutdown_drain_wp :
  ∀ k s,
    k ≤ length (skipped s) →
    empty_below (length (skipped s) - k) (skipped s) →
    wp (shutdown_drain cfg k) s
      (fun _ s' => totalSkipped s' = 0 ∧
                   length (skipped s') = length (skipped s))
      (fun s' => checkingSkips s' = true).
Proof.
  induction k as [|k IH]; intros s Hk He.
  - unfold wp; cbn. split; [|done]. apply empty_below_total.
    by rewrite Nat.sub_0_r in He.
  - cbn [shutdown_drain]. apply wp_bind. unfold wp at 1, get.
    case_bool_decide as Hz; [done|].
    apply wp_bind. unfold wp at 1, emit, modify.
    set (s1 := set_trace _ s). apply wp_bind. apply wpx_wp.
    eapply wpx_mono; [apply (checkSkips_shape cfg diverge s1)| |]; cbn beta.
    + intros [] s2 (Hc & Hsh). change (skipped s1) with (skipped s) in Hsh.
      assert (length (skipped s2) = length (skipped s)) as Hlen by apply Hsh.
      apply wpx_wp.
      eapply wp_mono; [apply (IH s2); [lia|]| |]; cbn beta.
      * rewrite Hlen.
        replace (length (skipped s) - k) with (S (length (skipped s) - S k))
          by lia.
        by eapply shifted_empty_below.
      * intros _ s3 [H0 Hl3]. split; [done|congruence].
      * done.
    + intros e s2 (_ & Hc & _). done.
Qed.

(** X3.  The shutdown drain of [run] ends, and when it returns no tier
    holds an entry: a pass moves what it leaves one tier up, so as many
    passes as there are tiers empty them all.  The loop is left by an
    exception only in the middle of a drain pass. *)
Theorem shutdown_drain_empties (s : Crawler W) :
  wp (shutdown_drain cfg (length (skipped s))) s
    (fun _ s' => totalSkipped s' = 0 ∧ pending_level s' = Info)
    (fun s' => checkingSkips s' = true).
Proof.
  eapply wp_mono; [apply (shutdown_drain_wp (length (skipped s)) s)| |];
    cbn beta.
  - done.
  - intros j t Hj. lia.
  - intros _ s' [H0 _]. split; [done|]. unfold pending_level.
    by rewrite bool_decide_eq_true_2.
  - done.
Qed.

(** X4.  [run] lets no exception out: whatever the main loop or the
    shutdown drain raises is caught and logged.  When the main loop ends,
    by exhausting the generator or by an exception, [run] returns, and
    the last thing it does is write the final log record, at level
    [info] when no tier holds an entry and at level [error] otherwise. *)
Theorem run_never_raises (fuel : nat) (more : list Target) (s : Crawler W) :
  (∀ e s', run cfg fuel more s ≠ Raise e s') ∧
  (run_loop cfg fuel GNew (set_urls (urls s ++ more) s) ≠ Diverge →
   ∃ s' T lvl,
     run cfg fuel more s = Ret () s' ∧
     trace s' = T ++ [Log lvl Finished] ∧
     (lvl = Info ↔ totalSkipped s' = 0) ∧
     (lvl = Error ↔ totalSkipped s' ≠ 0)).
Proof.
  assert (∀ s1 : Crawler W,
    ∃ s2, (let* s := get in
           logged (shutdown_drain cfg (length (skipped s)))
             pending_level pending_level Finished) s1 =
          Ret () (set_trace (trace s2 ++ [Log (pending_level s2) Finished]) s2))
    as Hdrain.
  { intros s1. unfold bind, get, logged.
    pose proof (shutdown_drain_empties s1) as Hw. unfold wp in Hw.
    destruct (shutdown_drain _ _ _); [by eexists..|done]. }
  assert (∀ s2 : Crawler W,
    (pending_level s2 = Info ↔ totalSkipped s2 = 0) ∧
    (pending_level s2 = Error ↔ totalSkipped s2 ≠ 0)) as Hlvl.
  { intros s2. unfold pending_level. case_bool_decide; split; split; done. }
  set (s0 := set_urls (urls s ++ more) s).
  set (drain := let* s := get in
                logged (shutdown_drain cfg (length (skipped s)))
                  pending_level pending_level Finished) in *.
  assert (run cfg fuel more s =
          match run_loop cfg fuel GNew s0 with
          | Ret _ s1 =>
              drain (set_trace (trace s1 ++ [Log Info ShuttingDown]) s1)
          | Raise _ s1 =>
              drain (set_trace (trace s1 ++ [Log Error ShuttingDown]) s1)
          | Diverge => Diverge
          end) as ->.
  { unfold run, bind at 1 2, modify at 1, logged at 1. fold s0.
    by destruct (run_loop cfg fuel GNew s0). }
  destruct (run_loop cfg fuel GNew s0) as [[] s1|x s1|].
  - destruct (Hdrain (set_trace (trace s1 ++ [Log Info ShuttingDown]) s1))
      as [s2 Hx]. rewrite Hx. split; [done|]. intros _.
    eexists _, _, _. split; [reflexivity|]. cbn. split; [reflexivity|].
    apply (Hlvl s2).
  - destruct (Hdrain (set_trace (trace s1 ++ [Log Error ShuttingDown]) s1))
      as [s2 Hx]. rewrite Hx. split; [done|]. intros _.
    eexists _, _, _. split; [reflexivity|]. cbn. split; [reflexivity|].
    apply (Hlvl s2).
  - split; done.
Qed.
End DrainTheorems.

Section Dispatch.
Context {W : Type} `{!Env W}.
Variable cfg : Config.
Implicit Type s : Crawler W.
Implicit Type idle : M W unit.

Lemma idle_raises s e s' : idle cfg s = Raise e s' → e = ShutdownCrawler.
Proof.
  unfold idle, idle_with, bind. intros Hr.
  pose proof (checkSkips_shape cfg diverge s) as Hw. unfold wpx in Hw.
  change (checkSkips_with (crawl_with cfg diverge))
    with (checkSkips_with (crawl_at cfg 0)) in Hw.
  destruct (checkSkips_with (crawl_at cfg 0) s) as [[] s1|x s1|];
    [done| |done].
  destruct Hw as [-> _]. by simplify_eq.
Qed.

Lemma append_tier_0 u t0 rest s :
  skipped s = t0 :: rest →
  append_tier 0 u s = Ret () (set_skipped ((t0 ++ [u]) :: rest) s).
Proof. intros Hl. unfold append_tier. by rewrite Hl. Qed.

(** [skipUrl] from a handler of the crawl of [u], outside a drain pass. *)
Lemma skipUrl_push (func : option (M W unit)) u t0 rest s :
  checkingSkips s = false → url s = Some u → skipped s = t0 :: rest →
  skipUrl func s =
    match func with
    | Some f => (f;; ret PyNone) (set_skipped ((t0 ++ [u]) :: rest) s)
    | None => Ret PyNone (set_skipped ((t0 ++ [u]) :: rest) s)
    end.
Proof.
  intros Hc Hu Hl. unfold skipUrl, bind at 1 2, get. rewrite Hc, Hu.
  rewrite (append_tier_0 _ _ _ _ Hl). by destruct func.
Qed.

Lemma skipUrl_no_tier (func : option (M W unit)) u s :
  checkingSkips s = false → url s = Some u → skipped s = [] →
  skipUrl func s = Raise IndexError s.
Proof.
  intros Hc Hu Hl. unfold skipUrl, bind at 1 2, get. rewrite Hc, Hu.
  unfold append_tier. by rewrite Hl.
Qed.

Lemma skipUrl_drain (func : option (M W unit)) s :
  checkingSkips s = true →
  skipUrl func s =
    match func with
    | Some f => (f;; ret PyNone) s
    | None => Ret PyNone s
    end.
Proof.
  intros Hc. unfold skipUrl, bind at 1 2, get. rewrite Hc.
  by destruct func.
Qed.

Lemma noSubmissionHandler_raises u s e s' :
  skipped s ≠ [] → url s = Some u →
  noSubmissionHandler cfg (idle cfg) s = Raise e s' → e = ShutdownCrawler.
Proof.
  intros Hne Hu. destruct (skipped s) as [|t0 rest] eqn:Hl; [done|].
  unfold noSubmissionHandler. unfold bind at 1, get at 1.
  destruct ((0 <? direction cfg)%Z && negb (checkingSkips s)) eqn:Hc; [|done].
  apply andb_true_iff in Hc as [_ Hc]. apply negb_true_iff in Hc.
  unfold bind at 1. rewrite (skipUrl_push None u t0 rest) by done.
  unfold bind, modify, get, log, emit, ret. cbn.
  destruct (skipMax cfg <=? consecutiveNoSubmissions s + 1)%Z; [|done].
  cbn [skipped set_consecutiveNoSubmissions set_skipped].
  match goal with |- context [idle cfg ?st] =>
    destruct (idle cfg st) eqn:Hi end; [done| |done].
  intros. simplify_eq. by eapply idle_raises.
Qed.

(** With at least one tier, [ShutdownCrawler] is the only exception
    [crawl] raises. *)
Lemma crawl_raises u s e s' :
  skipped s ≠ [] → crawl cfg u s = Raise e s' → e = ShutdownCrawler.
Proof.
  intros Hne. unfold crawl. rewrite crawl_with_eq.
  set (s1 := begun u _ s).
  destruct (attempt u (world s)).1 as [p|err] eqn:Ho.
  - cbn [crawl_on]. unfold bind, modify, sleep, emit, ret.
    by destruct (negb (p =? 0)%Z && calm cfg).
  - assert (err = NoSubmission ∨ err ≠ NoSubmission) as [->|Hns]
      by (destruct err; (by left) || (by right)).
    { cbn [crawl_on in_doNotLog]. unfold bind at 1 2, get, ret.
      cbn [errorHandlers]. by apply (noSubmissionHandler_raises u). }
    destruct (checkingSkips s) eqn:Hc.
    { intros Hr. by apply crawl_on_drain_raise in Hr as [-> _]. }
    destruct (skipped s) as [|t0 rest] eqn:Hl; [done|].
    assert (∀ func, skipUrl func s1 =
      match func with
      | Some f => (f;; ret PyNone) (set_skipped ((t0 ++ [u]) :: rest) s1)
      | None => Ret PyNone (set_skipped ((t0 ++ [u]) :: rest) s1)
      end) as Hpush by (intros; by apply skipUrl_push).
    assert (∀ x (func : option (M W unit)),
      skipUrl func (set_trace x s1) =
      match func with
      | Some f =>
          (f;; ret PyNone) (set_skipped ((t0 ++ [u]) :: rest) (set_trace x s1))
      | None => Ret PyNone (set_skipped ((t0 ++ [u]) :: rest) (set_trace x s1))
      end) as Hpush' by (intros; by apply skipUrl_push).
    destruct err; try done; cbn [crawl_on in_doNotLog in_errorHandlers];
      unfold errorHandlers, responseNotOkHandlers, shutdown, raise, bind, get,
        ret, log, sleep, append_urls, emit, modify;
      rewrite ?Hpush, ?Hpush';
      unfold bind, ret, log, sleep, emit, modify;
      repeat case_match; intros; simplify_eq; try done;
      rewrite ?Hpush, ?Hpush' in *;
      unfold bind, ret, log, sleep, emit, modify in *; by simplify_eq.
Qed.

(** X5.  The two outcomes that shut the crawler down.  On a
    [BadOrMalformedResponse] and on an exception of a class without an
    entry in [errorHandlers], [crawl] raises [ShutdownCrawler]; the target
    is pushed onto no tier and is not re-queued.  The log record in
    between is written at level [info] when the class is in the table and
    at level [error] when it is not; looking the handler up adds the class
    to the table, so a class is reported at level [error] once.  Raised
    the other way round: with at least one tier [crawl] raises nothing but
    [ShutdownCrawler], and during a drain pass it raises on these two
    outcomes only. *)
Theorem fatal_errors (u : Target) (s : Crawler W) :
  (∀ e, (attempt u (world s)).1 = Failed e →
     e = BadOrMalformedResponse ∨ (∃ c, e = Other c) →
     ∃ s', crawl cfg u s = Raise ShutdownCrawler s' ∧
           skipped s' = skipped s ∧ urls s' = urls s ∧ id s' = id s ∧
           trace s' =
             trace s ++ [Fetch u;
                         Log (if in_errorHandlers e s then Info else Error)
                           Logdata] ∧
           in_errorHandlers e s' = true) ∧
  (∀ x s', crawl cfg u s = Raise x s' →
     (skipped s ≠ [] → x = ShutdownCrawler) ∧
     (checkingSkips s = true →
      x = ShutdownCrawler ∧
      ∃ e, (attempt u (world s)).1 = Failed e ∧
           (e = BadOrMalformedResponse ∨ ∃ c, e = Other c))).
Proof.
  split.
  - intros e Ho He. unfold crawl. rewrite crawl_with_eq, Ho.
    destruct He as [->|[c ->]].
    + eexists. split; [reflexivity|]. cbn.
      split_and!; try done. by rewrite <- app_assoc.
    + cbn [crawl_on in_doNotLog].
      unfold errorHandlers, in_errorHandlers, shutdown, raise, bind, get,
        modify, log, emit, ret. cbn.
      destruct (decide (c ∈ registered s)) as [Hin|Hnin].
      * rewrite !bool_decide_eq_true_2 by done. cbn.
        rewrite !bool_decide_eq_true_2 by done.
        eexists. split; [reflexivity|]. cbn.
        split_and!; try done; [by rewrite <- app_assoc|].
        by rewrite bool_decide_eq_true.
      * rewrite !bool_decide_eq_false_2 by done. cbn.
        rewrite !bool_decide_eq_false_2 by done.
        eexists. split; [reflexivity|]. cbn.
        split_and!; try done; [by rewrite <- app_assoc|].
        rewrite bool_decide_eq_true. by constructor.
  - intros x s' Hr. split.
    + intros Hne. by eapply crawl_raises.
    + intros Hc. unfold crawl in Hr.
      apply crawl_with_drain_raise in Hr as [-> Ho]; [|done].
      split; [done|]. destruct Ho as [Ho|[c Ho]]; eexists; eauto.
Qed.

(** X6.  The failures that are set aside for a later retry, and what
    each costs.  Outside a drain pass [crawl] appends the target to the
    end of tier 0, once, re-queues nothing, leaves cursor and counter
    alone and returns [None]; what it does besides depends on the error:
    an hour of sleep for [WebsiteOffline] and for a 5xx status other than
    503, five minutes for a [ConnectionError], one minute for a
    [ReadTimeout], a warning for a 4xx status, an error record for a
    status below 100 other than -1, nothing for [InvalidResponseType] and
    [SSLError].  All but the not-ok statuses are first logged at level
    [info].  Without any tier the push raises [IndexError] before the
    sleep.  During a drain pass nothing is pushed. *)
Theorem skippable_failures (u : Target) (s : Crawler W) (e : ErrorKind)
    (effects : list Event) :
  (attempt u (world s)).1 = Failed e →
  (e = WebsiteOffline ∧ effects = [Log Info Logdata; Sleep 3600]) ∨
  (e = ConnectionError ∧ effects = [Log Info Logdata; Sleep 300]) ∨
  (e = ReadTimeout ∧ effects = [Log Info Logdata; Sleep 60]) ∨
  (e = InvalidResponseType ∧ effects = [Log Info Logdata]) ∨
  (e = SSLError ∧ effects = [Log Info Logdata]) ∨
  (∃ st, e = ResponseNotOk st ∧ st ≠ 503%Z ∧ st ≠ (-1)%Z ∧
         ((hundredcode st = 0%Z ∧ effects = [Log Error NotOkStatus]) ∨
          (hundredcode st = 400%Z ∧ effects = [Log Warning NotOkStatus]) ∨
          (hundredcode st = 500%Z ∧ effects = [Sleep 3600]))) →
  (checkingSkips s = false →
   ∀ t0 rest, skipped s = t0 :: rest →
     ∃ s', crawl cfg u s = Ret PyNone s' ∧
           skipped s' = (t0 ++ [u]) :: rest ∧
           urls s' = urls s ∧ id s' = id s ∧
           consecutiveNoSubmissions s' = consecutiveNoSubmissions s ∧
           trace s' = trace s ++ Fetch u :: effects) ∧
  (checkingSkips s = false → skipped s = [] →
   ∃ s' T, crawl cfg u s = Raise IndexError s' ∧
           trace s' = trace s ++ Fetch u :: T ∧ T `prefix_of` effects ∧
           Forall (fun x => ∀ n, x ≠ Sleep n) T) ∧
  (checkingSkips s = true →
   ∃ s', crawl cfg u s = Ret PyNone s' ∧
         skipped s' = skipped s ∧ urls s' = urls s ∧
         trace s' = trace s ++ Fetch u :: effects).
Proof.
  intros Ho He. unfold crawl. rewrite crawl_with_eq, Ho.
  set (s1 := begun u _ s).
  assert (∀ st, st ≠ 503%Z → st ≠ (-1)%Z →
    crawl_on cfg (idle cfg) (Failed (ResponseNotOk st)) u s1 =
    match responseNotOkHandlers (hundredcode st) with
    | Some h => (h;; ret PyNone) s1
    | None => Ret PyNone s1
    end) as Hnotok.
  { intros st H1 H2. cbn [crawl_on].
    rewrite (proj2 (Z.eqb_neq st 503)), (proj2 (Z.eqb_neq st (-1))) by done.
    by destruct (responseNotOkHandlers _). }
  split_and!.
  - intros Hc t0 rest Hl.
    assert (∀ x (func : option (M W unit)),
      skipUrl func (set_trace x s1) =
      match func with
      | Some f =>
          (f;; ret PyNone) (set_skipped ((t0 ++ [u]) :: rest) (set_trace x s1))
      | None => Ret PyNone (set_skipped ((t0 ++ [u]) :: rest) (set_trace x s1))
      end) as Hpush' by (intros; by apply skipUrl_push).
    assert (∀ func, skipUrl func s1 =
      match func with
      | Some f => (f;; ret PyNone) (set_skipped ((t0 ++ [u]) :: rest) s1)
      | None => Ret PyNone (set_skipped ((t0 ++ [u]) :: rest) s1)
      end) as Hpush by (intros; by apply skipUrl_push).
    destruct He as [[-> ->]|[[-> ->]|[[-> ->]|[[-> ->]|[[-> ->]|
      (st & -> & H503 & Hm1 & Hb)]]]]].
    1-5: cbn [crawl_on in_doNotLog in_errorHandlers];
      unfold errorHandlers, bind, get, ret, log, emit, modify;
      rewrite Hpush'; unfold bind, ret, sleep, emit, modify;
      (eexists; split; [reflexivity|]); cbn;
      split_and!; try done; by rewrite <- !app_assoc.
    rewrite Hnotok by done. unfold responseNotOkHandlers.
    destruct Hb as [[-> ->]|[[-> ->]|[-> ->]]]; cbn [Z.eqb Pos.eqb];
      unfold bind at 1; rewrite Hpush;
      unfold bind, ret, sleep, log, emit, modify;
      (eexists; split; [reflexivity|]); cbn;
      split_and!; try done; by rewrite <- !app_assoc.
  - intros Hc Hl.
    assert (∀ x (func : option (M W unit)),
      skipUrl func (set_trace x s1) = Raise IndexError (set_trace x s1))
      as Hpush' by (intros; by apply (skipUrl_no_tier _ u)).
    assert (∀ func : option (M W unit),
      skipUrl func s1 = Raise IndexError s1)
      as Hpush by (intros; by apply (skipUrl_no_tier _ u)).
    destruct He as [[-> ->]|[[-> ->]|[[-> ->]|[[-> ->]|[[-> ->]|
      (st & -> & H503 & Hm1 & Hb)]]]]].
    1-5: cbn [crawl_on in_doNotLog in_errorHandlers];
      unfold errorHandlers, bind, get, ret, log, emit, modify;
      rewrite Hpush'; exists (set_trace (trace s1 ++ [Log Info Logdata]) s1),
        [Log Info Logdata]; (split; [reflexivity|]); cbn;
      (split; [by rewrite <- !app_assoc|]);
      (split; [by eexists|]); by repeat constructor.
    rewrite Hnotok by done. unfold responseNotOkHandlers.
    destruct Hb as [[-> ->]|[[-> ->]|[-> ->]]]; cbn [Z.eqb Pos.eqb];
      unfold bind at 1; rewrite Hpush;
      exists s1, []; (split; [reflexivity|]); cbn;
      (split; [done|]); (split; [apply prefix_nil|]); constructor.
  - intros Hc.
    assert (∀ x (func : option (M W unit)),
      skipUrl func (set_trace x s1) =
      match func with
      | Some f => (f;; ret PyNone) (set_trace x s1)
      | None => Ret PyNone (set_trace x s1)
      end) as Hpush' by (intros; by apply skipUrl_drain).
    assert (∀ func, skipUrl func s1 =
      match func with
      | Some f => (f;; ret PyNone) s1
      | None => Ret PyNone s1
      end) as Hpush by (intros; by apply skipUrl_drain).
    destruct He as [[-> ->]|[[-> ->]|[[-> ->]|[[-> ->]|[[-> ->]|
      (st & -> & H503 & Hm1 & Hb)]]]]].
    1-5: cbn [crawl_on in_doNotLog in_errorHandlers];
      unfold errorHandlers, bind, get, ret, log, emit, modify;
      rewrite Hpush'; unfold bind, ret, sleep, emit, modify;
      (eexists; split; [reflexivity|]); cbn;
      split_and!; try done; by rewrite <- !app_assoc.
    rewrite Hnotok by done. unfold responseNotOkHandlers.
    destruct Hb as [[-> ->]|[[-> ->]|[-> ->]]]; cbn [Z.eqb Pos.eqb];
      unfold bind at 1; rewrite Hpush;
      unfold bind, ret, sleep, log, emit, modify;
      (eexists; split; [reflexivity|]); cbn;
      split_and!; try done; by rewrite <- !app_assoc.
Qed.

(** X7.  A target without content, met going forward outside a drain
    pass while the counter stays below [skipMax]: [crawl] returns
    [False], the target is appended to the end of tier 0, the counter
    goes up by one, and nothing else happens: no rewind, no drain pass, no
    sleep, no log record. *)
Theorem no_content_counted (u : Target) (s : Crawler W) :
  (attempt u (world s)).1 = Failed NoSubmission →
  (0 < direction cfg)%Z → checkingSkips s = false →
  (consecutiveNoSubmissions s + 1 < skipMax cfg)%Z →
  ∀ t0 rest, skipped s = t0 :: rest →
    ∃ s', crawl cfg u s = Ret PyFalse s' ∧
          skipped s' = (t0 ++ [u]) :: rest ∧
          consecutiveNoSubmissions s' = (consecutiveNoSubmissions s + 1)%Z ∧
          id s' = id s ∧ urls s' = urls s ∧
          trace s' = trace s ++ [Fetch u].
Proof.
  intros Ho Hd Hc Hn t0 rest Hl. unfold crawl. rewrite crawl_with_eq, Ho.
  set (s1 := begun u _ s).
  cbn [crawl_on in_doNotLog]. unfold bind at 1 2, get at 1, ret at 1.
  cbn [errorHandlers]. unfold noSubmissionHandler. unfold bind at 1, get at 1.
  change (checkingSkips s1) with (checkingSkips s). rewrite Hc.
  rewrite (proj2 (Z.ltb_lt 0 (direction cfg))) by done. cbn [andb negb].
  unfold bind at 1. rewrite (skipUrl_push None u t0 rest) by done.
  unfold bind, modify, get, ret. cbn.
  rewrite (proj2 (Z.leb_gt (skipMax cfg) (consecutiveNoSubmissions s + 1)))
    by done.
  eexists. split; [reflexivity|]. done.
Qed.
End Dispatch.

Section Safety.
Context {W : Type} `{!Env W}.
Variable cfg : Config.
Implicit Type s : Crawler W.

Lemma urlGenerator_in_range pc s :
  in_range pc s →
  ∃ y pc' s', urlGenerator cfg pc s = Ret (y, pc') s' ∧ in_range pc' s' ∧
              skipped s' = skipped s.
Proof.
  intros Hr. rewrite urlGenerator_eq. unfold cursor_loop, bind, get, ret.
  destruct pc as [| | |[|n]|]; cbn in Hr;
    repeat case_match; simplify_eq; cbn in *; try lia;
    (eexists _, _, _; split_and!; [reflexivity|cbn in *; try done; lia|done]).
Qed.

Lemma checkSkips_raises s e s' :
  checkSkips cfg s = Raise e s' → e = ShutdownCrawler.
Proof.
  intros Hr.
  by pose proof (wpx_Raise _ _ _ _ _ _ Hr (checkSkips_shape cfg diverge s))
    as (-> & _).
Qed.

Lemma run_body_raises u s e s' :
  skipped s ≠ [] → run_body cfg u s = Raise e s' → e = ShutdownCrawler.
Proof.
  intros Hne. unfold run_body. unfold bind at 1.
  destruct (crawl cfg u s) as [r s1|x s1|] eqn:Hc; [| |done].
  - unfold bind, modify, ret, log, emit.
    destruct (truthy r); destruct (check_due _) as [[] w];
      try done;
      match goal with |- context [checkSkips cfg ?st] =>
        destruct (checkSkips cfg st) eqn:Hk end; try done;
      intros; simplify_eq; by eapply checkSkips_raises.
  - intros. simplify_eq. by eapply crawl_raises.
Qed.

Lemma run_loop_raises fuel :
  ∀ pc s e s',
    in_range pc s → skipped s ≠ [] →
    run_loop cfg fuel pc s = Raise e s' → e = ShutdownCrawler.
Proof.
  induction fuel as [|fuel IH]; intros pc s e s' Hr Hne; [done|].
  cbn [run_loop]. unfold run_iter. unfold bind at 1. unfold bind at 1.
  destruct (urlGenerator_in_range pc s Hr) as (y & pc1 & s1 & -> & Hr1 & Hsk).
  destruct y as [u|]; [|done]. unfold bind at 1.
  destruct (run_body cfg u s1) as [[] s2|x s2|] eqn:Hb; [| |done].
  - unfold ret. apply run_body_returns in Hb as (Hlen & [A HA] & _).
    apply IH.
    + destruct pc1; try done. cbn in *. rewrite HA, length_app. lia.
    + intros Hnil. rewrite Hnil, Hsk in Hlen. cbn in Hlen.
      by destruct (skipped s).
  - intros. simplify_eq. eapply (run_body_raises u s1); [congruence|done].
Qed.

(** X8.  Built with at least one tier, the main loop of [run] raises
    nothing but [ShutdownCrawler]: no pop of the generator finds the
    explicit queue empty, no tier index is out of range, and no status
    is looked up in [responseNotOkHandlers] without a test.  The
    generator itself never raises. *)
Theorem only_shutdown_raised (fuel : nat) (queue : list Target) (w : W)
    (e : Exn) (s' : Crawler W) :
  0 < skipmaxretries cfg →
  run_loop cfg fuel GNew (init cfg queue w) = Raise e s' →
  e = ShutdownCrawler.
Proof.
  intros Hn. apply run_loop_raises; [done|]. cbn.
  destruct (skipmaxretries cfg); [lia|done].
Qed.

(** *** A step of zero *)

Lemma turns_still n :
  ∀ pc s ys pc' s',
    direction cfg = 0%Z →
    turns cfg n pc s = Ret (ys, pc') s' → id s' = id s.
Proof.
  induction n as [|n IH]; intros pc s ys pc' s' Hd.
  - by intros [= <- <- <-].
  - rewrite turns_S.
    destruct (urlGenerator cfg pc s) as [[[u|] pc1] s1| |] eqn:Hg; [| |done..].
    + apply urlGenerator_id in Hg.
      destruct (run_body cfg u s1) as [x s2| |] eqn:Hb; [|done..].
      apply run_body_returns in Hb as (_ & _ & _ & Hid).
      destruct (turns cfg n pc1 s2) as [[ys2 pc2] s3| |] eqn:Ht; [|done..].
      intros [= <- <- <-]. rewrite (IH _ _ _ _ _ Hd Ht), Hid by lia.
      destruct Hg as [->|[_ ->]]; lia.
    + apply urlGenerator_id in Hg. intros [= <- <- <-].
      destruct Hg as [->|[_ ->]]; lia.
Qed.

(** X9.  With a step of 0 the cursor never moves: all through a run
    every cursor value the generator yields is the starting id.  The
    bound is tested as for a negative step, so with an ending id above
    the starting id the generator ends at once, and with any other it
    ends only when the cancellation event is set. *)
Theorem zero_step :
  direction cfg = 0%Z →
  (∀ queue w n ys pc s,
     turns cfg n GNew (init cfg queue w) = Ret (ys, pc) s →
     id s = startingid cfg ∧
     ∀ v s', urlGenerator cfg pc s = Ret (Some (Id v), GCursor) s' →
             v = startingid cfg) ∧
  (∀ queue w n ys pc s,
     turns cfg n GNew (init cfg queue w) = Ret (ys, pc) s →
     cursor_mode pc s = true →
     (∃ pc' s', urlGenerator cfg pc s = Ret (None, pc') s') ↔
     at_poll pc s = true ∧
     ((∃ e, endingid cfg = Some e ∧ (startingid cfg < e)%Z) ∨
      is_set (world s) = true)).
Proof.
  intros Hd. split.
  - intros queue w n ys pc s Ht. apply turns_still in Ht as Hid; [|done].
    cbn in Hid. split; [done|]. intros v s' Hg.
    pose proof (urlGenerator_id cfg _ _ _ _ Hg) as Hid'.
    apply cursor_yield in Hg as (_ & [= ->] & _).
    destruct Hid' as [->|[_ ->]]; lia.
  - intros queue w n ys pc s Ht Hm. apply turns_still in Ht as Hid; [|done].
    cbn in Hid. rewrite cursor_halt by done.
    assert (world (poll_state cfg pc s) = world s) as Hw by by destruct pc.
    assert (id (poll_state cfg pc s) = startingid cfg) as Hp.
    { destruct pc; cbn; try done. lia. }
    unfold done. rewrite Hw, Hp, Hd. cbn [Z.ltb Z.compare].
    destruct (endingid cfg) as [e|].
    + rewrite orb_true_iff, Z.ltb_lt. split.
      * intros [Ha [Hlt|Hs]]; (split; [done|]); [left; by exists e|by right].
      * intros [Ha [(e' & [= <-] & Hlt)|Hs]]; (split; [done|]);
          [by left|by right].
    + split.
      * intros [Ha Hs]. split; [done|by right].
      * intros [Ha [(e' & He & _)|Hs]]; done.
Qed.

(** *** No ending id and no event *)

Lemma run_loop_unbounded fuel :
  ∀ pc s,
    endingid cfg = None → (∀ w : W, is_set w = false) →
    in_cursor_loop pc s →
    ∀ s', run_loop cfg fuel pc s ≠ Ret () s'.
Proof.
  induction fuel as [|fuel IH]; intros pc s He Hs Hc s'; [done|].
  cbn [run_loop]. unfold run_iter. unfold bind at 1. unfold bind at 1.
  assert (∃ u pc1 s1, urlGenerator cfg pc s = Ret (Some u, pc1) s1 ∧
                      in_cursor_loop pc1 s1 ∧ pc1 ≠ GNew)
    as (u & pc1 & s1 & -> & Hc1 & Hn1).
  { rewrite urlGenerator_eq. unfold cursor_loop, bind, get, ret, done.
    rewrite He.
    destruct pc as [| | |[|n]|]; cbn in Hc; try done;
      repeat case_match; simplify_eq; cbn in *; try lia;
      rewrite ?Hs in *; try done;
      (eexists _, _, _; split_and!; [reflexivity|cbn; try done; lia|done]). }
  unfold bind at 1.
  destruct (run_body cfg u s1) as [[] s2|x s2|] eqn:Hb; [|done..].
  unfold ret. apply run_body_returns in Hb as (_ & [A HA] & _).
  apply IH; [done..|].
  destruct pc1; try done. cbn in *. rewrite HA, length_app. lia.
Qed.

(** X10.  Built without ending id and without cancellation event and
    started with an empty explicit queue, the main loop of [run] never
    ends by itself: the generator always has a next target.  [run] gets
    past its main loop only when a crawl or a drain pass raises. *)
Theorem unattended_crawl_never_ends (fuel : nat) (w : W) (s' : Crawler W) :
  endingid cfg = None → (∀ w : W, is_set w = false) →
  run_loop cfg fuel GNew (init cfg [] w) ≠ Ret () s'.
Proof. intros He Hs. by apply run_loop_unbounded. Qed.
End Safety.

Section BackoffStep.
Context {W : Type} `{!Env W}.
Variable cfg : Config.
Implicit Type s : Crawler W.

(** X11.  The crawl that takes the counter to [skipMax], going forward
    outside a drain pass.  With [c] the counter after this crawl: the
    last [c] entries of tier 0 (the one just pushed among them) are
    deleted, the cursor is taken back by [c] steps, the counter is reset,
    and [idle] runs a drain pass at once, which retries every entry the
    tiers still hold, the last tier first, and then sleeps.  [crawl]
    returns [False].  When the drain pass raises, the cursor has been
    rewound and the counter reset all the same. *)
Theorem backoff_step (u : Target) (s : Crawler W) (t0 : list Target)
    (rest : list (list Target)) :
  (attempt u (world s)).1 = Failed NoSubmission →
  (0 < direction cfg)%Z → checkingSkips s = false →
  (skipMax cfg ≤ consecutiveNoSubmissions s + 1)%Z →
  skipped s = t0 :: rest →
  let c := (consecutiveNoSubmissions s + 1)%Z in
  wp (crawl cfg u) s
    (fun r s' =>
       r = PyFalse ∧ id s' = (id s - c * direction cfg)%Z ∧
       consecutiveNoSubmissions s' = 0%Z ∧ checkingSkips s' = false ∧
       skipped s' !! 0 = Some [] ∧
       fetched (trace s') =
         fetched (trace s) ++
         u :: reverse (concat (del_tail c (t0 ++ [u]) :: rest)) ∧
       ∃ T, trace s' = T ++ [IdleSleep])
    (fun s' =>
       id s' = (id s - c * direction cfg)%Z ∧
       consecutiveNoSubmissions s' = 0%Z ∧ checkingSkips s' = true).
Proof.
  intros Ho Hd Hc Hn Hl c. unfold wp.
  rewrite crawl_no_content_forward by done.
  rewrite (noSubmissionHandler_forward_eq cfg _ _ u) by done.
  change (skipped (begun u _ s)) with (skipped s). rewrite Hl. cbv zeta.
  change (consecutiveNoSubmissions (begun u _ s))
    with (consecutiveNoSubmissions s).
  rewrite (proj2 (Z.leb_le _ _)) by done.
  match goal with |- context [bind _ _ ?st] => set (s3 := st) end.
  unfold bind at 1, idle, idle_with. unfold bind at 1.
  pose proof (checkSkips_wp cfg s3) as Hw. unfold wp in Hw.
  fold (checkSkips cfg).
  destruct (checkSkips cfg s3) as [[] s4|x s4|]; [| |done].
  - destruct Hw as ((Hid & Hcn & _) & Hc4 & Hf & H0). unfold emit, modify, ret.
    cbn. split_and!; try done.
    + by apply H0.
    + rewrite fetched_app, Hf. cbn. rewrite !fetched_app. cbn.
      by rewrite !app_nil_r, <- app_assoc.
    + by eexists.
  - destruct Hw as ((Hid & Hcn & _) & Hc4 & _). done.
Qed.

(** X12.  The periodic check of [run].  When the check is due after a
    crawl that returned, the body of the loop runs a drain pass at once:
    every entry the tiers hold is retried, the target this crawl has just
    pushed among them, tier 0 is left empty and the pass is reported at
    level [info].  When the check is not due the body leaves tiers and
    trace as the crawl left them.  In both cases the counter is reset
    exactly when the crawl returned [True]. *)
Theorem periodic_check (u : Target) (s : Crawler W) (r : PyRet)
    (s2 : Crawler W) :
  crawl cfg u s = Ret r s2 → skipped s2 ≠ [] →
  let s3 := if truthy r then set_consecutiveNoSubmissions 0 s2 else s2 in
  ((check_due (world s3)).1 = true →
   wp (run_body cfg u) s
     (fun _ s' =>
        skipped s' !! 0 = Some [] ∧ checkingSkips s' = false ∧
        consecutiveNoSubmissions s' = consecutiveNoSubmissions s3 ∧
        fetched (trace s') =
          fetched (trace s2) ++ reverse (concat (skipped s2)) ∧
        ∃ T, trace s' = T ++ [Log Info CheckedSkips])
     (fun s' =>
        checkingSkips s' = true ∧
        consecutiveNoSubmissions s' = consecutiveNoSubmissions s3)) ∧
  ((check_due (world s3)).1 = false →
   ∃ s', run_body cfg u s = Ret () s' ∧
         skipped s' = skipped s2 ∧ trace s' = trace s2 ∧
         consecutiveNoSubmissions s' = consecutiveNoSubmissions s3).
Proof.
  intros Hr Hne s3. split; intros Hdue.
  - unfold wp. rewrite run_body_eq, Hr. cbv zeta. fold s3. rewrite Hdue.
    set (s4 := set_world _ s3).
    assert (skipped s4 = skipped s2 ∧ trace s4 = trace s2 ∧
            consecutiveNoSubmissions s4 = consecutiveNoSubmissions s3)
      as (Hsk & Htr & Hcn) by (unfold s4, s3; by destruct (truthy r)).
    pose proof (checkSkips_wp cfg s4) as Hw. unfold wp in Hw. unfold bind.
    destruct (checkSkips cfg s4) as [[] s5|x s5|]; [| |done].
    + destruct Hw as ((_ & Hn & _) & Hc & Hf & H0).
      unfold log, emit, modify. cbn. split_and!.
      * apply H0. by rewrite Hsk.
      * done.
      * by rewrite Hn.
      * rewrite fetched_app, Hf, Hsk, Htr. cbn. by rewrite app_nil_r.
      * by eexists.
    + destruct Hw as ((_ & Hn & _) & Hc & _). split; [done|]. by rewrite Hn.
  - rewrite run_body_eq, Hr. cbv zeta. fold s3. rewrite Hdue.
    eexists. split; [reflexivity|]. unfold s3. by destruct (truthy r).
Qed.
End BackoffStep.

Section FirstFacts.
Context {A : Type}.
Implicit Type l : list A.

Lemma First_next_refused (method : A → Answer) l1 l2 :
  Forall (fun y => method y = Falsy) l1 →
  First_next method (l1 ++ l2) = First_next method l2.
Proof.
  induction 1 as [|y l1 Hy _ IH]; [done|]. cbn. by rewrite Hy.
Qed.

Lemma First_next_split (method : A → Answer) l :
  Forall (fun y => method y = Falsy) l ∨
  ∃ l1 y l2, l = l1 ++ y :: l2 ∧ method y ≠ Falsy ∧
             Forall (fun y => method y = Falsy) l1.
Proof.
  induction l as [|x l IH]; [by left|].
  destruct (method x) eqn:Hx.
  2: { destruct IH as [IH|(l1 & y & l2 & -> & Hy & Hl1)].
       - left. by constructor.
       - right. exists (x :: l1), y, l2. split_and!; [done|done|].
         by constructor. }
  all: right; exists [], x, l; split_and!; [done|congruence|constructor].
Qed.

(** X13.  [First(method)(it)] returns the first entry of [it] the method
    accepts: an entry is returned exactly when the method refuses every
    entry before it and accepts it.  [None] comes back when [it] is not
    iterable, when the method refuses every entry, and when the method
    raises [TypeError] or [StopIteration] on the first entry it does not
    refuse, whatever comes after.  An exception of the method that the
    except clause does not catch gets out.  [first] returns the first
    entry that is true. *)
Theorem First_call_spec (method : A → Answer) (it : option (list A)) :
  (∀ x, First_call method it = Found x ↔
        ∃ l1 l2, it = Some (l1 ++ x :: l2) ∧ method x = Truthy ∧
                 Forall (fun y => method y = Falsy) l1) ∧
  (∀ c, First_call method it = Propagated c ↔
        ∃ l1 y l2, it = Some (l1 ++ y :: l2) ∧ method y = RaisesOther c ∧
                   Forall (fun y => method y = Falsy) l1) ∧
  (First_call method it = NoneReturned ↔
     it = None ∨
     (∃ l, it = Some l ∧ Forall (fun y => method y = Falsy) l) ∨
     (∃ l1 y l2, it = Some (l1 ++ y :: l2) ∧
                 (method y = RaisesTypeError ∨
                  method y = RaisesStopIteration) ∧
                 Forall (fun y => method y = Falsy) l1)) ∧
  (∀ truth x, first truth it = Found x ↔
        ∃ l1 l2, it = Some (l1 ++ x :: l2) ∧ truth x = true ∧
                 Forall (fun y => truth y = false) l1).
Proof.
  assert (∀ (m : A → Answer) l,
    (∀ x, First_next m l = Found x ↔
          ∃ l1 l2, l = l1 ++ x :: l2 ∧ m x = Truthy ∧
                   Forall (fun y => m y = Falsy) l1) ∧
    (∀ c, First_next m l = Propagated c ↔
          ∃ l1 y l2, l = l1 ++ y :: l2 ∧ m y = RaisesOther c ∧
                     Forall (fun y => m y = Falsy) l1) ∧
    (First_next m l = NoneReturned ↔
       Forall (fun y => m y = Falsy) l ∨
       ∃ l1 y l2, l = l1 ++ y :: l2 ∧
                  (m y = RaisesTypeError ∨ m y = RaisesStopIteration) ∧
                  Forall (fun y => m y = Falsy) l1)) as Hnext.
  { intros m l.
    assert (∀ l1 y l2 l1' y' l2',
      l1 ++ y :: l2 = l1' ++ y' :: l2' →
      Forall (fun y => m y = Falsy) l1 → m y ≠ Falsy →
      Forall (fun y => m y = Falsy) l1' → m y' ≠ Falsy →
      y = y') as Huniq.
    { induction l1 as [|a l1 IH]; intros y l2 l1' y' l2' Heq H1 Hy H1' Hy'.
      - destruct l1' as [|a' l1']; cbn in Heq; simplify_eq; [done|].
        by inversion H1'.
      - destruct l1' as [|a' l1']; cbn in Heq; simplify_eq.
        + by inversion H1.
        + inversion H1; inversion H1'; subst. by eapply IH. }
    destruct (First_next_split m l) as [Hall|(l1 & y & l2 & -> & Hy & Hl1)].
    - assert (First_next m l = NoneReturned) as Hn.
      { rewrite <- (app_nil_r l). by rewrite First_next_refused. }
      rewrite Hn. split_and!.
      + intros x. split; [done|]. intros (k1 & k2 & -> & Hx & _).
        apply Forall_app in Hall as [_ Hall]. inversion Hall; congruence.
      + intros c. split; [done|]. intros (k1 & z & k2 & -> & Hz & _).
        apply Forall_app in Hall as [_ Hall]. inversion Hall; congruence.
      + split; [by left|done].
    - rewrite First_next_refused by done. cbn [First_next].
      split_and!.
      + intros x. split.
        * destruct (m y) eqn:E; try done. intros [= <-]. by exists l1, l2.
        * intros (k1 & k2 & Heq & Hx & Hk1).
          rewrite (Huniq _ _ _ _ _ _ Heq) by (done || congruence).
          by rewrite Hx.
      + intros c. split.
        * destruct (m y) eqn:E; try done. intros [= <-]. by exists l1, y, l2.
        * intros (k1 & z & k2 & Heq & Hz & Hk1).
          rewrite (Huniq _ _ _ _ _ _ Heq) by (done || congruence).
          by rewrite Hz.
      + split.
        * destruct (m y) eqn:E; try done; intros _; right;
            exists l1, y, l2; (split_and!; [done| |done]); ((by left) || (by right)).
        * intros [Hall|(k1 & z & k2 & Heq & Hz & Hk1)].
          -- apply Forall_app in Hall as [_ Hall]. inversion Hall; congruence.
          -- rewrite (Huniq _ _ _ _ _ _ Heq)
               by (done || destruct Hz; congruence).
             by destruct Hz as [-> | ->]. }
  assert (∀ m x, First_call m it = Found x ↔
        ∃ l1 l2, it = Some (l1 ++ x :: l2) ∧ m x = Truthy ∧
                 Forall (fun y => m y = Falsy) l1) as Hfound.
  { intros m x. destruct it as [l|]; cbn.
    - destruct (Hnext m l) as (H1 & _). rewrite H1. split.
      + intros (l1 & l2 & -> & H). by exists l1, l2.
      + intros (l1 & l2 & [= ->] & H). by exists l1, l2.
    - split; [done|]. by intros (? & ? & ? & _). }
  split_and!.
  - apply Hfound.
  - intros c. destruct it as [l|]; cbn.
    + destruct (Hnext method l) as (_ & H2 & _). rewrite H2. split.
      * intros (l1 & y & l2 & -> & H). by exists l1, y, l2.
      * intros (l1 & y & l2 & [= ->] & H). by exists l1, y, l2.
    + split; [done|]. by intros (? & ? & ? & ? & _).
  - destruct it as [l|]; cbn.
    + destruct (Hnext method l) as (_ & _ & H3). rewrite H3. split.
      * intros [H|(l1 & y & l2 & -> & H)].
        -- right. left. by exists l.
        -- right. right. by exists l1, y, l2.
      * intros [?|[(l' & [= <-] & H)|(l1 & y & l2 & [= ->] & H)]];
          [done|by left|right; by exists l1, y, l2].
    + split; [by left|done].
  - intros truth x. unfold first. rewrite Hfound. unfold identity_method.
    split; intros (l1 & l2 & -> & Hx & Hl1); exists l1, l2;
      (split_and!; [done|by destruct (truth x)|]);
      (eapply Forall_impl; [exact Hl1|]); intros y; cbn;
      by destruct (truth y).
Qed.
End FirstFacts.

Module SendFacts.
Import Publisher.

Section Outcomes.
Context {B : Type} `{!Broker B}.

(** The steps of [n] attempts that failed with the errors [pre], each
    followed by a reconnect that succeeded. *)
Lemma send_loop_steps n body (b : B) steps :
  ∃ pre : list PublishResult,
    length pre ≤ n ∧ Forall connection_error pre ∧
    let retried :=
      steps ++ flat_map (fun e => [Attempt e; Reconnect Connected]) pre in
    (∃ b', send_loop n body b steps =
             Returned b' (retried ++ [Attempt Published]) ∧
           length pre < n) ∨
    (∃ b', send_loop n body b steps = Returned b' retried ∧
           length pre = n) ∨
    (∃ b', send_loop n body b steps =
             Raised PublishError b' (retried ++ [Attempt PublishFailed]) ∧
           length pre < n) ∨
    (∃ b' e, send_loop n body b steps =
               Raised ConnectError b'
                 (retried ++ [Attempt e; Reconnect ConnectFailed]) ∧
             connection_error e ∧ length pre < n).
Proof.
  revert b steps. induction n as [|n IH]; intros b steps.
  - exists []. split_and!; [done|done|]. cbn. right. left.
    exists b. by rewrite app_nil_r.
  - cbn [send_loop]. destruct (basic_publish body b) as [r b1].
    assert (∀ r, connection_error r →
      ∃ pre : list PublishResult,
        length pre ≤ S n ∧ Forall connection_error pre ∧
        let retried :=
          steps ++ flat_map (fun e => [Attempt e; Reconnect Connected]) pre in
        (∃ b', (let '(c, b2) := _mq_connect b1 in
                match c with
                | Connected =>
                    send_loop n body b2 (steps ++ [Attempt r; Reconnect c])
                | ConnectFailed =>
                    Raised ConnectError b2 (steps ++ [Attempt r; Reconnect c])
                end) = Returned b' (retried ++ [Attempt Published]) ∧
               length pre < S n) ∨
        (∃ b', (let '(c, b2) := _mq_connect b1 in
                match c with
                | Connected =>
                    send_loop n body b2 (steps ++ [Attempt r; Reconnect c])
                | ConnectFailed =>
                    Raised ConnectError b2 (steps ++ [Attempt r; Reconnect c])
                end) = Returned b' retried ∧ length pre = S n) ∨
        (∃ b', (let '(c, b2) := _mq_connect b1 in
                match c with
                | Connected =>
                    send_loop n body b2 (steps ++ [Attempt r; Reconnect c])
                | ConnectFailed =>
                    Raised ConnectError b2 (steps ++ [Attempt r; Reconnect c])
                end) =
               Raised PublishError b' (retried ++ [Attempt PublishFailed]) ∧
               length pre < S n) ∨
        (∃ b' e, (let '(c, b2) := _mq_connect b1 in
                  match c with
                  | Connected =>
                      send_loop n body b2 (steps ++ [Attempt r; Reconnect c])
                  | ConnectFailed =>
                      Raised ConnectError b2
                        (steps ++ [Attempt r; Reconnect c])
                  end) =
                 Raised ConnectError b'
                   (retried ++ [Attempt e; Reconnect ConnectFailed]) ∧
                 connection_error e ∧ length pre < S n)) as Hretry.
    { intros e He. destruct (_mq_connect b1) as [[] b2].
      - destruct (IH b2 (steps ++ [Attempt e; Reconnect Connected]))
          as (pre & Hlen & Hpre & Hcases).
        exists (e :: pre). split_and!; [cbn; lia|by constructor|].
        cbn [flat_map length]. cbv zeta in Hcases |- *.
        rewrite <- !app_assoc in Hcases. cbn [app] in Hcases.
        destruct Hcases as [(b' & -> & ?)|[(b' & -> & ?)|[(b' & -> & ?)|
          (b' & x & -> & ? & ?)]]].
        + left. exists b'. split; [|lia].
          by rewrite <- !app_assoc.
        + right. left. exists b'. split; [|lia].
          by rewrite <- ?app_assoc.
        + right. right. left. exists b'. split; [|lia].
          by rewrite <- !app_assoc.
        + right. right. right. exists b', x. split_and!; [|done|lia].
          by rewrite <- !app_assoc.
      - exists []. split_and!; [cbn; lia|done|]. cbn.
        right. right. right. exists b2, e. rewrite app_nil_r.
        split_and!; [done|done|lia]. }
    destruct r.
    + exists []. split_and!; [cbn; lia|done|]. cbn. left. exists b1.
      rewrite app_nil_r. split; [done|lia].
    + apply Hretry. by left.
    + apply Hretry. by right.
    + exists []. split_and!; [cbn; lia|done|]. cbn. right. right. left.
      exists b1. rewrite app_nil_r. split; [done|lia].
Qed.

Lemma attempts_retried (pre : list PublishResult) :
  attempts (flat_map (fun e => [Attempt e; Reconnect Connected]) pre) =
    length pre ∧
  reconnects (flat_map (fun e => [Attempt e; Reconnect Connected]) pre) =
    length pre.
Proof.
  unfold attempts, reconnects. induction pre as [|e pre [IH1 IH2]]; [done|].
  cbn. by rewrite IH1, IH2.
Qed.

Lemma Published_not_retried (pre : list PublishResult) :
  Forall connection_error pre →
  Attempt Published ∉
    flat_map (fun e => [Attempt e; Reconnect Connected]) pre.
Proof.
  induction 1 as [|e pre He _ IH]; cbn; [by intros ?%elem_of_nil|].
  intros [?|[?|?]%elem_of_cons]%elem_of_cons; try done.
  simplify_eq. by destruct He.
Qed.

(** X14.  Every way [_send] can end.  A message that is not a bytestring
    raises [ValueError] before the channel is touched.  Otherwise some
    attempts fail with a connection-state error and are each followed by
    a reconnect that succeeds, and then one of four things happens: an
    attempt publishes the message and [_send] returns; or three attempts
    have failed and [_send] returns with the message unpublished; or an
    attempt raises something else, which gets out without a reconnect; or
    a reconnect raises, which gets out too.  So there are never more than
    three attempts nor more reconnects than attempts, and a message is
    never published twice: a successful attempt is the last step. *)
Theorem send_outcomes (message : Payload) (b : B) :
  (message = NotBytes → _send message b = Raised ValueError b []) ∧
  (∀ body, message = Bytes body →
     ∃ pre : list PublishResult,
       Forall connection_error pre ∧
       let retried :=
         flat_map (fun e => [Attempt e; Reconnect Connected]) pre in
       (∃ b', _send message b = Returned b' (retried ++ [Attempt Published]) ∧
              length pre ≤ 2) ∨
       (∃ b', _send message b = Returned b' retried ∧ length pre = 3) ∨
       (∃ b', _send message b =
                Raised PublishError b' (retried ++ [Attempt PublishFailed]) ∧
              length pre ≤ 2) ∨
       (∃ b' e, _send message b =
                  Raised ConnectError b'
                    (retried ++ [Attempt e; Reconnect ConnectFailed]) ∧
                connection_error e ∧ length pre ≤ 2)) ∧
  (let t := steps_of (_send message b) in
   attempts t ≤ 3 ∧ reconnects t ≤ attempts t ∧
   (delivered t = true →
    ∃ b' t', _send message b = Returned b' (t' ++ [Attempt Published]) ∧
             Attempt Published ∉ t')).
Proof.
  split; [by intros ->|].
  assert (∀ body, message = Bytes body →
     ∃ pre : list PublishResult,
       Forall connection_error pre ∧
       let retried :=
         flat_map (fun e => [Attempt e; Reconnect Connected]) pre in
       (∃ b', _send message b = Returned b' (retried ++ [Attempt Published]) ∧
              length pre ≤ 2) ∨
       (∃ b', _send message b = Returned b' retried ∧ length pre = 3) ∨
       (∃ b', _send message b =
                Raised PublishError b' (retried ++ [Attempt PublishFailed]) ∧
              length pre ≤ 2) ∨
       (∃ b' e, _send message b =
                  Raised ConnectError b'
                    (retried ++ [Attempt e; Reconnect ConnectFailed]) ∧
                connection_error e ∧ length pre ≤ 2)) as Hcases.
  { intros body ->. unfold _send.
    destruct (send_loop_steps 3 body b []) as (pre & Hlen & Hpre & Hc).
    exists pre. split; [done|]. cbv zeta in Hc |- *. cbn [app] in Hc.
    destruct Hc as [(b' & -> & ?)|[(b' & -> & ?)|[(b' & -> & ?)|
      (b' & x & -> & ? & ?)]]].
    - left. exists b'. split; [done|lia].
    - right. left. by exists b'.
    - right. right. left. exists b'. split; [done|lia].
    - right. right. right. exists b', x. split_and!; [done|done|lia]. }
  split; [done|]. destruct message as [body|]; [|cbn; split_and!; [lia|lia|done]].
  destruct (Hcases body eq_refl) as (pre & Hpre & Hc). cbv zeta in Hc |- *.
  pose proof (attempts_retried pre) as [Ha Hr].
  pose proof (Published_not_retried pre Hpre) as Hnp.
  unfold attempts, reconnects, delivered in *.
  destruct Hc as [(b' & -> & ?)|[(b' & -> & ?)|[(b' & -> & ?)|
    (b' & x & -> & Hx & ?)]]]; cbn [steps_of];
    rewrite ?List.filter_app, ?length_app, ?Ha, ?Hr; cbn;
    (split_and!; [lia|lia|]).
  - intros _. eexists _, _. split; [reflexivity|exact Hnp].
  - intros Hd. by apply bool_decide_eq_true in Hd.
  - intros Hd. apply bool_decide_eq_true in Hd.
    apply elem_of_app in Hd as [?|Hd]; [done|].
    by apply list_elem_of_singleton in Hd.
  - intros Hd. apply bool_decide_eq_true in Hd.
    apply elem_of_app in Hd as [?|Hd]; [done|].
    apply elem_of_cons in Hd as [Hd|Hd]; [|by apply list_elem_of_singleton in Hd].
    simplify_eq. by destruct Hx.
Qed.
End Outcomes.
End SendFacts.

(** ** The further theorems at work on concrete engines *)

Module MoreChecks.
Import Examples Scenarios.

Local Ltac calc := vm_compute; reflexivity.

Lemma checkSkips_interrupted_witness :
  ∃ s', checkSkips forward broken = Raise ShutdownCrawler s' ∧
        checkingSkips s' = true ∧ totalSkipped s' < totalSkipped broken.
Proof.
  assert (∃ s', checkSkips forward broken = Raise ShutdownCrawler s')
    as [s' Heq] by (eexists; calc).
  exists s'. split; [exact Heq|].
  destruct (checkSkips_interrupted forward broken _ _ Heq)
    as (_ & Hc & Ht & _).
  split; [exact Hc|exact Ht].
Defined.

Lemma skippable_failures_witness :
  ∃ s', crawl forward (Id 100) slow = Ret PyNone s' ∧
        skipped s' = [[Id 100]; []; []] ∧
        trace s' = [Fetch (Id 100); Log Info Logdata; Sleep 60].
Proof.
  destruct (skippable_failures forward (Id 100) slow ReadTimeout
              [Log Info Logdata; Sleep 60]) as (H & _ & _);
    [calc|right; right; left; split; reflexivity|].
  destruct (H ltac:(calc) [] [[]; []] ltac:(calc))
    as (s' & Heq & Hsk & _ & _ & _ & Htr).
  exists s'. split; [exact Heq|]. split; [exact Hsk|exact Htr].
Defined.

Lemma no_content_counted_witness :
  ∃ s', crawl forward (Id 100) empty_once = Ret PyFalse s' ∧
        skipped s' = [[Id 100]; []; []] ∧
        consecutiveNoSubmissions s' = 1%Z.
Proof.
  pose proof (no_content_counted forward (Id 100) empty_once) as H.
  destruct (H ltac:(calc) ltac:(calc) ltac:(calc) ltac:(calc)
              [] [[]; []] ltac:(calc))
    as (s' & Heq & Hsk & Hn & _).
  exists s'. split; [exact Heq|]. split; [exact Hsk|exact Hn].
Defined.

Lemma only_shutdown_raised_witness :
  0 < skipmaxretries forward ∧
  ∃ s', run_loop forward 1 GNew malformed = Raise ShutdownCrawler s'.
Proof.
  split; [vm_compute; lia|].
  assert (∃ e s', run_loop forward 1 GNew malformed = Raise e s')
    as (e & s' & Heq) by (eexists _, _; calc).
  exists s'.
  pose proof (only_shutdown_raised forward 1 []
                (script [Failed BadOrMalformedResponse] []) e s') as H.
  rewrite <- (H ltac:(vm_compute; lia) Heq).
  exact Heq.
Defined.

Lemma zero_step_witness :
  direction still = 0%Z ∧
  ∃ ys pc s, turns still 2 GNew standing = Ret (ys, pc) s ∧ id s = 100%Z.
Proof.
  split; [calc|].
  assert (∃ ys pc s, turns still 2 GNew standing = Ret (ys, pc) s)
    as (ys & pc & s & Heq) by (eexists _, _, _; calc).
  exists ys, pc, s. split; [exact Heq|].
  destruct (zero_step still (W := Script)) as [H _]; [calc|].
  apply (H [] (script [] []) 2 ys pc s Heq).
Defined.

Lemma unattended_crawl_never_ends_witness :
  endingid forward = None ∧
  ∀ s', run_loop forward 5 GNew unattended ≠ Ret () s'.
Proof.
  split; [calc|]. intros s'.
  apply (unattended_crawl_never_ends (W := list Outcome) forward 5 [] s');
    [calc|intros w; reflexivity].
Defined.

Lemma backoff_step_witness :
  ∃ s', crawl bounded (Id 101) second_empty = Ret PyFalse s' ∧
        id s' = 99%Z ∧ consecutiveNoSubmissions s' = 0%Z.
Proof.
  assert (∃ s', crawl bounded (Id 101) second_empty = Ret PyFalse s')
    as [s' Heq] by (eexists; calc).
  pose proof (backoff_step bounded (Id 101) second_empty
                [Id 100] [[]; []]) as H.
  pose proof (H ltac:(calc) ltac:(calc) ltac:(calc)
                ltac:(vm_compute; discriminate) ltac:(calc)) as Hw.
  cbv zeta in Hw. apply (wp_Ret _ _ _ _ _ _ Heq) in Hw.
  destruct Hw as (_ & Hid & Hc & _).
  exists s'. split; [exact Heq|]. split; [|exact Hc]. rewrite Hid. calc.
Defined.

Lemma drain_shift_witness :
  ∃ s', checkSkips forward pending_retries = Ret () s' ∧
        checkingSkips s' = false ∧ skipped s' !! 0 = Some [] ∧
        ∀ t', skipped s' !! 1 = Some t' → t' `sublist_of` [Id 8; Id 7].
Proof.
  assert (∃ s', checkSkips forward pending_retries = Ret () s')
    as [s' Heq] by (eexists; calc).
  pose proof (drain_shift forward pending_retries) as Hw.
  apply (wp_Ret _ _ _ _ _ _ Heq) in Hw. destruct Hw as (Hc & Hlen & Hsh).
  exists s'. split; [exact Heq|]. split; [exact Hc|]. split.
  - destruct (lookup_lt_is_Some_2 (skipped s') 0) as [t Ht];
      [rewrite Hlen; vm_compute; lia|].
    rewrite Ht. f_equal. apply (Hsh 0 t Ht).
  - intros t' Ht'. destruct (Hsh 1 t' Ht') as (t & Ht & Hsub).
    injection Ht as <-. exact Hsub.
Defined.

Lemma shutdown_drain_empties_witness :
  ∃ s', shutdown_drain forward 3 pending_retries = Ret () s' ∧
        totalSkipped s' = 0.
Proof.
  assert (∃ s', shutdown_drain forward 3 pending_retries = Ret () s')
    as [s' Heq] by (eexists; calc).
  pose proof (shutdown_drain_empties forward pending_retries) as Hw.
  apply (wp_Ret _ _ _ _ _ _ Heq) in Hw. destruct Hw as [H0 _].
  exists s'. split; [exact Heq|exact H0].
Defined.

Lemma run_never_raises_witness :
  ∃ s' T lvl, run forward 1 [] malformed = Ret () s' ∧
              trace s' = T ++ [Log lvl Finished].
Proof.
  destruct (run_never_raises forward 1 [] malformed) as [_ H].
  destruct (H ltac:(vm_compute; discriminate))
    as (s' & T & lvl & Heq & Htr & _).
  exists s', T, lvl. split; [exact Heq|exact Htr].
Defined.

Lemma fatal_errors_witness :
  ∃ s', crawl forward (Id 100) malformed = Raise ShutdownCrawler s' ∧
        skipped s' = skipped malformed ∧
        trace s' = [Fetch (Id 100); Log Info Logdata].
Proof.
  destruct (fatal_errors forward (Id 100) malformed) as [H _].
  destruct (H BadOrMalformedResponse ltac:(calc) ltac:(by left))
    as (s' & Heq & Hsk & _ & _ & Htr & _).
  exists s'. split; [exact Heq|]. split; [exact Hsk|exact Htr].
Defined.

Lemma periodic_check_witness :
  ∃ s', run_body forward (Id 100) flaky = Ret () s' ∧
        skipped s' !! 0 = Some [] ∧ checkingSkips s' = false.
Proof.
  assert (∃ s2, crawl forward (Id 100) flaky = Ret PyFalse s2)
    as [s2 Hc] by (eexists; calc).
  assert (∃ s', run_body forward (Id 100) flaky = Ret () s')
    as [s' Heq] by (eexists; calc).
  pose proof (periodic_check forward (Id 100) flaky PyFalse s2 Hc) as H.
  assert (skipped s2 ≠ []) as Hne.
  { pose proof (crawl_grows forward (Id 100) flaky I) as Hg.
    apply (wp_Ret _ _ _ _ _ _ Hc) in Hg. destruct Hg as [(Hlen & _) _].
    intros Hnil. rewrite Hnil in Hlen. vm_compute in Hlen. discriminate. }
  destruct (H Hne) as [Hdue _]. cbn [truthy] in Hdue.
  assert ((check_due (world s2)).1 = true) as Hd.
  { unfold crawl in Hc. rewrite crawl_with_eq in Hc.
    assert (world s2 = mkScript [Failed (ResponseNotOk 503);
                                 Failed (ResponseNotOk 404)]
                          [true; false] false) as ->; [|reflexivity].
    revert Hc. vm_compute. by intros [= <-]. }
  specialize (Hdue Hd). apply (wp_Ret _ _ _ _ _ _ Heq) in Hdue.
  destruct Hdue as (H0 & Hcs & _).
  exists s'. split; [exact Heq|]. split; [exact H0|exact Hcs].
Defined.

Lemma First_call_spec_witness :
  first (fun n : nat => negb (n =? 0)) (Some [0; 0; 5; 7]) = Found 5 ∧
  First_call (fun n : nat => if n =? 0 then Falsy else RaisesStopIteration)
    (Some [0; 5; 7]) = NoneReturned.
Proof.
  split.
  - destruct (First_call_spec (identity_method (fun n : nat => negb (n =? 0)))
                (Some [0; 0; 5; 7])) as (_ & _ & _ & H).
    apply H. exists [0; 0], [7]. split; [reflexivity|].
    split; [reflexivity|]. by repeat constructor.
  - destruct (First_call_spec
                (fun n : nat => if n =? 0 then Falsy else RaisesStopIteration)
                (Some [0; 5; 7])) as (_ & _ & H & _).
    apply H. right. right. exists [0], 5, [7]. split; [reflexivity|].
    split; [by right|]. by repeat constructor.
Defined.

Lemma send_outcomes_witness :
  ∃ b' t', Publisher._send (Publisher.Bytes []) twice_then_ok =
             Publisher.Returned b' (t' ++ [Publisher.Attempt Publisher.Published]) ∧
           Publisher.Attempt Publisher.Published ∉ t'.
Proof.
  destruct (SendFacts.send_outcomes (Publisher.Bytes []) twice_then_ok)
    as (_ & _ & _ & _ & H).
  apply H. calc.
Defined.
End MoreChecks.
